(** * libp2p/NodeTable.cpp: the Kademlia node table and its discovery protocol

    A shallow embedding of [NodeTable] (routing table, eviction probes,
    iterative lookup, packet dispatcher) and of
    [DiscoveryDatagram::interpretUDP].

    Modelling conventions.
    - A [shared_ptr<NodeEntry>] is an address into [m_heap]; addresses are
      never reused, so an address also stands for the control block that
      [owner_before] compares.  A [weak_ptr] is an address too; it locks
      exactly while some [shared_ptr] to the address is still held
      (by [m_allNodes], by the [_tried] set captured by a scheduled
      [doDiscover] round, or by the locals of the running sweep).
    - Undefined behaviour of the C++ (an index outside [m_buckets], a null
      [_tried]) is the result [None].
    - [steady_clock::now()] is read once for each handler run and passed in.
    - Locks and logging are left out: handlers run to completion. *)

From Stdlib Require Import ZArith List Bool Lia.
From stdpp Require Import base option list gmap sorting.

Local Open Scope Z_scope.

(** ** Identifiers and endpoints *)

Abbreviation NodeID := Z (only parsing).
Abbreviation Public := Z (only parsing).
Abbreviation addr := nat (only parsing).
Abbreviation bytes := (list Z) (only parsing).

(** [bi::udp::endpoint] *)
Record UdpEndpoint := mkUdp { udp_address : Z; udp_port : Z }.

Record NodeIPEndpoint := mkEndpoint { address : Z; udpPort : Z; tcpPort : Z }.

(** [PeerType], an enum class declared in Common.h: its value as an integer. *)
Abbreviation PeerType := Z (only parsing).

(** [Node], declared in Common.h: the three members that
    [Node(_id, entry->endpoint, entry->peerType)] initialises. *)
Record Node := mkNode { id : NodeID; endpoint : NodeIPEndpoint; peerType : PeerType }.

Inductive NodeRelation := Unknown | Known.

(** What the file takes from other translation units. *)
Class Externals := {
  (** [sha3] of a node id, as an integer *)
  sha3 : NodeID -> Z;
  (** [NodeIPEndpoint::isAllowed] *)
  isAllowed : NodeIPEndpoint -> bool;
  (** [NodeIPEndpoint::operator bool] *)
  endpointSet : NodeIPEndpoint -> bool;
  (** [isPublicAddress] *)
  isPublicAddress : Z -> bool;
  (** the peer type of a [Node] constructed without one, as
      [Node(_pubk, _gw)] in the constructor of [NodeEntry] *)
  defaultPeerType : PeerType;
  (** [sha3] of a byte range, as 32 bytes *)
  sha3_bytes : bytes -> bytes;
  (** [dev::recover signature hash]; the zero key on failure *)
  recover : bytes -> bytes -> Public;
  (** [interpretRLP] of each packet class: the fields and the expiry
      timestamp, or [None] when the RLP decoder throws *)
  rlp_PingNode : bytes -> option (NodeIPEndpoint * NodeIPEndpoint * Z);
  rlp_Pong : bytes -> option (NodeIPEndpoint * Z);
  rlp_FindNode : bytes -> option (NodeID * Z);
  rlp_Neighbours : bytes -> option (list (NodeIPEndpoint * NodeID) * Z)
}.

(** Modelled from the spec: the number of buckets, a constant of
    NodeTable.h, which is not part of the sources (section 3: an array of
    256 buckets). *)
Definition s_bins : Z := 256.
(** Modelled from the spec: the bucket capacity K of NodeTable.h (section 6). *)
Definition s_bucketSize : nat := 16.
(** Modelled from the spec: the parallelism of a lookup round (section 6). *)
Definition s_alpha : nat := 3.
(** Modelled from the spec: the number of lookup rounds S (section 6). *)
Definition s_maxSteps : nat := 8.
(** Modelled from the spec: [c_reqTimeout] of NodeTable.h, in milliseconds
    (section 6). *)
Definition c_reqTimeout : Z := 300.
(** Modelled from the spec: the interval of the eviction sweep (section 6). *)
Definition c_evictionCheckInterval : Z := 75.
(** Modelled from the spec: the interval of the random discovery (section 6). *)
Definition c_bucketRefresh : Z := 7200.
(** Modelled from the spec: [maxDatagramSize] of the socket (section 6). *)
Definition maxDatagramSize : Z := 1280.

(** A hash is an [h256]: the value wraps to 256 bits. *)
Definition h256 (x : Z) : Z := x mod 2 ^ 256.

(** Modelled from the spec: [NodeTable::distance] is declared in NodeTable.h.
    The index of the highest set bit of the xor of the two hashes, plus one;
    0 when the hashes are equal. *)
Definition distance `{Externals} (a b : NodeID) : Z :=
  let d := Z.lxor (h256 (sha3 a)) (h256 (sha3 b)) in
  if d =? 0 then 0 else Z.log2 d + 1.

(** ** The table *)

(** [NodeEntry], declared in NodeTable.h: a [Node] with its distance to the
    host and the flag [pending] (section 3 of the spec).  The members
    [e_id], [e_endpoint] and [e_peerType] are those of the base [Node]. *)
Record NodeEntry := mkEntry {
  e_id : NodeID;
  e_endpoint : NodeIPEndpoint;
  e_distance : Z;
  pending : bool;
  e_peerType : PeerType
}.

(** [NodeEntry::NodeEntry(_src, _pubk, _gw)]: the base is [Node(_pubk, _gw)],
    without a peer type; [pending] defaults to true. *)
Definition new_NodeEntry `{Externals} (src : NodeID) (pubk : Public)
    (gw : NodeIPEndpoint) : NodeEntry :=
  mkEntry pubk gw (distance src pubk) true defaultPeerType.

Record EvictionTimeout := mkEvict { newNodeID : NodeID; evictedTimePoint : Z }.

Inductive NodeTableEventType := NodeEntryAdded | NodeEntryDropped.

(** Packets handed to the socket. *)
Inductive OutPacket :=
| OutPing (source destination : NodeIPEndpoint)
| OutPong (destination : NodeIPEndpoint) (echo : bytes)
| OutFindNode (to : NodeIPEndpoint) (target : NodeID)
| OutNeighbours (to : UdpEndpoint) (neighbours : list (NodeIPEndpoint * NodeID)).

(** The callbacks handed to [m_timers.schedule]. *)
Inductive Task :=
| TCheckEvictions
| TDiscovery
| TDiscover (target : NodeID) (round : nat) (tried : gset nat).

Record NodeTable := mkTable {
  m_hostNode : Node;
  m_heap : gmap nat NodeEntry;
  m_next : nat;
  m_allNodes : gmap Z nat;
  m_buckets : list (list nat);
  m_evictions : gmap Z EvictionTimeout;
  m_findNodeTimeout : list (Z * Z);
  m_timers : list Task;
  m_locals : list nat;
  m_socketOpen : bool;
  m_nodeEventHandler : bool;
  m_events : list (Z * NodeTableEventType);
  m_sent : list OutPacket
}.

Definition set_hostNode (v : Node) (t : NodeTable) : NodeTable :=
  mkTable v (m_heap t) (m_next t) (m_allNodes t) (m_buckets t) (m_evictions t)
    (m_findNodeTimeout t) (m_timers t) (m_locals t) (m_socketOpen t)
    (m_nodeEventHandler t) (m_events t) (m_sent t).
Definition set_heap (v : gmap nat NodeEntry) (t : NodeTable) : NodeTable :=
  mkTable (m_hostNode t) v (m_next t) (m_allNodes t) (m_buckets t) (m_evictions t)
    (m_findNodeTimeout t) (m_timers t) (m_locals t) (m_socketOpen t)
    (m_nodeEventHandler t) (m_events t) (m_sent t).
Definition set_next (v : nat) (t : NodeTable) : NodeTable :=
  mkTable (m_hostNode t) (m_heap t) v (m_allNodes t) (m_buckets t) (m_evictions t)
    (m_findNodeTimeout t) (m_timers t) (m_locals t) (m_socketOpen t)
    (m_nodeEventHandler t) (m_events t) (m_sent t).
Definition set_allNodes (v : gmap Z nat) (t : NodeTable) : NodeTable :=
  mkTable (m_hostNode t) (m_heap t) (m_next t) v (m_buckets t) (m_evictions t)
    (m_findNodeTimeout t) (m_timers t) (m_locals t) (m_socketOpen t)
    (m_nodeEventHandler t) (m_events t) (m_sent t).
Definition set_buckets (v : list (list nat)) (t : NodeTable) : NodeTable :=
  mkTable (m_hostNode t) (m_heap t) (m_next t) (m_allNodes t) v (m_evictions t)
    (m_findNodeTimeout t) (m_timers t) (m_locals t) (m_socketOpen t)
    (m_nodeEventHandler t) (m_events t) (m_sent t).
Definition set_evictions (v : gmap Z EvictionTimeout) (t : NodeTable) : NodeTable :=
  mkTable (m_hostNode t) (m_heap t) (m_next t) (m_allNodes t) (m_buckets t) v
    (m_findNodeTimeout t) (m_timers t) (m_locals t) (m_socketOpen t)
    (m_nodeEventHandler t) (m_events t) (m_sent t).
Definition set_findNodeTimeout (v : list (Z * Z)) (t : NodeTable) : NodeTable :=
  mkTable (m_hostNode t) (m_heap t) (m_next t) (m_allNodes t) (m_buckets t)
    (m_evictions t) v (m_timers t) (m_locals t) (m_socketOpen t)
    (m_nodeEventHandler t) (m_events t) (m_sent t).
Definition set_timers (v : list Task) (t : NodeTable) : NodeTable :=
  mkTable (m_hostNode t) (m_heap t) (m_next t) (m_allNodes t) (m_buckets t)
    (m_evictions t) (m_findNodeTimeout t) v (m_locals t) (m_socketOpen t)
    (m_nodeEventHandler t) (m_events t) (m_sent t).
Definition set_locals (v : list nat) (t : NodeTable) : NodeTable :=
  mkTable (m_hostNode t) (m_heap t) (m_next t) (m_allNodes t) (m_buckets t)
    (m_evictions t) (m_findNodeTimeout t) (m_timers t) v (m_socketOpen t)
    (m_nodeEventHandler t) (m_events t) (m_sent t).
Definition set_socketOpen (v : bool) (t : NodeTable) : NodeTable :=
  mkTable (m_hostNode t) (m_heap t) (m_next t) (m_allNodes t) (m_buckets t)
    (m_evictions t) (m_findNodeTimeout t) (m_timers t) (m_locals t) v
    (m_nodeEventHandler t) (m_events t) (m_sent t).
Definition set_events (v : list (Z * NodeTableEventType)) (t : NodeTable) : NodeTable :=
  mkTable (m_hostNode t) (m_heap t) (m_next t) (m_allNodes t) (m_buckets t)
    (m_evictions t) (m_findNodeTimeout t) (m_timers t) (m_locals t) (m_socketOpen t)
    (m_nodeEventHandler t) v (m_sent t).
Definition set_sent (v : list OutPacket) (t : NodeTable) : NodeTable :=
  mkTable (m_hostNode t) (m_heap t) (m_next t) (m_allNodes t) (m_buckets t)
    (m_evictions t) (m_findNodeTimeout t) (m_timers t) (m_locals t) (m_socketOpen t)
    (m_nodeEventHandler t) (m_events t) v.

(** ** Ownership of entries *)

Definition tried_of (k : Task) : gset nat :=
  match k with TDiscover _ _ tried => tried | _ => ∅ end.

(** Some [shared_ptr] still points to [a]. *)
Definition owned (t : NodeTable) (a : nat) : bool :=
  bool_decide (a ∈ (map_to_list (m_allNodes t)).*2)
  || existsb (λ k, bool_decide (a ∈ tried_of k)) (m_timers t)
  || bool_decide (a ∈ m_locals t).

(** [weak_ptr::lock] *)
Definition weak_lock (t : NodeTable) (a : nat) : option NodeEntry :=
  if owned t a then m_heap t !! a else None.

(** [make_shared<NodeEntry>] *)
Definition alloc (e : NodeEntry) (t : NodeTable) : nat * NodeTable :=
  (m_next t, set_next (S (m_next t)) (set_heap (<[m_next t := e]> (m_heap t)) t)).

(** ** Effects *)

Definition send (p : OutPacket) (t : NodeTable) : NodeTable :=
  set_sent (m_sent t ++ [p]) t.

Definition schedule (k : Task) (t : NodeTable) : NodeTable :=
  set_timers (m_timers t ++ [k]) t.

(** [if (m_nodeEventHandler) m_nodeEventHandler->appendEvent(id, ty)] *)
Definition appendEvent (i : NodeID) (ty : NodeTableEventType) (t : NodeTable) : NodeTable :=
  if m_nodeEventHandler t then set_events (m_events t ++ [(i, ty)]) t else t.

Definition doCheckEvictions (t : NodeTable) : NodeTable := schedule TCheckEvictions t.

Definition doDiscovery (t : NodeTable) : NodeTable := schedule TDiscovery t.

(** ** Routing table operations *)

Definition nodeEntry (i : NodeID) (t : NodeTable) : option nat := m_allNodes t !! i.

Definition ping (toEndpoint : NodeIPEndpoint) (t : NodeTable) : NodeTable :=
  send (OutPing (endpoint (m_hostNode t)) toEndpoint) t.

(** [m_evictions.emplace] keeps an entry that is already there. *)
Definition emplace (k : NodeID) (v : EvictionTimeout) (m : gmap Z EvictionTimeout)
    : gmap Z EvictionTimeout :=
  match m !! k with Some _ => m | None => <[k := v]> m end.

Definition evict (leastSeen new : NodeEntry) (now : Z) (t : NodeTable) : NodeTable :=
  if negb (m_socketOpen t) then t
  else
    let t1 := set_evictions (emplace (e_id leastSeen) (mkEvict (e_id new) now) (m_evictions t)) t in
    let evicts := size (m_evictions t1) in
    let t2 := if (evicts =? 1)%nat then doCheckEvictions t1 else t1 in
    ping (e_endpoint leastSeen) t2.

(** The index [_n->distance - 1] into [m_buckets], when it is inside the array. *)
Definition bucket_UNSAFE (n : NodeEntry) : option nat :=
  let i := e_distance n - 1 in
  if (0 <=? i) && (i <? s_bins) then Some (Z.to_nat i) else None.

(** [nodes.splice(nodes.end(), nodes, it)] for the first [it] that holds [a]. *)
Fixpoint remove_first (a : nat) (l : list nat) : list nat :=
  match l with
  | [] => []
  | b :: l' => if (a =? b)%nat then l' else b :: remove_first a l'
  end.

Definition udp_of (e : NodeIPEndpoint) : UdpEndpoint := mkUdp (address e) (udpPort e).

Definition noteActiveNode `{Externals} (pubk : Public) (ep : UdpEndpoint) (now : Z)
    (t : NodeTable) : option NodeTable :=
  if (pubk =? id (m_hostNode t))
     || negb (isAllowed (mkEndpoint (udp_address ep) (udp_port ep) (udp_port ep)))
  then Some t
  else
    match nodeEntry pubk t with
    | None => Some t
    | Some a =>
      e ← m_heap t !! a;
      if pending e then Some t
      else
        let e' := mkEntry (e_id e)
                    (mkEndpoint (udp_address ep) (udp_port ep) (tcpPort (e_endpoint e)))
                    (e_distance e) (pending e) (e_peerType e) in
        let t1 := set_heap (<[a := e']> (m_heap t)) t in
        i ← bucket_UNSAFE e';
        nodes ← m_buckets t1 !! i;
        if bool_decide (a ∈ nodes)
        then Some (set_buckets (<[i := remove_first a nodes ++ [a]]> (m_buckets t1)) t1)
        else if (length nodes <? s_bucketSize)%nat
        then Some (appendEvent (e_id e') NodeEntryAdded
                     (set_buckets (<[i := nodes ++ [a]]> (m_buckets t1)) t1))
        else
          match nodes with
          | [] => None
          | front :: rest =>
            match weak_lock t1 front with
            | None => Some (appendEvent (e_id e') NodeEntryAdded
                              (set_buckets (<[i := rest ++ [a]]> (m_buckets t1)) t1))
            | Some nodeToEvict => Some (evict nodeToEvict e' now t1)
            end
          end
    end.

Definition dropNode (n : nat) (t : NodeTable) : option NodeTable :=
  e ← m_heap t !! n;
  i ← bucket_UNSAFE e;
  nodes ← m_buckets t !! i;
  let t1 := set_buckets (<[i := filter (λ b, b ≠ n) nodes]> (m_buckets t)) t in
  let t2 := set_allNodes (delete (e_id e) (m_allNodes t1)) t1 in
  Some (appendEvent (e_id e) NodeEntryDropped t2).

Definition addNode `{Externals} (node : Node) (relation : NodeRelation) (now : Z)
    (t : NodeTable) : option NodeTable :=
  match relation with
  | Known =>
    let e := new_NodeEntry (id (m_hostNode t)) (id node) (endpoint node) in
    let '(a, t1) :=
      alloc (mkEntry (e_id e) (e_endpoint e) (e_distance e) false (e_peerType e)) t in
    let t2 := set_allNodes (<[id node := a]> (m_allNodes t1)) t1 in
    noteActiveNode (id node) (udp_of (endpoint node)) now t2
  | Unknown =>
    if negb (endpointSet (endpoint node)) || (id node =? 0) then Some t
    else if bool_decide (is_Some (m_allNodes t !! id node)) then Some t
    else
      let '(a, t1) := alloc (new_NodeEntry (id (m_hostNode t)) (id node) (endpoint node)) t in
      let t2 := set_allNodes (<[id node := a]> (m_allNodes t1)) t1 in
      Some (ping (endpoint node) t2)
  end.

(** [NodeTable::NodeTable] with the socket connected or not; an enabled table
    starts the discovery timer. *)
Definition empty_table (host : Node) (handler : bool) : NodeTable :=
  mkTable host ∅ 0%nat ∅ (replicate (Z.to_nat s_bins) []) ∅ [] [] [] false handler [] [].

Definition new_NodeTable (host : Node) (enabled handler : bool) : NodeTable :=
  if enabled then doDiscovery (set_socketOpen true (empty_table host handler))
  else empty_table host handler.

(** ** Nearest entries *)

(** One pass over [m_buckets[i].nodes]: the entries that still lock, each
    with its distance to the target. *)
Definition scan `{Externals} (target : NodeID) (i : Z) (t : NodeTable) : list (Z * nat) :=
  omap (λ n, match weak_lock t n with
             | Some p => Some (distance target (e_id p), n)
             | None => None
             end)
       (default [] (m_buckets t !! Z.to_nat i)).

(** [while (head != tail && head < s_bins)]; the fuel is [s_bins - head],
    the number of turns after which [head < s_bins] fails. *)
Fixpoint spread `{Externals} (fuel : nat) (target : NodeID) (head tail : Z)
    (found : list (Z * nat)) (t : NodeTable) : list (Z * nat) :=
  match fuel with
  | O => found
  | S fuel' =>
    if negb (head =? tail) && (head <? s_bins) then
      let found1 := found ++ scan target head t in
      let found2 := if tail =? 0 then found1 else found1 ++ scan target tail t in
      spread fuel' target (head + 1) (if tail =? 0 then tail else tail - 1) found2 t
    else found
  end.

(** [while (head < s_bins)], fuel [s_bins - head]. *)
Fixpoint forward `{Externals} (fuel : nat) (target : NodeID) (head : Z)
    (found : list (Z * nat)) (t : NodeTable) : list (Z * nat) :=
  match fuel with
  | O => found
  | S fuel' =>
    if head <? s_bins then forward fuel' target (head + 1) (found ++ scan target head t) t
    else found
  end.

(** [while (tail > 0)], fuel [tail]. *)
Fixpoint reverse_walk `{Externals} (fuel : nat) (target : NodeID) (tail : Z)
    (found : list (Z * nat)) (t : NodeTable) : list (Z * nat) :=
  match fuel with
  | O => found
  | S fuel' =>
    if 0 <? tail then reverse_walk fuel' target (tail - 1) (found ++ scan target tail t) t
    else found
  end.

(** The iteration over [map<unsigned, list<...>> found]: keys ascending,
    each key's list in insertion order.  A key is a distance, at most 256. *)
Definition in_key_order (found : list (Z * nat)) : list nat :=
  flat_map (λ d, (filter (λ kv, kv.1 = d) found).*2) (seqZ 0 (s_bins + 1)).

(** [!!n->endpoint && n->endpoint.isAllowed()] *)
Definition sendable `{Externals} (t : NodeTable) (n : nat) : bool :=
  match m_heap t !! n with
  | Some e => endpointSet (e_endpoint e) && isAllowed (e_endpoint e)
  | None => false
  end.

Definition nearestNodeEntries `{Externals} (target : NodeID) (t : NodeTable) : list nat :=
  let lastBin := s_bins - 1 in
  let head := distance (id (m_hostNode t)) target in
  let tail := if head =? 0 then lastBin else (head - 1) mod s_bins in
  let found :=
    if (1 <? head) && negb (tail =? lastBin)
    then spread (Z.to_nat (s_bins - head)) target head tail [] t
    else if head <? 2
    then forward (Z.to_nat (s_bins - head)) target head [] t
    else reverse_walk (Z.to_nat tail) target tail [] t in
  take s_bucketSize
    (filter (λ n, sendable t n = true) (in_key_order found)).

(** ** Iterative lookup *)

(** [m_findNodeTimeout.push_back(make_pair(id, now))] *)
Definition register (i : NodeID) (now : Z) (t : NodeTable) : NodeTable :=
  set_findNodeTimeout (m_findNodeTimeout t ++ [(i, now)]) t.

(** The [for] loop of [doDiscover]: [tried] is the local list of the entries
    queried in this round, [_tried] the set of the earlier rounds. *)
Fixpoint discover_round (target : NodeID) (now : Z) (_tried : gset nat)
    (nearest tried : list nat) (t : NodeTable) : option (list nat * NodeTable) :=
  match nearest with
  | [] => Some (tried, t)
  | r :: rest =>
    if (length tried <? s_alpha)%nat then
      if bool_decide (r ∈ _tried) then discover_round target now _tried rest tried t
      else
        e ← m_heap t !! r;
        let t1 := register (e_id e) now t in
        let t2 := send (OutFindNode (e_endpoint e) target) t1 in
        discover_round target now _tried rest (tried ++ [r]) t2
    else Some (tried, t)
  end.

Definition doDiscover `{Externals} (node : NodeID) (round : nat) (_tried : option (gset nat))
    (now : Z) (t : NodeTable) : option NodeTable :=
  if negb (m_socketOpen t) then Some t
  else if (round =? s_maxSteps)%nat then Some (doDiscovery t)
  else
    _tried0 ← match _tried with
              | Some s => Some s
              | None => if (round =? 0)%nat then Some ∅ else None
              end;
    let nearest := nearestNodeEntries node (set_locals (elements _tried0) t) in
    '(tried, t1) ← discover_round node now _tried0 nearest [] t;
    match tried with
    | [] => Some (doDiscovery t1)
    | _ => Some (schedule (TDiscover node (S round) (_tried0 ∪ list_to_set tried)) t1)
    end.

(** ** Datagrams *)

(** The packet classes of NodeTable.h with the fields the handlers read
    (the table of section 4.2 of the spec). *)
Inductive Body :=
| PingNode (source destination : NodeIPEndpoint)
| Pong (destination : NodeIPEndpoint)
| FindNode (target : NodeID)
| Neighbours (neighbours : list (NodeIPEndpoint * NodeID)).

Record DiscoveryDatagram := mkDatagram {
  sourceid : NodeID;
  echo : bytes;
  ts : Z;
  body : Body
}.

(** Modelled from the spec: [PingNode::type], declared in NodeTable.h
    (section 4.2). *)
Definition PingNode_type : Z := 1.
(** Modelled from the spec: [Pong::type] (section 4.2). *)
Definition Pong_type : Z := 2.
(** Modelled from the spec: [FindNode::type] (section 4.2). *)
Definition FindNode_type : Z := 3.
(** Modelled from the spec: [Neighbours::type] (section 4.2). *)
Definition Neighbours_type : Z := 4.

(** Modelled from the spec: [h256::size], the 32 bytes of the packet hash
    (section 4.2). *)
Definition h256_size : nat := 32.
(** Modelled from the spec: [Signature::size], the 65 bytes of the signature
    (section 4.2). *)
Definition Signature_size : nat := 65.

(** [bytesConstRef::cropped(begin, count)] and [cropped(begin)] *)
Definition cropped (b n : nat) (l : list Z) : list Z := take n (drop b l).
Definition cropped_from (b : nat) (l : list Z) : list Z := drop b l.

(** What a call of [interpretUDP] comes to: the null pointer, an exception
    of the RLP decoder, or a packet. *)
Inductive Interpreted :=
| Null
| Thrown
| Decoded (p : DiscoveryDatagram).

Definition decoded_or_thrown {A} (r : option (A * Z)) (k : A -> Z -> DiscoveryDatagram)
    : Interpreted :=
  match r with Some (a, stamp) => Decoded (k a stamp) | None => Thrown end.

Definition interpretUDP `{Externals} (packet : list Z) : Interpreted :=
  if (length packet <? h256_size + Signature_size + 1 + 3)%nat then Null
  else
    let hashedBytes := cropped h256_size (length packet - h256_size) packet in
    let signedBytes :=
      cropped Signature_size (length hashedBytes - Signature_size) hashedBytes in
    let signatureBytes := cropped h256_size Signature_size packet in
    let bodyBytes := cropped_from (h256_size + Signature_size + 1) packet in
    let echo := sha3_bytes hashedBytes in
    if negb (bool_decide (cropped 0 h256_size packet = echo)) then Null
    else
      let sourceid := recover signatureBytes (sha3_bytes signedBytes) in
      if sourceid =? 0 then Null
      else
        let type := signedBytes !!! 0%nat in
        if type =? PingNode_type then
          decoded_or_thrown (rlp_PingNode bodyBytes)
            (λ '(s, d) stamp, mkDatagram sourceid echo stamp (PingNode s d))
        else if type =? Pong_type then
          decoded_or_thrown (rlp_Pong bodyBytes)
            (λ d stamp, mkDatagram sourceid echo stamp (Pong d))
        else if type =? FindNode_type then
          decoded_or_thrown (rlp_FindNode bodyBytes)
            (λ g stamp, mkDatagram sourceid echo stamp (FindNode g))
        else if type =? Neighbours_type then
          decoded_or_thrown (rlp_Neighbours bodyBytes)
            (λ ns stamp, mkDatagram sourceid echo stamp (Neighbours ns))
        else Null.

(** Modelled from the spec: [isExpired] (declared in NodeTable.h): the
    expiry timestamp is in the past of the wall clock. *)
Definition isExpired (wall : Z) (p : DiscoveryDatagram) : bool := ts p <? wall.

(** ** Packet handlers *)

Definition clear_pending (n : nat) (t : NodeTable) : option NodeTable :=
  e ← m_heap t !! n;
  Some (set_heap (<[n := mkEntry (e_id e) (e_endpoint e) (e_distance e) false
                           (e_peerType e)]> (m_heap t)) t).

(** The probe that a Pong of [src] resolves: present and
    [evictedTimePoint + c_reqTimeout >= now]. *)
Definition live_probe (src : NodeID) (now : Z) (t : NodeTable) : option EvictionTimeout :=
  match m_evictions t !! src with
  | Some e => if now <=? evictedTimePoint e + c_reqTimeout then Some e else None
  | None => None
  end.

Definition learn_endpoint `{Externals} (destination : NodeIPEndpoint) (t : NodeTable)
    : NodeTable :=
  let h := m_hostNode t in
  let a := if (negb (endpointSet (endpoint h)) || negb (isAllowed (endpoint h)))
              && isPublicAddress (address destination)
           then address destination else address (endpoint h) in
  set_hostNode (mkNode (id h) (mkEndpoint a (udpPort destination) (tcpPort (endpoint h)))
                  (peerType h)) t.

Definition on_Pong `{Externals} (src : NodeID) (destination : NodeIPEndpoint) (now : Z)
    (t : NodeTable) : option NodeTable :=
  t3 ← match live_probe src now t with
       | Some evictionEntry =>
         let t1 := set_evictions (delete src (m_evictions t)) t in
         t2 ← match nodeEntry (newNodeID evictionEntry) t1 with
              | Some n => dropNode n t1
              | None => Some t1
              end;
         match nodeEntry src t2 with
         | Some n => clear_pending n t2
         | None => Some t2
         end
       | None =>
         match nodeEntry src t with
         | Some n => clear_pending n t
         | None => Some t
         end
       end;
  Some (learn_endpoint destination t3).

(** The [remove_if] over [m_findNodeTimeout]: the flag [expected] and the
    entries that stay. *)
Fixpoint remove_stale (src : NodeID) (now : Z) (l : list (Z * Z)) : bool * list (Z * Z) :=
  match l with
  | [] => (false, [])
  | q :: l' =>
    let '(expected, kept) := remove_stale src now l' in
    if (q.1 =? src) && (now - q.2 <? c_reqTimeout) then (true, q :: kept)
    else if q.1 =? src then (expected, kept)
    else (expected, q :: kept)
  end.

Fixpoint addNodes `{Externals} (ns : list (NodeIPEndpoint * NodeID)) (now : Z)
    (t : NodeTable) : option NodeTable :=
  match ns with
  | [] => Some t
  | n :: ns' =>
    t1 ← addNode (mkNode n.2 n.1 defaultPeerType) Unknown now t; addNodes ns' now t1
  end.

Definition on_Neighbours `{Externals} (src : NodeID) (ns : list (NodeIPEndpoint * NodeID))
    (now : Z) (t : NodeTable) : option NodeTable :=
  let '(expected, kept) := remove_stale src now (m_findNodeTimeout t) in
  let t1 := set_findNodeTimeout kept t in
  if negb expected then Some t1 else addNodes ns now t1.

(** [(m_socketPointer->maxDatagramSize - 109) / 90] *)
Definition nlimit : nat := Z.to_nat ((maxDatagramSize - 109) / 90).

(** The offsets [0, nlimit, 2 * nlimit, ...] below [nearest.size()], each with
    the entries [Neighbours(_from, nearest, offset, nlimit)] copies. *)
Fixpoint batches {A} (fuel : nat) (l : list A) : list (list A) :=
  match fuel with
  | O => []
  | S fuel' =>
    match l with
    | [] => []
    | _ => take nlimit l :: batches fuel' (drop nlimit l)
    end
  end.

Definition neighbour_of (t : NodeTable) (n : nat) : option (NodeIPEndpoint * NodeID) :=
  e ← m_heap t !! n; Some (e_endpoint e, e_id e).

Definition on_FindNode `{Externals} (from : UdpEndpoint) (target : NodeID) (t : NodeTable)
    : option NodeTable :=
  let nearest := nearestNodeEntries target t in
  Some (foldl (λ t' b, send (OutNeighbours from (omap (neighbour_of t) b)) t') t
          (batches (length nearest) nearest)).

Definition on_PingNode `{Externals} (from : UdpEndpoint) (src : NodeID) (echo : bytes)
    (source : NodeIPEndpoint) (now : Z) (t : NodeTable) : option NodeTable :=
  let source' := mkEndpoint (udp_address from) (udp_port from) (tcpPort source) in
  t1 ← addNode (mkNode src source' defaultPeerType) Unknown now t;
  Some (send (OutPong source' echo) t1).

(** The [switch] of [onPacketReceived]. *)
Definition dispatch `{Externals} (from : UdpEndpoint) (p : DiscoveryDatagram) (now : Z)
    (t : NodeTable) : option NodeTable :=
  match body p with
  | Pong destination => on_Pong (sourceid p) destination now t
  | Neighbours ns => on_Neighbours (sourceid p) ns now t
  | FindNode target => on_FindNode from target t
  | PingNode source _ => on_PingNode from (sourceid p) (echo p) source now t
  end.

(** [now] is the steady clock, [wall] the system clock in seconds. *)
Definition onPacketReceived `{Externals} (from : UdpEndpoint) (packet : list Z)
    (now wall : Z) (t : NodeTable) : option NodeTable :=
  match interpretUDP packet with
  | Null => Some t
  | Thrown => Some t
  | Decoded p =>
    if isExpired wall p then Some t
    else t1 ← dispatch from p now t; noteActiveNode (sourceid p) from now t1
  end.

(** ** The eviction sweep *)

(** [list::unique]: of each run of equal neighbours, the first stays. *)
Fixpoint unique (l : list nat) : list nat :=
  match l with
  | [] => []
  | a :: l' =>
    match l' with
    | b :: _ => if (a =? b)%nat then unique l' else a :: unique l'
    | [] => [a]
    end
  end.

(** The probes older than [c_reqTimeout], in the order of the iteration. *)
Definition expired_probes (now : Z) (t : NodeTable) : list (Z * EvictionTimeout) :=
  filter (λ kv, c_reqTimeout < now - evictedTimePoint kv.2) (map_to_list (m_evictions t)).

(** The first loop of the sweep: the lists [drop] and [active]. *)
Fixpoint collect (probes : list (Z * EvictionTimeout)) (t : NodeTable)
    : list nat * list nat :=
  match probes with
  | [] => ([], [])
  | e :: rest =>
    let '(drop, active) := collect rest t in
    match m_allNodes t !! e.1 with
    | Some n =>
      match m_allNodes t !! newNodeID e.2 with
      | Some m => (n :: drop, m :: active)
      | None => (n :: drop, active)
      end
    | None => (drop, active)
    end
  end.

Fixpoint erase_probes (drop : list nat) (t : NodeTable) : option NodeTable :=
  match drop with
  | [] => Some t
  | n :: rest =>
    e ← m_heap t !! n;
    erase_probes rest (set_evictions (delete (e_id e) (m_evictions t)) t)
  end.

Fixpoint dropNodes (drop : list nat) (t : NodeTable) : option NodeTable :=
  match drop with
  | [] => Some t
  | n :: rest => t1 ← dropNode n t; dropNodes rest t1
  end.

Fixpoint activate `{Externals} (active : list nat) (now : Z) (t : NodeTable)
    : option NodeTable :=
  match active with
  | [] => Some t
  | n :: rest =>
    e ← m_heap t !! n;
    t1 ← noteActiveNode (e_id e) (udp_of (e_endpoint e)) now t;
    activate rest now t1
  end.

(** The callback that [doCheckEvictions] schedules, when it is not aborted. *)
Definition checkEvictions `{Externals} (now : Z) (t : NodeTable) : option NodeTable :=
  let '(drop0, active) := collect (expired_probes now t) t in
  let drop := unique drop0 in
  t1 ← erase_probes drop t;
  let held := m_locals t1 in
  t2 ← dropNodes drop (set_locals (drop ++ active) t1);
  t3 ← activate active now t2;
  let t4 := set_locals held t3 in
  Some (if bool_decide (m_evictions t4 = ∅) then t4 else doCheckEvictions t4).

(** ** Timers and the steps of the table *)

Definition fire `{Externals} (k : Task) (aborted : bool) (rand : NodeID) (now : Z)
    (t : NodeTable) : option NodeTable :=
  if aborted then Some t
  else
    match k with
    | TCheckEvictions => checkEvictions now t
    | TDiscovery => doDiscover rand 0 None now t
    | TDiscover node round tried => doDiscover node round (Some tried) now t
    end.

(** What can happen to a table: a call of [addNode] by the host, a datagram,
    a timer that fires (the [i]-th scheduled one), the socket going up or
    down. *)
Inductive Input :=
| InAddNode (node : Node) (relation : NodeRelation) (now : Z)
| InPacket (from : UdpEndpoint) (packet : list Z) (now wall : Z)
| InTimer (i : nat) (aborted : bool) (rand : NodeID) (now : Z)
| InSocket (open : bool).

Definition step `{Externals} (i : Input) (t : NodeTable) : option NodeTable :=
  match i with
  | InAddNode node relation now => addNode node relation now t
  | InPacket from packet now wall => onPacketReceived from packet now wall t
  | InTimer i aborted rand now =>
    match m_timers t !! i with
    | Some k => fire k aborted rand now (set_timers (delete i (m_timers t)) t)
    | None => Some t
    end
  | InSocket open => Some (set_socketOpen open t)
  end.

Fixpoint run `{Externals} (ins : list Input) (t : NodeTable) : option NodeTable :=
  match ins with
  | [] => Some t
  | i :: ins' => t1 ← step i t; run ins' t1
  end.

(** The states a table constructed for [host] can be in. *)
Definition reachable `{Externals} (host : Node) (t : NodeTable) : Prop :=
  ∃ enabled handler ins, run ins (new_NodeTable host enabled handler) = Some t.

(** ** Queries of the table *)

(** [NodeTable::nodes]: the id of every entry of [m_allNodes], in the
    order of the iteration. *)
Definition nodes (t : NodeTable) : option (list NodeID) :=
  mapM (λ kv, e ← m_heap t !! kv.2; Some (e_id e)) (map_to_list (m_allNodes t)).

(** [NodeTable::snapshot]: a copy of every bucket entry that still locks. *)
Definition snapshot (t : NodeTable) : list NodeEntry :=
  flat_map (λ s, omap (weak_lock t) s) (m_buckets t).

(** Modelled from the spec: [UnspecifiedNode], defined in Common.cpp, the
    answer of [node] for an id that is not known (section 4.3: "unspecified"):
    the zero id with an unset endpoint, constructed without a peer type. *)
Definition UnspecifiedNode `{Externals} : Node :=
  mkNode 0 (mkEndpoint 0 0 0) defaultPeerType.

(** [NodeTable::node] *)
Definition node `{Externals} (i : NodeID) (t : NodeTable) : option Node :=
  match m_allNodes t !! i with
  | Some n => e ← m_heap t !! n; Some (mkNode i (e_endpoint e) (e_peerType e))
  | None => Some UnspecifiedNode
  end.

(** ** Predicates used in the statements *)

(** An entry of [m_findNodeTimeout] is stale for [src] when it was sent to
    [src] at least [c_reqTimeout] ago. *)
Definition stale (src now : Z) (q : Z * Z) : Prop := q.1 = src ∧ c_reqTimeout ≤ now - q.2.

#[global] Instance stale_dec src now q : Decision (stale src now q).
Proof. unfold stale. apply _. Defined.

(** [interpretRLP] throws: the type byte names a packet class and the RLP
    decoder of that class fails on the bytes after it. *)
Definition body_throws `{Externals} (packet : list Z) : Prop :=
  let type := drop 97 packet !!! 0%nat in
  let bodyBytes := drop 98 packet in
  (type = PingNode_type ∧ rlp_PingNode bodyBytes = None)
  ∨ (type = Pong_type ∧ rlp_Pong bodyBytes = None)
  ∨ (type = FindNode_type ∧ rlp_FindNode bodyBytes = None)
  ∨ (type = Neighbours_type ∧ rlp_Neighbours bodyBytes = None).

(** The entries a round of the lookup is to query: the first [s_alpha] of
    [nearest] that are not in the tried set. *)
Definition untried (_tried : gset nat) (nearest : list nat) : list nat :=
  take s_alpha (filter (λ r, r ∉ _tried) nearest).

(** One query of a round: the id is registered with the time, then the
    FindNode is handed to the socket. *)
Definition query (target : NodeID) (now : Z) (t : NodeTable) (e : NodeEntry) : NodeTable :=
  send (OutFindNode (e_endpoint e) target) (register (e_id e) now t).

(** No other id has the hash of [host]. *)
Definition no_collision `{Externals} (host : NodeID) : Prop :=
  ∀ x, h256 (sha3 x) = h256 (sha3 host) → x = host.

(** The well-formedness that the operations keep:
    - an entry carries the distance of its id to the host, and was allocated;
    - [m_allNodes] maps an id to an entry of that id;
    - there are [s_bins] buckets; a bucket holds at most [s_bucketSize]
      references, no reference twice, each to an entry that is not the
      host's, not pending, and of the bucket's distance;
    - no eviction probe names the host. *)
Record table_ok `{Externals} (t : NodeTable) : Prop := mk_table_ok {
  ok_heap : ∀ n e, m_heap t !! n = Some e →
    e_distance e = distance (id (m_hostNode t)) (e_id e) ∧ (n < m_next t)%nat;
  ok_allNodes : ∀ i n, m_allNodes t !! i = Some n →
    ∃ e, m_heap t !! n = Some e ∧ e_id e = i;
  ok_bins : length (m_buckets t) = Z.to_nat s_bins;
  ok_buckets : ∀ i nodes, m_buckets t !! i = Some nodes →
    (length nodes ≤ s_bucketSize)%nat ∧ NoDup nodes
    ∧ ∀ n, n ∈ nodes →
        ∃ e, m_heap t !! n = Some e ∧ e_id e ≠ id (m_hostNode t)
           ∧ pending e = false ∧ e_distance e = Z.of_nat i + 1;
  ok_evictions : ∀ k v, m_evictions t !! k = Some v →
    k ≠ id (m_hostNode t) ∧ newNodeID v ≠ id (m_hostNode t)
}.

(** A probe the sweep acts on: older than [c_reqTimeout], and its incumbent
    still in [m_allNodes]. *)
Definition due (now : Z) (t : NodeTable) (k : NodeID) (ev : EvictionTimeout) : Prop :=
  m_evictions t !! k = Some ev ∧ c_reqTimeout < now - evictedTimePoint ev
  ∧ is_Some (m_allNodes t !! k).

(** What the walks of [nearestNodeEntries] collect: an entry of some bucket
    that locks, paired with the distance of its id to the target. *)
Definition collected `{Externals} (target : NodeID) (t : NodeTable) (kv : Z * nat) : Prop :=
  ∃ p, weak_lock t kv.2 = Some p ∧ kv.1 = distance target (e_id p)
     ∧ ∃ s, s ∈ m_buckets t ∧ kv.2 ∈ s.

(** The distance to the target of the entry at an address. *)
Definition key_of `{Externals} (target : NodeID) (t : NodeTable) (n : nat) : Z :=
  match m_heap t !! n with Some e => distance target (e_id e) | None => 0 end.

(** The timers of the discovery: the random discovery and the rounds of a
    lookup. *)
Definition is_discovery (k : Task) : bool :=
  match k with TCheckEvictions => false | _ => true end.

(** A scheduled round of a lookup has a number from 1 to [s_maxSteps]. *)
Definition round_ok (k : Task) : Prop :=
  match k with TDiscover _ r _ => (1 ≤ r ≤ s_maxSteps)%nat | _ => True end.

(** The discovery is in order: every scheduled round has a number in range,
    and at most one discovery timer is scheduled. *)
Definition lookup_ok (t : NodeTable) : Prop :=
  Forall round_ok (m_timers t)
  ∧ (length (filter (λ k, is_discovery k = true) (m_timers t)) ≤ 1)%nat.

(** From [t] to [t'] only sweeps were scheduled. *)
Definition sweeps_added (t t' : NodeTable) : Prop :=
  ∃ ks, m_timers t' = m_timers t ++ ks ∧ Forall (λ k, k = TCheckEvictions) ks.

(** ** A model of the externals, to run the table on concrete inputs *)

Module Sample.

(** The hash of the host id 1 is 0; no other id has it. *)
Definition hash (x : Z) : Z := if x =? 1 then 0 else 1 + x mod (2 ^ 256 - 1).

Definition checksum (l : list Z) : list Z := replicate 32 (foldr Z.add 0 l mod 256).

#[export] Instance externals : Externals := {|
  sha3 := hash;
  isAllowed := λ e, negb (address e =? 0);
  endpointSet := λ e, negb (address e =? 0) && (0 <? udpPort e) && (0 <? tcpPort e);
  isPublicAddress := λ a, 1000 <? a;
  defaultPeerType := 0;
  sha3_bytes := checksum;
  recover := λ sig _, sig !!! 0%nat;
  rlp_PingNode := λ l,
    match l with
    | a :: b :: c :: _ => Some (mkEndpoint a 30303 30303, mkEndpoint b 30303 30303, c)
    | _ => None
    end;
  rlp_Pong := λ l,
    match l with a :: c :: _ => Some (mkEndpoint a 30303 30303, c) | _ => None end;
  rlp_FindNode := λ l, match l with a :: c :: _ => Some (a, c) | _ => None end;
  rlp_Neighbours := λ l,
    match l with
    | c :: ns => Some (map (λ i, (mkEndpoint (100 + i) 30303 30303, i)) ns, c)
    | _ => None
    end
|}.

(** The same externals with a decoder of Ping that throws on a body which
    does not start with the header of an RLP list (a byte from 0xc0 on). *)
Definition strict : Externals := {|
  sha3 := hash;
  isAllowed := isAllowed;
  endpointSet := endpointSet;
  isPublicAddress := isPublicAddress;
  defaultPeerType := defaultPeerType;
  sha3_bytes := checksum;
  recover := recover;
  rlp_PingNode := λ l,
    match l with
    | h :: _ => if h <? 192 then None else rlp_PingNode l
    | [] => None
    end;
  rlp_Pong := rlp_Pong;
  rlp_FindNode := rlp_FindNode;
  rlp_Neighbours := rlp_Neighbours
|}.

Definition host : Node := mkNode 1 (mkEndpoint 10 30303 30303) 0.

(** The peer with id [i], at address [100 + i]. *)
Definition peer (i : Z) : Node := mkNode i (mkEndpoint (100 + i) 30303 30303) 0.
Definition from_peer (i : Z) : UdpEndpoint := mkUdp (100 + i) 30303.

(** A datagram signed by [i]: hash, signature, type byte, body. *)
Definition datagram (i type : Z) (body : list Z) : list Z :=
  let signed := (i :: replicate 64 0) ++ type :: body in
  checksum signed ++ signed.

(** An enabled table with an event handler. *)
Definition table0 : NodeTable := new_NodeTable host true true.

(** The table after the host added peer 32 as a known node. *)
Definition table1 : NodeTable :=
  default table0 (run [InAddNode (peer 32) Known 0] table0).

(** Sixteen known peers, 31 to 46, all at distance 6 of the host: they fill
    bucket 5, peer 31 at its front. *)
Definition fill : list Input := map (λ i, InAddNode (peer i) Known 0) (seqZ 31 16).

(** The table after a seventeenth peer of the same distance, 47, was added
    at time 0: peer 31 is probed, with 47 as the replacement. *)
Definition table17 : NodeTable :=
  default table0 (run (fill ++ [InAddNode (peer 47) Known 0]) table0).

(** The table after peer 32 was added as an unknown node: its entry is
    pending and a Ping is on its way. *)
Definition table_pending : NodeTable :=
  default table0 (run [InAddNode (peer 32) Unknown 0] table0).

(** The sixteen peers of [fill], then the socket is closed and peer 47 is
    added: bucket 5 is full, peer 47 is registered outside it, and no probe
    was started. *)
Definition table_closed : NodeTable :=
  default table0
    (run (fill ++ [InSocket false; InAddNode (peer 47) Known 0]) table0).


End Sample.

(** * Properties *)

(** ** addNode and the local id *)

Section AddNode.
Context `{Externals}.

(** C1. The claim says that [addNode(n, Unknown)] does nothing when [n.id]
    is the local id.  The Unknown path has no such test: for a node with
    the local id, an endpoint and not yet in [m_allNodes], it stores a
    pending entry under the local id and sends a Ping. *)
Theorem addNode_unknown_self_inserted (n : Node) (now : Z) (t : NodeTable)
    (Hself : id n = id (m_hostNode t))
    (Hep : endpointSet (endpoint n) = true)
    (Hid : id n ≠ 0)
    (Hnew : m_allNodes t !! id n = None) :
  ∃ t', addNode n Unknown now t = Some t'
      ∧ m_allNodes t' !! id (m_hostNode t') = Some (m_next t)
      ∧ m_heap t' !! m_next t = Some (mkEntry (id n) (endpoint n)
                                        (distance (id n) (id n)) true defaultPeerType)
      ∧ m_sent t' = m_sent t ++ [OutPing (endpoint (m_hostNode t)) (endpoint n)].
Proof.
  unfold addNode. rewrite Hep. simpl.
  destruct (id n =? 0) eqn:E; [apply Z.eqb_eq in E; contradiction|].
  rewrite bool_decide_eq_false_2 by (rewrite Hnew; apply is_Some_None).
  eexists; split; [reflexivity|]. simpl. rewrite <- Hself.
  rewrite !lookup_insert_eq. unfold new_NodeEntry. auto.
Qed.

End AddNode.

Section AddNodeSample.
Local Existing Instance Sample.externals.

(** The local node itself, handed to a fresh table. *)
Lemma addNode_unknown_self_inserted_witness :
∃ t', addNode Sample.host Unknown 0 Sample.table0 = Some t'
    ∧ m_allNodes t' !! id (m_hostNode t') = Some (m_next Sample.table0)
    ∧ m_heap t' !! m_next Sample.table0
      = Some (mkEntry 1 (endpoint Sample.host) (distance 1 1) true 0)
    ∧ m_sent t' = m_sent Sample.table0
                  ++ [OutPing (endpoint Sample.host) (endpoint Sample.host)].
Proof.
refine (addNode_unknown_self_inserted Sample.host 0 Sample.table0 _ _ _ _);
  [reflexivity | reflexivity | discriminate | reflexivity].
Defined.

End AddNodeSample.

(** ** Decoding and expiry *)

Section Datagrams.
Context `{Externals}.

Lemma cropped_rest (b : nat) (l : list Z) : cropped b (length l - b) l = drop b l.
Proof. unfold cropped. apply take_ge. rewrite length_drop. lia. Qed.

Lemma decoded_or_thrown_not_null {A} (r : option (A * Z)) k :
  decoded_or_thrown r k ≠ Null.
Proof. destruct r as [[a s]|]; discriminate. Qed.

(** What [interpretUDP] computes, with the byte ranges written from the
    start of the datagram. *)
Lemma interpretUDP_unfold (packet : list Z) :
  interpretUDP packet =
  if (length packet <? 101)%nat then Null
  else if negb (bool_decide (take 32 packet = sha3_bytes (drop 32 packet))) then Null
  else
    let sourceid := recover (take 65 (drop 32 packet)) (sha3_bytes (drop 97 packet)) in
    let echo := sha3_bytes (drop 32 packet) in
    if sourceid =? 0 then Null
    else
      let type := drop 97 packet !!! 0%nat in
      if type =? 1 then
        decoded_or_thrown (rlp_PingNode (drop 98 packet))
          (λ '(s, d) stamp, mkDatagram sourceid echo stamp (PingNode s d))
      else if type =? 2 then
        decoded_or_thrown (rlp_Pong (drop 98 packet))
          (λ d stamp, mkDatagram sourceid echo stamp (Pong d))
      else if type =? 3 then
        decoded_or_thrown (rlp_FindNode (drop 98 packet))
          (λ g stamp, mkDatagram sourceid echo stamp (FindNode g))
      else if type =? 4 then
        decoded_or_thrown (rlp_Neighbours (drop 98 packet))
          (λ ns stamp, mkDatagram sourceid echo stamp (Neighbours ns))
      else Null.
Proof.
  unfold interpretUDP, h256_size, Signature_size, cropped_from.
  rewrite !cropped_rest, drop_drop. reflexivity.
Qed.

(** C8.  The claim as amended: [interpretUDP] returns no packet, that is
    the null pointer or an exception of [interpretRLP], exactly when the
    datagram is shorter than 32+65+1+3 bytes, or its first 32 bytes are not
    the hash of the rest, or the recovered signer is the zero key, or the
    type byte is none of 1, 2, 3, 4, or the RLP decoder of the class named
    by the type byte fails on the body.  The first four are exactly the
    returns of the null pointer.  In every such case [onPacketReceived]
    leaves the table as it is. *)
Theorem interpretUDP_no_packet_iff (packet : list Z) :
  (interpretUDP packet = Null ∨ interpretUDP packet = Thrown ↔
     (length packet < 32 + 65 + 1 + 3)%nat
     ∨ take 32 packet ≠ sha3_bytes (drop 32 packet)
     ∨ recover (take 65 (drop 32 packet)) (sha3_bytes (drop 97 packet)) = 0
     ∨ drop 97 packet !!! 0%nat ∉ [1; 2; 3; 4]
     ∨ body_throws packet)
  ∧ (interpretUDP packet = Null ↔
       (length packet < 32 + 65 + 1 + 3)%nat
       ∨ take 32 packet ≠ sha3_bytes (drop 32 packet)
       ∨ recover (take 65 (drop 32 packet)) (sha3_bytes (drop 97 packet)) = 0
       ∨ drop 97 packet !!! 0%nat ∉ [1; 2; 3; 4])
  ∧ (∀ from now wall t,
       interpretUDP packet = Null ∨ interpretUDP packet = Thrown →
       onPacketReceived from packet now wall t = Some t).
Proof.
  assert (Hnull : interpretUDP packet = Null ↔
            (length packet < 32 + 65 + 1 + 3)%nat
            ∨ take 32 packet ≠ sha3_bytes (drop 32 packet)
            ∨ recover (take 65 (drop 32 packet)) (sha3_bytes (drop 97 packet)) = 0
            ∨ drop 97 packet !!! 0%nat ∉ [1; 2; 3; 4]).
  { rewrite interpretUDP_unfold.
    destruct (length packet <? 101)%nat eqn:Elen.
    { apply Nat.ltb_lt in Elen. split; [left; simpl; lia | reflexivity]. }
    apply Nat.ltb_ge in Elen.
    destruct (bool_decide (take 32 packet = sha3_bytes (drop 32 packet))) eqn:Eh; simpl.
    2:{ apply bool_decide_eq_false in Eh. split; [right; left; exact Eh | reflexivity]. }
    apply bool_decide_eq_true in Eh.
    destruct (recover _ _ =? 0) eqn:Er.
    { apply Z.eqb_eq in Er. split; [right; right; left; exact Er | reflexivity]. }
    apply Z.eqb_neq in Er.
    set (ty := drop 97 packet !!! 0%nat).
    assert (Hlen : ¬ (length packet < 32 + 65 + 1 + 3)%nat) by (simpl; lia).
    assert (Hdec : ∀ k r, In k [1; 2; 3; 4] → ty = k → r ≠ Null →
              r = Null ↔ (length packet < 32 + 65 + 1 + 3)%nat
                ∨ take 32 packet ≠ sha3_bytes (drop 32 packet)
                ∨ recover (take 65 (drop 32 packet)) (sha3_bytes (drop 97 packet)) = 0
                ∨ ty ∉ [1; 2; 3; 4]).
    { intros k r Hk Hty Hr. split; [intros Hn; contradiction|].
      intros [?|[?|[?|Hnot]]]; try contradiction.
      exfalso. apply Hnot. rewrite Hty. apply list_elem_of_In. exact Hk. }
    destruct (ty =? 1) eqn:E1.
    { apply Z.eqb_eq in E1. apply (Hdec 1); [simpl; auto | exact E1 |].
      apply decoded_or_thrown_not_null. }
    destruct (ty =? 2) eqn:E2.
    { apply Z.eqb_eq in E2. apply (Hdec 2); [simpl; auto | exact E2 |].
      apply decoded_or_thrown_not_null. }
    destruct (ty =? 3) eqn:E3.
    { apply Z.eqb_eq in E3. apply (Hdec 3); [simpl; auto | exact E3 |].
      apply decoded_or_thrown_not_null. }
    destruct (ty =? 4) eqn:E4.
    { apply Z.eqb_eq in E4. apply (Hdec 4); [simpl; auto | exact E4 |].
      apply decoded_or_thrown_not_null. }
    split; [intros _|reflexivity]. right; right; right.
    apply Z.eqb_neq in E1, E2, E3, E4.
    rewrite !not_elem_of_cons. repeat split; auto. apply not_elem_of_nil. }
  assert (Hbody : match interpretUDP packet with
                  | Null => True
                  | Thrown => body_throws packet
                  | Decoded _ => ¬ body_throws packet
                  end).
  { rewrite interpretUDP_unfold. unfold body_throws, PingNode_type, Pong_type,
      FindNode_type, Neighbours_type.
    destruct (length packet <? 101)%nat; [exact I|].
    destruct (negb _); [exact I|]. cbn zeta.
    destruct (recover _ _ =? 0); [exact I|].
    set (ty := drop 97 packet !!! 0%nat).
    destruct (ty =? 1) eqn:E1.
    { apply Z.eqb_eq in E1. destruct (rlp_PingNode _) as [[[s d] st]|] eqn:Er; cbn.
      - intros [[_ H1]|[[H1 _]|[[H1 _]|[H1 _]]]]; [discriminate|lia..].
      - left. auto. }
    destruct (ty =? 2) eqn:E2.
    { apply Z.eqb_eq in E2. destruct (rlp_Pong _) as [[d st]|] eqn:Er; cbn.
      - intros [[H1 _]|[[_ H1]|[[H1 _]|[H1 _]]]]; [lia|discriminate|lia..].
      - right. left. auto. }
    destruct (ty =? 3) eqn:E3.
    { apply Z.eqb_eq in E3. destruct (rlp_FindNode _) as [[g st]|] eqn:Er; cbn.
      - intros [[H1 _]|[[H1 _]|[[_ H1]|[H1 _]]]]; [lia|lia|discriminate|lia].
      - right. right. left. auto. }
    destruct (ty =? 4) eqn:E4; [|exact I].
    apply Z.eqb_eq in E4. destruct (rlp_Neighbours _) as [[ns st]|] eqn:Er; cbn.
    - intros [[H1 _]|[[H1 _]|[[H1 _]|[_ H1]]]]; [lia..|discriminate].
    - right. right. right. auto. }
  split; [|split; [exact Hnull|]].
  - split.
    + intros [Hn|Ht].
      * apply Hnull in Hn. tauto.
      * rewrite Ht in Hbody. tauto.
    + intros Hcase. destruct (interpretUDP packet) as [| |p] eqn:Ei; [auto..|].
      exfalso. destruct Hcase as [H1|[H1|[H1|[H1|H1]]]]; [| | | |exact (Hbody H1)].
      all: assert (Hd : Decoded p = Null) by (apply Hnull; tauto); discriminate.
  - intros from now wall t [Hn|Hn]; unfold onPacketReceived; rewrite Hn; reflexivity.
Qed.

(** C9. A decoded packet whose expiry lies in the past leaves the table
    exactly as it was: nothing is sent, [m_allNodes], the buckets and the
    events are untouched, and neither a handler nor [noteActiveNode] runs. *)
Theorem expired_packet_dropped (from : UdpEndpoint) (packet : list Z) (now wall : Z)
    (t : NodeTable) (p : DiscoveryDatagram)
    (Hdec : interpretUDP packet = Decoded p)
    (Hexp : ts p < wall) :
  onPacketReceived from packet now wall t = Some t.
Proof.
  unfold onPacketReceived. rewrite Hdec. unfold isExpired.
  destruct (ts p <? wall) eqn:E; [reflexivity|]. apply Z.ltb_ge in E. lia.
Qed.

End Datagrams.

Section DatagramsSample.
Local Existing Instance Sample.externals.

(** A Ping of peer 32 that expired at second 7, received at second 8. *)
Lemma expired_packet_dropped_witness :
  onPacketReceived (Sample.from_peer 32) (Sample.datagram 32 1 [5; 6; 7]) 0 8 Sample.table0
  = Some Sample.table0.
Proof.
  apply (expired_packet_dropped _ _ 0 8 Sample.table0
           (mkDatagram 32 (Sample.checksum ((32 :: replicate 64 0) ++ [1; 5; 6; 7])) 7
              (PingNode (mkEndpoint 5 30303 30303) (mkEndpoint 6 30303 30303))));
    [vm_compute; reflexivity | simpl; lia].
Defined.

End DatagramsSample.

Section DatagramsStrict.
Local Existing Instance Sample.strict.

(** C8, the claim as stated fails.  A Ping of 101 bytes signed by peer 32,
    with the right hash, whose body [5; 6; 7] does not start an RLP list:
    none of the four conditions holds, [interpretRLP] throws, and no packet
    results. *)
Lemma interpretUDP_throws_on_malformed_body :
  interpretUDP (Sample.datagram 32 1 [5; 6; 7]) = Thrown
  ∧ length (Sample.datagram 32 1 [5; 6; 7]) = 101%nat
  ∧ take 32 (Sample.datagram 32 1 [5; 6; 7])
    = sha3_bytes (drop 32 (Sample.datagram 32 1 [5; 6; 7]))
  ∧ recover (take 65 (drop 32 (Sample.datagram 32 1 [5; 6; 7])))
      (sha3_bytes (drop 97 (Sample.datagram 32 1 [5; 6; 7]))) = 32
  ∧ drop 97 (Sample.datagram 32 1 [5; 6; 7]) !!! 0%nat = 1.
Proof. vm_compute. repeat split. Qed.

End DatagramsStrict.

(** ** Frame properties of the table operations *)

Section Frames.
Context `{Externals}.

Lemma appendEvent_frame i ty t :
  m_allNodes (appendEvent i ty t) = m_allNodes t
  ∧ m_next (appendEvent i ty t) = m_next t
  ∧ m_findNodeTimeout (appendEvent i ty t) = m_findNodeTimeout t
  ∧ m_heap (appendEvent i ty t) = m_heap t
  ∧ m_buckets (appendEvent i ty t) = m_buckets t
  ∧ m_evictions (appendEvent i ty t) = m_evictions t
  ∧ m_hostNode (appendEvent i ty t) = m_hostNode t.
Proof. unfold appendEvent. destruct (m_nodeEventHandler t); simpl; auto 10. Qed.

Lemma evict_frame l n now t :
  m_allNodes (evict l n now t) = m_allNodes t
  ∧ m_next (evict l n now t) = m_next t
  ∧ m_findNodeTimeout (evict l n now t) = m_findNodeTimeout t
  ∧ m_heap (evict l n now t) = m_heap t
  ∧ m_buckets (evict l n now t) = m_buckets t
  ∧ m_hostNode (evict l n now t) = m_hostNode t.
Proof.
  unfold evict. destruct (m_socketOpen t); simpl; auto 10.
  destruct (_ =? 1)%nat; simpl; auto 10.
Qed.

(** [noteActiveNode] allocates nothing and touches neither [m_allNodes] nor
    [m_findNodeTimeout]. *)
Lemma noteActiveNode_frame pubk ep now t t' :
  noteActiveNode pubk ep now t = Some t' →
  m_allNodes t' = m_allNodes t ∧ m_next t' = m_next t
  ∧ m_findNodeTimeout t' = m_findNodeTimeout t ∧ m_hostNode t' = m_hostNode t.
Proof.
  unfold noteActiveNode.
  destruct (_ || _); [intros [= <-]; auto|].
  destruct (nodeEntry pubk t) as [a|]; [|intros [= <-]; auto].
  destruct (m_heap t !! a) as [e|]; simpl; [|discriminate].
  destruct (pending e); [intros [= <-]; auto|].
  destruct (bucket_UNSAFE _) as [i|]; simpl; [|discriminate].
  destruct (m_buckets t !! i) as [nodes|]; simpl; [|discriminate].
  destruct (bool_decide _); [intros [= <-]; auto|].
  destruct (_ <? _)%nat.
  { intros [= <-]. pose proof (appendEvent_frame (e_id e) NodeEntryAdded
      (set_buckets (<[i:=nodes ++ [a]]> (m_buckets t))
         (set_heap (<[a:=mkEntry (e_id e)
            (mkEndpoint (udp_address ep) (udp_port ep) (tcpPort (e_endpoint e)))
            (e_distance e) false (e_peerType e)]> (m_heap t)) t)))
      as (-> & -> & -> & _ & _ & _ & ->).
    auto. }
  destruct nodes as [|front rest]; [discriminate|].
  destruct (weak_lock _ front) as [le|]; intros [= <-].
  - match goal with |- context [evict ?l ?n ?w ?s] =>
      pose proof (evict_frame l n w s) as (-> & -> & -> & _ & _ & ->) end. auto.
  - match goal with |- context [appendEvent ?i ?y ?s] =>
      pose proof (appendEvent_frame i y s) as (-> & -> & -> & _ & _ & _ & ->) end. auto.
Qed.

(** The Unknown path of [addNode] has no undefined behaviour and leaves
    [m_findNodeTimeout] alone. *)
Lemma addNode_unknown_total n now t :
  ∃ t', addNode n Unknown now t = Some t'
      ∧ m_findNodeTimeout t' = m_findNodeTimeout t.
Proof.
  unfold addNode. destruct (_ || _); [eauto|]. destruct (bool_decide _); eauto.
Qed.

Lemma addNodes_total ns now t :
  ∃ t', addNodes ns now t = Some t' ∧ m_findNodeTimeout t' = m_findNodeTimeout t.
Proof.
  revert t. induction ns as [|n ns IH]; intros t; cbn [addNodes]; [eauto|].
  destruct (addNode_unknown_total (mkNode n.2 n.1 defaultPeerType) now t) as (t1 & -> & E1).
  cbn [mbind option_bind].
  destruct (IH t1) as (t2 & -> & E2). exists t2. split; [reflexivity | congruence].
Qed.


Lemma remove_stale_kept src now l :
  (remove_stale src now l).2 = filter (λ q, ¬ stale src now q) l.
Proof.
  induction l as [|q l IH]; [reflexivity|]. simpl.
  destruct (remove_stale src now l) as [ex kept]. simpl in IH.
  destruct (q.1 =? src) eqn:E1; simpl.
  - apply Z.eqb_eq in E1. destruct (now - q.2 <? c_reqTimeout) eqn:E2; simpl.
    + apply Z.ltb_lt in E2. rewrite filter_cons_True by (unfold stale; lia).
      congruence.
    + apply Z.ltb_ge in E2. rewrite filter_cons_False; [exact IH|].
      unfold stale. intros Hn. apply Hn. auto.
  - apply Z.eqb_neq in E1. rewrite filter_cons_True by (unfold stale; tauto).
    simpl. congruence.
Qed.

Lemma remove_stale_expected src now l :
  (remove_stale src now l).1 = true ↔ ∃ q, q ∈ l ∧ q.1 = src ∧ now - q.2 < c_reqTimeout.
Proof.
  induction l as [|q l IH]; simpl.
  - split; [discriminate|]. intros (q & Hq & _). inversion Hq.
  - destruct (remove_stale src now l) as [ex kept]. simpl in IH.
    destruct ((q.1 =? src) && (now - q.2 <? c_reqTimeout)) eqn:E; simpl.
    + apply andb_true_iff in E as [E1 E2]. apply Z.eqb_eq in E1. apply Z.ltb_lt in E2.
      split; [|reflexivity]. intros _. exists q. split; [left|auto].
    + assert (Hq : ¬ (q.1 = src ∧ now - q.2 < c_reqTimeout)).
      { intros [A B]. apply Z.eqb_eq in A. apply Z.ltb_lt in B. rewrite A, B in E.
        discriminate. }
      assert (Hex : ex = true ↔ ∃ q0, q0 ∈ q :: l ∧ q0.1 = src ∧ now - q0.2 < c_reqTimeout).
      { rewrite IH. split.
        - intros (q0 & ? & ?). exists q0. split; [right|]; auto.
        - intros (q0 & Hin & ?). apply elem_of_cons in Hin as [->|Hin]; [tauto|eauto]. }
      destruct (q.1 =? src); exact Hex.
Qed.

End Frames.

(** ** Neighbours packets *)

Section NeighboursPackets.
Context `{Externals}.

(** C2, as the code has it.  On a Neighbours packet from [src] the entries
    of [m_findNodeTimeout] sent to [src] at least [c_reqTimeout] ago are
    removed; every other entry stays, in its order: those of other nodes,
    and those of [src] younger than [c_reqTimeout] (they let the further
    datagrams of the same answer in). *)
Theorem neighbours_removes_stale_only (src : NodeID)
    (ns : list (NodeIPEndpoint * NodeID)) (now : Z) (t : NodeTable) :
  ∃ t', on_Neighbours src ns now t = Some t'
      ∧ m_findNodeTimeout t' = filter (λ q, ¬ stale src now q) (m_findNodeTimeout t).
Proof.
  unfold on_Neighbours.
  pose proof (remove_stale_kept src now (m_findNodeTimeout t)) as Hk.
  destruct (remove_stale src now (m_findNodeTimeout t)) as [expected kept].
  simpl in Hk. subst kept. destruct expected; simpl.
  - destruct (addNodes_total ns now
      (set_findNodeTimeout (filter (λ q, ¬ stale src now q) (m_findNodeTimeout t)) t))
      as (t' & Ht' & E). exists t'. split; [exact Ht' | exact E].
  - eexists; split; reflexivity.
Qed.


End NeighboursPackets.

Section NeighboursSample.
Local Existing Instance Sample.externals.

(** C2, the claim as stated fails.  Peer 32 is asked at time 7200 and its
    Neighbours packet comes in at 7300: the entry [(32, 7200)] is still in
    [m_findNodeTimeout] afterwards. *)
Lemma neighbours_keeps_fresh_entry :
  ∃ t', run [InAddNode (Sample.peer 32) Known 0;
             InTimer 0 false 33 7200;
             InPacket (Sample.from_peer 32) (Sample.datagram 32 4 [1000; 40; 41]) 7300 0]
            Sample.table0 = Some t'
      ∧ (32, 7200) ∈ m_findNodeTimeout t'.
Proof. eexists. split; [vm_compute; reflexivity|]. apply list_elem_of_here. Qed.


End NeighboursSample.

(** ** The iterative lookup *)

Section Lookup.
Context `{Externals}.

Lemma omap_cons_Some {A B} (f : A → option B) x y l :
  f x = Some y → omap f (x :: l) = y :: omap f l.
Proof. intros Hf. simpl. rewrite Hf. reflexivity. Qed.

Lemma nearest_in_heap target t r :
  r ∈ nearestNodeEntries target t → is_Some (m_heap t !! r).
Proof.
  unfold nearestNodeEntries. intros Hr. apply elem_of_take in Hr as (i & Hr & _).
  apply list_elem_of_lookup_2 in Hr. apply list_elem_of_filter in Hr as [Hs _].
  unfold sendable in Hs. destruct (m_heap t !! r); [eauto | discriminate].
Qed.

Lemma foldl_query_heap target now es t :
  m_heap (foldl (query target now) t es) = m_heap t.
Proof. revert t. induction es as [|e es IH]; intros t; simpl; [|rewrite IH]; reflexivity. Qed.

Lemma foldl_query_sent target now es t :
  m_sent (foldl (query target now) t es)
  = m_sent t ++ map (λ e, OutFindNode (e_endpoint e) target) es.
Proof.
  revert t. induction es as [|e es IH]; intros t; simpl; [by rewrite app_nil_r|].
  rewrite IH. simpl. by rewrite <- app_assoc.
Qed.

Lemma foldl_query_findNodeTimeout target now es t :
  m_findNodeTimeout (foldl (query target now) t es)
  = m_findNodeTimeout t ++ map (λ e, (e_id e, now)) es.
Proof.
  revert t. induction es as [|e es IH]; intros t; simpl; [by rewrite app_nil_r|].
  rewrite IH. simpl. by rewrite <- app_assoc.
Qed.

(** The loop of [doDiscover] queries the first untried entries of
    [nearest], as many as the round still may. *)
Lemma discover_round_spec target now _tried nearest : ∀ acc t,
  (∀ r, r ∈ nearest → is_Some (m_heap t !! r)) →
  let sel := take (s_alpha - length acc) (filter (λ r, r ∉ _tried) nearest) in
  discover_round target now _tried nearest acc t
  = Some (acc ++ sel, foldl (query target now) t (omap (λ r, m_heap t !! r) sel)).
Proof.
  induction nearest as [|r rest IH]; intros acc t Hheap; cbn zeta.
  - simpl. rewrite filter_nil, take_nil. simpl. by rewrite app_nil_r.
  - cbn [discover_round]. destruct (length acc <? s_alpha)%nat eqn:El.
    2:{ apply Nat.ltb_ge in El. replace (s_alpha - length acc)%nat with 0%nat by lia.
        simpl. by rewrite app_nil_r. }
    apply Nat.ltb_lt in El.
    assert (Hrest : ∀ r', r' ∈ rest → is_Some (m_heap t !! r'))
      by (intros r' Hr'; apply Hheap; right; exact Hr').
    destruct (bool_decide (r ∈ _tried)) eqn:Er.
    + apply bool_decide_eq_true in Er. rewrite filter_cons_False by tauto.
      apply IH, Hrest.
    + apply bool_decide_eq_false in Er. rewrite filter_cons_True by exact Er.
      destruct (Hheap r) as [e He]; [left|]. rewrite He. cbn [mbind option_bind].
      rewrite IH by exact Hrest. cbn zeta.
      replace (s_alpha - length acc)%nat with (S (s_alpha - length (acc ++ [r])))
        by (rewrite length_app; simpl; lia).
      cbn [take]. rewrite (omap_cons_Some _ r e) by exact He.
      cbn [foldl]. rewrite <- app_assoc. reflexivity.
Qed.

(** The fuel of the three walks is what the loops need: with more fuel the
    result is the same, so each walk ends because its loop test fails. *)
Lemma spread_fuel target t : ∀ fuel head tail found,
  s_bins - head ≤ Z.of_nat fuel →
  spread (S fuel) target head tail found t = spread fuel target head tail found t.
Proof.
  induction fuel as [|fuel IH]; intros head tail found Hf.
  - cbn [spread]. destruct (head <? s_bins) eqn:E; [apply Z.ltb_lt in E; lia|].
    by rewrite andb_false_r.
  - change (spread (S (S fuel)) target head tail found t) with
      (if negb (head =? tail) && (head <? s_bins)
       then spread (S fuel) target (head + 1) (if tail =? 0 then tail else tail - 1)
              (if tail =? 0 then found ++ scan target head t
               else (found ++ scan target head t) ++ scan target tail t) t
       else found).
    change (spread (S fuel) target head tail found t) with
      (if negb (head =? tail) && (head <? s_bins)
       then spread fuel target (head + 1) (if tail =? 0 then tail else tail - 1)
              (if tail =? 0 then found ++ scan target head t
               else (found ++ scan target head t) ++ scan target tail t) t
       else found).
    destruct (negb (head =? tail) && (head <? s_bins)); [|reflexivity].
    apply IH. lia.
Qed.

Lemma forward_fuel target t : ∀ fuel head found,
  s_bins - head ≤ Z.of_nat fuel →
  forward (S fuel) target head found t = forward fuel target head found t.
Proof.
  induction fuel as [|fuel IH]; intros head found Hf.
  - cbn [forward]. destruct (head <? s_bins) eqn:E; [apply Z.ltb_lt in E; lia | reflexivity].
  - change (forward (S (S fuel)) target head found t) with
      (if head <? s_bins
       then forward (S fuel) target (head + 1) (found ++ scan target head t) t else found).
    change (forward (S fuel) target head found t) with
      (if head <? s_bins
       then forward fuel target (head + 1) (found ++ scan target head t) t else found).
    destruct (head <? s_bins); [|reflexivity]. apply IH. lia.
Qed.

Lemma reverse_walk_fuel target t : ∀ fuel tail found,
  tail ≤ Z.of_nat fuel →
  reverse_walk (S fuel) target tail found t = reverse_walk fuel target tail found t.
Proof.
  induction fuel as [|fuel IH]; intros tail found Hf.
  - cbn [reverse_walk]. destruct (0 <? tail) eqn:E; [apply Z.ltb_lt in E; lia | reflexivity].
  - change (reverse_walk (S (S fuel)) target tail found t) with
      (if 0 <? tail
       then reverse_walk (S fuel) target (tail - 1) (found ++ scan target tail t) t
       else found).
    change (reverse_walk (S fuel) target tail found t) with
      (if 0 <? tail
       then reverse_walk fuel target (tail - 1) (found ++ scan target tail t) t
       else found).
    destruct (0 <? tail); [|reflexivity]. apply IH. lia.
Qed.

Lemma omap_heap_Forall2 (t : NodeTable) (l : list nat) :
  (∀ r, r ∈ l → is_Some (m_heap t !! r)) →
  Forall2 (λ r e, m_heap t !! r = Some e) l (omap (λ r, m_heap t !! r) l).
Proof.
  induction l as [|r l IH]; intros Hl; [constructor|].
  destruct (Hl r) as [e He]; [left|]. rewrite (omap_cons_Some _ r e) by exact He.
  constructor; [exact He|]. apply IH. intros r' Hr'. apply Hl. right. exact Hr'.
Qed.

(** C7, as the code has it: the claim for a table whose socket is open.
    With [nearest] the result of [nearestNodeEntries] and [queried] its
    first [s_alpha] entries outside the tried set:
    - at round [s_maxSteps], and at an earlier round without an untried
      candidate, nothing is sent and the next random discovery is scheduled;
    - otherwise each queried entry is registered in [m_findNodeTimeout]
      with the time and then sent a FindNode, in the order of [nearest]; at
      most [s_alpha] are queried, each from [nearest] and not tried before;
      the next round is scheduled with the tried set grown by exactly the
      queried entries. *)
Theorem doDiscover_round (target : NodeID) (round : nat) (tried : gset nat) (now : Z)
    (t : NodeTable) (Hopen : m_socketOpen t = true) :
  let nearest := nearestNodeEntries target (set_locals (elements tried) t) in
  let queried := untried tried nearest in
  let entries := omap (λ r, m_heap t !! r) queried in
  let t1 := foldl (query target now) t entries in
  (round = s_maxSteps ∨ queried = [] →
     doDiscover target round (Some tried) now t = Some (doDiscovery t)
     ∧ m_sent (doDiscovery t) = m_sent t
     ∧ m_timers (doDiscovery t) = m_timers t ++ [TDiscovery])
  ∧ (round ≠ s_maxSteps → queried ≠ [] →
     doDiscover target round (Some tried) now t
     = Some (schedule (TDiscover target (S round) (tried ∪ list_to_set queried)) t1)
     ∧ (length queried ≤ s_alpha)%nat
     ∧ (∀ r, r ∈ queried → r ∈ nearest ∧ r ∉ tried)
     ∧ Forall2 (λ r e, m_heap t !! r = Some e) queried entries
     ∧ m_findNodeTimeout t1 = m_findNodeTimeout t ++ map (λ e, (e_id e, now)) entries
     ∧ m_sent t1 = m_sent t ++ map (λ e, OutFindNode (e_endpoint e) target) entries
     ∧ (∀ t0 e, query target now t0 e
                = send (OutFindNode (e_endpoint e) target) (register (e_id e) now t0))).
Proof.
  intros nearest queried entries t1.
  assert (Hheap : ∀ r, r ∈ nearest → is_Some (m_heap t !! r)).
  { intros r Hr. apply nearest_in_heap in Hr. exact Hr. }
  pose proof (discover_round_spec target now tried nearest [] t Hheap) as Hloop.
  cbn zeta in Hloop. cbn [length app] in Hloop. rewrite Nat.sub_0_r in Hloop.
  fold (untried tried nearest) in Hloop. fold queried entries t1 in Hloop.
  assert (Hstep : round ≠ s_maxSteps →
    doDiscover target round (Some tried) now t
    = match queried with
      | [] => Some (doDiscovery t1)
      | _ => Some (schedule (TDiscover target (S round) (tried ∪ list_to_set queried)) t1)
      end).
  { intros Hr. unfold doDiscover. rewrite Hopen. cbn [negb].
    destruct (round =? s_maxSteps)%nat eqn:E; [apply Nat.eqb_eq in E; contradiction|].
    cbn [mbind option_bind]. fold nearest. rewrite Hloop. reflexivity. }
  split.
  - intros Hcase. split; [|split; reflexivity].
    destruct (decide (round = s_maxSteps)) as [->|Hr].
    + unfold doDiscover. rewrite Hopen. reflexivity.
    + destruct Hcase as [?|Hq]; [contradiction|]. rewrite Hstep by exact Hr.
      subst t1 entries. rewrite Hq. reflexivity.
  - intros Hr Hq. split.
    { rewrite Hstep by exact Hr. destruct queried; [contradiction | reflexivity]. }
    split; [unfold queried, untried; rewrite length_take; lia|].
    split.
    { intros r Hin. unfold queried, untried in Hin.
      apply elem_of_take in Hin as (i & Hin & _). apply list_elem_of_lookup_2 in Hin.
      apply list_elem_of_filter in Hin. tauto. }
    split.
    { apply omap_heap_Forall2. intros r Hin. apply Hheap.
      unfold queried, untried in Hin.
      apply elem_of_take in Hin as (i & Hin & _). apply list_elem_of_lookup_2 in Hin.
      apply list_elem_of_filter in Hin. tauto. }
    split; [apply foldl_query_findNodeTimeout|].
    split; [apply foldl_query_sent | reflexivity].
Qed.

End Lookup.

Section LookupSample.
Local Existing Instance Sample.externals.

(** C7, the claim as stated fails when the socket is not open.  The socket
    goes down and the discovery timer fires on a table without any entry:
    there is no untried candidate, and no discovery is scheduled; the same
    at round [s_maxSteps]. *)
Lemma doDiscover_closed_socket_schedules_nothing :
  ∃ t, run [InSocket false; InTimer 0 false 33 7200] Sample.table0 = Some t
     ∧ m_timers t = []
     ∧ untried ∅ (nearestNodeEntries 33 (set_locals (elements (∅ : gset nat)) t)) = []
     ∧ doDiscover 33 0 (Some ∅) 7200 t = Some t
     ∧ doDiscover 33 s_maxSteps (Some ∅) 7200 t = Some t.
Proof. eexists. split; [vm_compute; reflexivity|]. repeat split. Qed.

(** The first round of a lookup of 33 on a table that knows peer 32. *)
Lemma doDiscover_round_witness :
  m_socketOpen Sample.table1 = true
  ∧ m_sent <$> doDiscover 33 0 (Some ∅) 7200 Sample.table1
    = Some [OutFindNode (endpoint (Sample.peer 32)) 33].
Proof.
  split; [reflexivity|].
  destruct (doDiscover_round 33 0 ∅ 7200 Sample.table1 eq_refl) as [_ Hq].
  cbn zeta in Hq. destruct Hq as (Hd & _); [discriminate | vm_compute; discriminate |].
  rewrite Hd. vm_compute. reflexivity.
Defined.

End LookupSample.

(** ** Distances *)

Section Distance.
Context `{Externals}.

Lemma h256_range x : 0 ≤ h256 x < 2 ^ 256.
Proof. unfold h256. apply Z.mod_pos_bound. lia. Qed.

Lemma distance_range a b : 0 ≤ distance a b ≤ 256.
Proof.
  unfold distance. cbn zeta.
  pose proof (h256_range (sha3 a)) as Ha. pose proof (h256_range (sha3 b)) as Hb.
  set (x := h256 (sha3 a)) in *. set (y := h256 (sha3 b)) in *.
  destruct (Z.lxor x y =? 0) eqn:E; [lia|]. apply Z.eqb_neq in E.
  assert (Hn : 0 ≤ Z.lxor x y) by (apply Z.lxor_nonneg; lia).
  pose proof (Z.log2_nonneg (Z.lxor x y)).
  assert (Hl : Z.log2 (Z.lxor x y) ≤ Z.max (Z.log2 x) (Z.log2 y))
    by (apply Z.log2_lxor; lia).
  assert (Hx : Z.log2 x < 256).
  { destruct (Z.eq_dec x 0) as [->|]; [simpl; lia|]. apply Z.log2_lt_pow2; lia. }
  assert (Hy : Z.log2 y < 256).
  { destruct (Z.eq_dec y 0) as [->|]; [simpl; lia|]. apply Z.log2_lt_pow2; lia. }
  lia.
Qed.

Lemma distance_positive host x : no_collision host → x ≠ host → 1 ≤ distance host x ≤ 256.
Proof.
  intros Hc Hx. pose proof (distance_range host x) as Hr.
  split; [|lia]. unfold distance in *. cbn zeta in *.
  destruct (Z.lxor _ _ =? 0) eqn:E.
  - apply Z.eqb_eq, Z.lxor_eq in E. symmetry in E. apply Hc in E. contradiction.
  - pose proof (Z.log2_nonneg (Z.lxor (h256 (sha3 host)) (h256 (sha3 x)))). lia.
Qed.

Lemma distance_self x : distance x x = 0.
Proof. unfold distance. cbn zeta. rewrite Z.lxor_nilpotent. reflexivity. Qed.

Lemma bucket_UNSAFE_Some e :
  1 ≤ e_distance e ≤ 256 → bucket_UNSAFE e = Some (Z.to_nat (e_distance e - 1)).
Proof.
  intros Hd. unfold bucket_UNSAFE, s_bins. cbn zeta.
  destruct (0 <=? e_distance e - 1) eqn:E1; [|apply Z.leb_gt in E1; lia].
  destruct (e_distance e - 1 <? 256) eqn:E2; [|apply Z.ltb_ge in E2; lia].
  reflexivity.
Qed.

Lemma bucket_UNSAFE_inv e i :
  bucket_UNSAFE e = Some i → e_distance e = Z.of_nat i + 1 ∧ (i < Z.to_nat s_bins)%nat.
Proof.
  unfold bucket_UNSAFE, s_bins. cbn zeta.
  destruct (0 <=? e_distance e - 1) eqn:E1; [|discriminate].
  destruct (e_distance e - 1 <? 256) eqn:E2; [|discriminate].
  apply Z.leb_le in E1. apply Z.ltb_lt in E2. intros [= <-]. lia.
Qed.

End Distance.

(** ** The well-formedness is kept *)

Section WellFormed.
Context `{Externals}.

Lemma table_ok_frame t t' :
  id (m_hostNode t') = id (m_hostNode t) → m_heap t' = m_heap t →
  m_next t' = m_next t → m_allNodes t' = m_allNodes t →
  m_buckets t' = m_buckets t → m_evictions t' = m_evictions t →
  table_ok t → table_ok t'.
Proof.
  intros Eh Ehp En Ea Eb Ee [H1 H2 H3 H4 H5].
  constructor; rewrite ?Eh, ?Ehp, ?En, ?Ea, ?Eb, ?Ee; assumption.
Qed.

Lemma table_ok_appendEvent i ty t : table_ok t → table_ok (appendEvent i ty t).
Proof.
  pose proof (appendEvent_frame i ty t) as (? & ? & ? & ? & ? & ? & E).
  apply table_ok_frame; try assumption. by rewrite E.
Qed.

(** An entry changed in place keeps its id and its distance, and does not
    become pending again. *)
Lemma table_ok_update t a e e' :
  table_ok t → m_heap t !! a = Some e →
  e_id e' = e_id e → e_distance e' = e_distance e →
  (pending e = false → pending e' = false) →
  table_ok (set_heap (<[a := e']> (m_heap t)) t).
Proof.
  intros [H1 H2 H3 H4 H5] Ha Ei Ed Ep. constructor; simpl; try assumption.
  - intros n x Hx. destruct (decide (n = a)) as [->|Hn].
    + rewrite lookup_insert_eq in Hx. injection Hx as <-. rewrite Ei, Ed. eauto.
    + rewrite lookup_insert_ne in Hx by auto. eauto.
  - intros i n Hn. destruct (H2 i n Hn) as (x & Hx & Hi).
    destruct (decide (n = a)) as [->|Hna].
    + exists e'. rewrite lookup_insert_eq. split; [reflexivity|]. congruence.
    + exists x. rewrite lookup_insert_ne by auto. auto.
  - intros i nodes Hb. destruct (H4 i nodes Hb) as (Hl & Hnd & Hall).
    split; [exact Hl|]. split; [exact Hnd|]. intros n Hn.
    destruct (Hall n Hn) as (x & Hx & Hh & Hp & Hd).
    destruct (decide (n = a)) as [->|Hna].
    + exists e'. rewrite lookup_insert_eq. assert (x = e) by congruence. subst x.
      rewrite Ei, Ed. auto.
    + exists x. rewrite lookup_insert_ne by auto. auto.
Qed.

(** A new entry, stored in [m_allNodes] under its id. *)
Lemma table_ok_alloc t e :
  table_ok t → e_distance e = distance (id (m_hostNode t)) (e_id e) →
  table_ok (set_allNodes (<[e_id e := m_next t]> (m_allNodes t)) (alloc e t).2).
Proof.
  intros [H1 H2 H3 H4 H5] Ed. constructor; simpl; try assumption.
  - intros n x Hx. destruct (decide (n = m_next t)) as [->|Hn].
    + rewrite lookup_insert_eq in Hx. injection Hx as <-. split; [exact Ed | lia].
    + rewrite lookup_insert_ne in Hx by auto. destruct (H1 n x Hx). split; [auto | lia].
  - intros i n Hn. destruct (decide (i = e_id e)) as [->|Hi].
    + rewrite lookup_insert_eq in Hn. injection Hn as <-. exists e.
      rewrite lookup_insert_eq. auto.
    + rewrite lookup_insert_ne in Hn by auto. destruct (H2 i n Hn) as (x & Hx & Hxi).
      exists x. destruct (H1 n x Hx) as [_ Hlt].
      rewrite lookup_insert_ne by lia. auto.
  - intros i nodes Hb. destruct (H4 i nodes Hb) as (Hl & Hnd & Hall).
    split; [exact Hl|]. split; [exact Hnd|]. intros n Hn.
    destruct (Hall n Hn) as (x & Hx & Hrest). exists x.
    destruct (H1 n x Hx) as [_ Hlt]. rewrite lookup_insert_ne by lia. auto.
Qed.

(** A bucket replaced by a list that meets the bucket conditions. *)
Lemma table_ok_set_bucket t i nodes :
  table_ok t →
  (length nodes ≤ s_bucketSize)%nat → NoDup nodes →
  (∀ n, n ∈ nodes → ∃ e, m_heap t !! n = Some e ∧ e_id e ≠ id (m_hostNode t)
                       ∧ pending e = false ∧ e_distance e = Z.of_nat i + 1) →
  table_ok (set_buckets (<[i := nodes]> (m_buckets t)) t).
Proof.
  intros [H1 H2 H3 H4 H5] Hl Hnd Hall. constructor; simpl; try assumption.
  - rewrite length_insert. exact H3.
  - intros j nodes' Hb. apply list_lookup_insert_Some in Hb as [(-> & <- & _)|[_ Hb]].
    + auto.
    + apply H4, Hb.
Qed.

Lemma table_ok_erase t i :
  table_ok t → table_ok (set_allNodes (delete i (m_allNodes t)) t).
Proof.
  intros [H1 H2 H3 H4 H5]. constructor; simpl; try assumption.
  intros j n Hn. apply lookup_delete_Some in Hn as [_ Hn]. eauto.
Qed.

Lemma table_ok_set_evictions t ev :
  table_ok t →
  (∀ k v, ev !! k = Some v → k ≠ id (m_hostNode t) ∧ newNodeID v ≠ id (m_hostNode t)) →
  table_ok (set_evictions ev t).
Proof. intros [H1 H2 H3 H4 H5] Hev. constructor; simpl; assumption. Qed.

Lemma table_ok_evict t l n now :
  table_ok t → e_id l ≠ id (m_hostNode t) → e_id n ≠ id (m_hostNode t) →
  table_ok (evict l n now t).
Proof.
  intros Hok Hl Hn.
  assert (Hev : table_ok (set_evictions
            (emplace (e_id l) (mkEvict (e_id n) now) (m_evictions t)) t)).
  { apply table_ok_set_evictions; [exact Hok|]. intros k v. unfold emplace.
    destruct (m_evictions t !! e_id l) eqn:E; [apply (ok_evictions t Hok)|].
    intros Hk. apply lookup_insert_Some in Hk as [[<- <-]|[_ Hk]]; [auto|].
    apply (ok_evictions t Hok _ _ Hk). }
  unfold evict. destruct (m_socketOpen t); simpl; [|exact Hok].
  destruct (_ =? 1)%nat; revert Hev; apply table_ok_frame; reflexivity.
Qed.

End WellFormed.

Section WellFormedOps.
Context `{Externals}.

Lemma remove_first_perm a l : a ∈ l → remove_first a l ++ [a] ≡ₚ l.
Proof.
  induction l as [|b l IH]; intros Ha; [inversion Ha|]. simpl.
  destruct (a =? b)%nat eqn:E.
  - apply Nat.eqb_eq in E. subst b. symmetry. apply Permutation_cons_append.
  - apply Nat.eqb_neq in E. apply elem_of_cons in Ha as [?|Ha]; [contradiction|].
    simpl. constructor. apply IH, Ha.
Qed.

(** [noteActiveNode] is defined on a well-formed table and keeps it
    well-formed. *)
Lemma noteActiveNode_ok pubk ep now t :
  table_ok t → no_collision (id (m_hostNode t)) →
  ∃ t', noteActiveNode pubk ep now t = Some t' ∧ table_ok t'.
Proof.
  intros Hok Hc. unfold noteActiveNode.
  destruct (pubk =? id (m_hostNode t)) eqn:Eh; [eauto|]. apply Z.eqb_neq in Eh.
  cbn [orb]. destruct (negb _); [eauto|].
  unfold nodeEntry. destruct (m_allNodes t !! pubk) as [a|] eqn:Ea; [|eauto].
  destruct (ok_allNodes t Hok _ _ Ea) as (e & He & Hid). rewrite He.
  cbn [mbind option_bind]. destruct (pending e) eqn:Ep; [eauto|].
  set (e' := mkEntry (e_id e) _ (e_distance e) false (e_peerType e)).
  set (t1 := set_heap (<[a := e']> (m_heap t)) t).
  assert (Hok1 : table_ok t1) by (apply (table_ok_update t a e e'); auto).
  assert (He' : m_heap t1 !! a = Some e') by (apply lookup_insert_eq).
  assert (Hd : 1 ≤ e_distance e' ≤ 256).
  { simpl. destruct (ok_heap t Hok _ _ He) as [-> _].
    apply distance_positive; [exact Hc | congruence]. }
  rewrite (bucket_UNSAFE_Some e' Hd). cbn [mbind option_bind].
  set (i := Z.to_nat (e_distance e' - 1)).
  assert (Hi : (i < length (m_buckets t1))%nat).
  { rewrite (ok_bins t1 Hok1). unfold i, s_bins. lia. }
  destruct (lookup_lt_is_Some_2 _ _ Hi) as [nodes Hnodes]. rewrite Hnodes.
  cbn [mbind option_bind].
  destruct (ok_buckets t1 Hok1 _ _ Hnodes) as (Hlen & Hnd & Hall).
  assert (Hae : ∃ x, m_heap t1 !! a = Some x ∧ e_id x ≠ id (m_hostNode t1)
                   ∧ pending x = false ∧ e_distance x = Z.of_nat i + 1).
  { exists e'. split; [exact He'|]. simpl. repeat split; [congruence|].
    unfold i. simpl in Hd. simpl. lia. }
  destruct (bool_decide (a ∈ nodes)) eqn:Ein.
  - apply bool_decide_eq_true in Ein. pose proof (remove_first_perm a nodes Ein) as Hp.
    eexists; split; [reflexivity|]. apply table_ok_set_bucket; [exact Hok1| | |].
    + rewrite Hp. exact Hlen.
    + rewrite Hp. exact Hnd.
    + intros n Hn. rewrite Hp in Hn. auto.
  - apply bool_decide_eq_false in Ein.
    destruct (length nodes <? s_bucketSize)%nat eqn:El.
    + apply Nat.ltb_lt in El. eexists; split; [reflexivity|].
      apply table_ok_appendEvent, table_ok_set_bucket; [exact Hok1| | |].
      * rewrite length_app. simpl. lia.
      * apply NoDup_app. split; [exact Hnd|]. split; [|apply NoDup_singleton].
        intros x Hx Hx'. apply list_elem_of_singleton in Hx'. congruence.
      * intros n Hn. apply elem_of_app in Hn as [Hn|Hn]; [auto|].
        apply list_elem_of_singleton in Hn. subst n. exact Hae.
    + destruct nodes as [|front rest]; [simpl in El; discriminate|].
      destruct (weak_lock t1 front) as [le|] eqn:Elock.
      * eexists; split; [reflexivity|]. apply table_ok_evict; [exact Hok1| |].
        -- unfold weak_lock in Elock. destruct (owned t1 front); [|discriminate].
           destruct (Hall front) as (x & Hx & Hxh & _); [left|].
           assert (x = le) by congruence. subst x. exact Hxh.
        -- simpl. congruence.
      * eexists; split; [reflexivity|].
        apply NoDup_cons in Hnd as [Hfr Hnd].
        apply table_ok_appendEvent, table_ok_set_bucket; [exact Hok1| | |].
        -- rewrite length_app. simpl in *. lia.
        -- apply NoDup_app. split; [exact Hnd|]. split; [|apply NoDup_singleton].
           intros x Hx Hx'. apply list_elem_of_singleton in Hx'. subst x.
           apply Ein. right. exact Hx.
        -- intros n Hn. apply elem_of_app in Hn as [Hn|Hn].
           ++ apply Hall. right. exact Hn.
           ++ apply list_elem_of_singleton in Hn. subst n. exact Hae.
Qed.

(** [dropNode] on an entry that is not the host's: what it does to each
    member, and that it keeps the table well-formed. *)
Lemma dropNode_ok n e t :
  table_ok t → no_collision (id (m_hostNode t)) →
  m_heap t !! n = Some e → e_id e ≠ id (m_hostNode t) →
  ∃ t', dropNode n t = Some t' ∧ table_ok t'
      ∧ m_allNodes t' = delete (e_id e) (m_allNodes t)
      ∧ m_heap t' = m_heap t ∧ m_next t' = m_next t
      ∧ m_evictions t' = m_evictions t ∧ m_hostNode t' = m_hostNode t
      ∧ m_locals t' = m_locals t ∧ m_timers t' = m_timers t
      ∧ m_events t' = (if m_nodeEventHandler t
                       then m_events t ++ [(e_id e, NodeEntryDropped)] else m_events t)
      ∧ (∀ nodes, nodes ∈ m_buckets t' → n ∉ nodes).
Proof.
  intros Hok Hc He Hid. unfold dropNode. rewrite He. cbn [mbind option_bind].
  assert (Hd : 1 ≤ e_distance e ≤ 256).
  { destruct (ok_heap t Hok _ _ He) as [-> _]. apply distance_positive; auto. }
  rewrite (bucket_UNSAFE_Some e Hd). cbn [mbind option_bind].
  set (i := Z.to_nat (e_distance e - 1)).
  assert (Hi : (i < length (m_buckets t))%nat).
  { rewrite (ok_bins t Hok). unfold i, s_bins. lia. }
  destruct (lookup_lt_is_Some_2 _ _ Hi) as [nodes Hnodes]. rewrite Hnodes.
  cbn [mbind option_bind].
  destruct (ok_buckets t Hok _ _ Hnodes) as (Hlen & Hnd & Hall).
  set (t1 := set_buckets (<[i := filter (λ b, b ≠ n) nodes]> (m_buckets t)) t).
  assert (Hok1 : table_ok t1).
  { apply table_ok_set_bucket; [exact Hok| | |].
    - pose proof (length_filter (λ b, b ≠ n) nodes). lia.
    - apply NoDup_filter, Hnd.
    - intros x Hx. apply list_elem_of_filter in Hx as [_ Hx]. auto. }
  eexists. split; [reflexivity|].
  split; [apply table_ok_appendEvent, (table_ok_erase t1), Hok1|].
  unfold appendEvent. cbn [m_nodeEventHandler set_allNodes set_buckets t1].
  destruct (m_nodeEventHandler t); cbn; (repeat (split; [reflexivity|])).
  all: intros nodes' Hin Hn; apply list_elem_of_lookup in Hin as [j Hj];
    apply list_lookup_insert_Some in Hj as [(-> & <- & _)|[Hji Hj]];
    [apply list_elem_of_filter in Hn as [Hn _]; congruence|];
    destruct (ok_buckets t Hok _ _ Hj) as (_ & _ & Hall');
    destruct (Hall' n Hn) as (x & Hx & _ & _ & Hxd);
    assert (x = e) by congruence; subst x; apply Hji; unfold i; lia.
Qed.

Lemma clear_pending_ok n e t :
  table_ok t → m_heap t !! n = Some e →
  ∃ t', clear_pending n t = Some t' ∧ table_ok t'
      ∧ m_heap t' = <[n := mkEntry (e_id e) (e_endpoint e) (e_distance e) false
                             (e_peerType e)]> (m_heap t)
      ∧ m_allNodes t' = m_allNodes t ∧ m_evictions t' = m_evictions t
      ∧ m_buckets t' = m_buckets t ∧ m_hostNode t' = m_hostNode t
      ∧ m_events t' = m_events t.
Proof.
  intros Hok He. unfold clear_pending. rewrite He. cbn [mbind option_bind].
  eexists. split; [reflexivity|]. split; [|cbn; auto 10].
  apply (table_ok_update t n e); auto.
Qed.

Lemma addNode_ok node relation now t :
  table_ok t → no_collision (id (m_hostNode t)) →
  ∃ t', addNode node relation now t = Some t' ∧ table_ok t'
      ∧ m_hostNode t' = m_hostNode t.
Proof.
  intros Hok Hc. destruct relation; unfold addNode.
  - destruct (_ || _); [eauto|]. destruct (bool_decide _); [eauto|].
    cbn [alloc]. eexists. split; [reflexivity|]. split; [|reflexivity].
    pose proof (table_ok_alloc t
      (new_NodeEntry (id (m_hostNode t)) (id node) (endpoint node)) Hok eq_refl) as Ha.
    revert Ha. apply table_ok_frame; reflexivity.
  - cbn [alloc].
    set (e := mkEntry _ _ _ false _).
    pose proof (table_ok_alloc t e Hok eq_refl) as Ha.
    match goal with |- ∃ t', noteActiveNode ?p ?q ?w ?s = _ ∧ _ =>
      destruct (noteActiveNode_ok p q w s Ha Hc) as (t' & Ht' & Hok') end.
    exists t'. split; [exact Ht'|]. split; [exact Hok'|].
    apply noteActiveNode_frame in Ht' as (_ & _ & _ & ->). reflexivity.
Qed.

Lemma addNodes_ok ns now t :
  table_ok t → no_collision (id (m_hostNode t)) →
  ∃ t', addNodes ns now t = Some t' ∧ table_ok t' ∧ m_hostNode t' = m_hostNode t.
Proof.
  revert t. induction ns as [|n ns IH]; intros t Hok Hc; cbn [addNodes]; [eauto|].
  destruct (addNode_ok (mkNode n.2 n.1 defaultPeerType) Unknown now t Hok Hc) as (t1 & -> & Hok1 & Eh).
  cbn [mbind option_bind]. rewrite <- Eh in Hc.
  destruct (IH t1 Hok1 Hc) as (t2 & -> & Hok2 & Eh2).
  exists t2. split; [reflexivity|]. split; [exact Hok2 | congruence].
Qed.

End WellFormedOps.

(** ** Pong *)

Section PongPackets.
Context `{Externals}.

Lemma table_ok_learn_endpoint d t : table_ok t → table_ok (learn_endpoint d t).
Proof. apply table_ok_frame; reflexivity. Qed.

(** [if (auto n = nodeEntry(src)) n->pending = false] *)
Lemma clear_entry_ok src t :
  table_ok t →
  ∃ t', match nodeEntry src t with Some n => clear_pending n t | None => Some t end = Some t'
      ∧ table_ok t'
      ∧ m_allNodes t' = m_allNodes t ∧ m_evictions t' = m_evictions t
      ∧ m_buckets t' = m_buckets t ∧ m_hostNode t' = m_hostNode t
      ∧ m_events t' = m_events t
      ∧ ∀ m, m_allNodes t' !! src = Some m →
             ∃ e, m_heap t' !! m = Some e ∧ pending e = false.
Proof.
  intros Hok. unfold nodeEntry. destruct (m_allNodes t !! src) as [n|] eqn:En.
  - destruct (ok_allNodes t Hok _ _ En) as (e & He & _).
    destruct (clear_pending_ok n e t Hok He) as (t' & -> & Hok' & Hh & Ha & Hrest).
    exists t'. split; [reflexivity|]. split; [exact Hok'|]. split; [exact Ha|].
    destruct Hrest as (? & ? & ? & ?). repeat (split; [assumption|]).
    intros m Hm. rewrite Ha, En in Hm. injection Hm as <-.
    rewrite Hh, lookup_insert_eq. eauto.
  - exists t. split; [reflexivity|]. repeat (split; [assumption || reflexivity|]).
    intros m Hm. congruence.
Qed.

(** [if (auto n = nodeEntry(id)) dropNode(n)] for an id that is not the host's *)
Lemma drop_entry_ok i t :
  table_ok t → no_collision (id (m_hostNode t)) → i ≠ id (m_hostNode t) →
  ∃ t', match nodeEntry i t with Some n => dropNode n t | None => Some t end = Some t'
      ∧ table_ok t'
      ∧ m_allNodes t' = delete i (m_allNodes t)
      ∧ m_evictions t' = m_evictions t ∧ m_hostNode t' = m_hostNode t
      ∧ ∀ n, m_allNodes t !! i = Some n →
             (∀ nodes, nodes ∈ m_buckets t' → n ∉ nodes)
             ∧ m_events t' = (if m_nodeEventHandler t
                              then m_events t ++ [(i, NodeEntryDropped)] else m_events t).
Proof.
  intros Hok Hc Hi. unfold nodeEntry. destruct (m_allNodes t !! i) as [n|] eqn:En.
  - destruct (ok_allNodes t Hok _ _ En) as (e & He & Hid). subst i.
    destruct (dropNode_ok n e t Hok Hc He Hi)
      as (t' & -> & Hok' & Ha & _ & _ & Hev & Hh & _ & _ & Hevents & Hb).
    exists t'. repeat (split; [assumption || reflexivity|]).
    intros n' [= <-]. auto.
  - exists t. split; [reflexivity|]. split; [exact Hok|].
    split; [symmetry; apply delete_id; exact En|].
    repeat (split; [reflexivity|]). intros n' Hn'. discriminate.
Qed.

(** C3. A Pong from [src] while a probe keyed by [src] exists that is not
    older than [c_reqTimeout]: the probe leaves [m_evictions]; the
    replacement leaves [m_allNodes] and, when it was there, its bucket, with
    a dropped event for the installed handler; and the entry of [src] in
    [m_allNodes] is not pending afterwards. *)
Theorem pong_resolves_probe (src : NodeID) (destination : NodeIPEndpoint) (now : Z)
    (t : NodeTable) (ev : EvictionTimeout)
    (Hok : table_ok t) (Hc : no_collision (id (m_hostNode t)))
    (Hprobe : m_evictions t !! src = Some ev)
    (Hyoung : now - evictedTimePoint ev ≤ c_reqTimeout) :
  ∃ t', on_Pong src destination now t = Some t'
      ∧ m_evictions t' = delete src (m_evictions t)
      ∧ m_allNodes t' = delete (newNodeID ev) (m_allNodes t)
      ∧ (∀ n, m_allNodes t !! newNodeID ev = Some n →
           (∀ nodes, nodes ∈ m_buckets t' → n ∉ nodes)
           ∧ m_events t' = (if m_nodeEventHandler t
                            then m_events t ++ [(newNodeID ev, NodeEntryDropped)]
                            else m_events t))
      ∧ (∀ m, m_allNodes t' !! src = Some m →
           ∃ e, m_heap t' !! m = Some e ∧ pending e = false).
Proof.
  unfold on_Pong, live_probe. rewrite Hprobe.
  destruct (now <=? evictedTimePoint ev + c_reqTimeout) eqn:E;
    [|apply Z.leb_gt in E; lia].
  set (t1 := set_evictions (delete src (m_evictions t)) t).
  assert (Hok1 : table_ok t1).
  { apply table_ok_set_evictions; [exact Hok|]. intros k v Hk.
    apply lookup_delete_Some in Hk as [_ Hk]. apply (ok_evictions t Hok _ _ Hk). }
  destruct (ok_evictions t Hok _ _ Hprobe) as [_ Hnew].
  destruct (drop_entry_ok (newNodeID ev) t1 Hok1 Hc Hnew)
    as (t2 & -> & Hok2 & Ha2 & He2 & Hh2 & Hd2).
  cbn [mbind option_bind].
  destruct (clear_entry_ok src t2 Hok2)
    as (t3 & -> & Hok3 & Ha3 & He3 & Hb3 & Hh3 & Hev3 & Hp3).
  cbn [mbind option_bind]. eexists. split; [reflexivity|].
  cbn [learn_endpoint m_evictions m_allNodes m_buckets m_events m_heap set_hostNode].
  split; [rewrite He3, He2; reflexivity|].
  split; [rewrite Ha3, Ha2; reflexivity|].
  split; [|exact Hp3].
  intros n Hn. rewrite Hb3, Hev3. apply (Hd2 n Hn).
Qed.

Lemma on_Pong_ok src destination now t :
  table_ok t → no_collision (id (m_hostNode t)) →
  ∃ t', on_Pong src destination now t = Some t' ∧ table_ok t'
      ∧ id (m_hostNode t') = id (m_hostNode t).
Proof.
  intros Hok Hc. unfold on_Pong.
  destruct (live_probe src now t) as [ev|] eqn:El.
  - unfold live_probe in El. destruct (m_evictions t !! src) as [ev'|] eqn:Ep;
      [|discriminate].
    set (t1 := set_evictions (delete src (m_evictions t)) t).
    assert (Hok1 : table_ok t1).
    { apply table_ok_set_evictions; [exact Hok|]. intros k v Hk.
      apply lookup_delete_Some in Hk as [_ Hk]. apply (ok_evictions t Hok _ _ Hk). }
    assert (Hnew : newNodeID ev ≠ id (m_hostNode t)).
    { destruct (_ <=? _); [|discriminate]. injection El as <-.
      apply (ok_evictions t Hok _ _ Ep). }
    destruct (drop_entry_ok (newNodeID ev) t1 Hok1 Hc Hnew)
      as (t2 & -> & Hok2 & _ & _ & Hh2 & _).
    cbn [mbind option_bind].
    destruct (clear_entry_ok src t2 Hok2) as (t3 & -> & Hok3 & _ & _ & _ & Hh3 & _).
    cbn [mbind option_bind]. eexists. split; [reflexivity|].
    split; [apply table_ok_learn_endpoint, Hok3|]. cbn. rewrite Hh3, Hh2. reflexivity.
  - destruct (clear_entry_ok src t Hok) as (t3 & -> & Hok3 & _ & _ & _ & Hh3 & _).
    cbn [mbind option_bind]. eexists. split; [reflexivity|].
    split; [apply table_ok_learn_endpoint, Hok3|]. cbn. rewrite Hh3. reflexivity.
Qed.

End PongPackets.

(** ** Every handler is defined on a well-formed table *)

Section Handlers.
Context `{Externals}.

(** What [noteActiveNode] can do to the heap, the buckets and the events. *)
Lemma noteActiveNode_effect pubk ep now t t' :
  noteActiveNode pubk ep now t = Some t' →
  (∀ n, is_Some (m_heap t !! n) → is_Some (m_heap t' !! n))
  ∧ (∀ nodes' x, nodes' ∈ m_buckets t' → x ∈ nodes' →
       (∃ nodes, nodes ∈ m_buckets t ∧ x ∈ nodes) ∨ m_allNodes t !! pubk = Some x)
  ∧ (∃ evs, m_events t' = m_events t ++ evs)
  ∧ m_locals t' = m_locals t.
Proof.
  remember (m_allNodes t !! pubk) as oa eqn:Eoa.
  assert (Hrefl : ∀ s : NodeTable,
    (∀ n, is_Some (m_heap s !! n) → is_Some (m_heap s !! n))
    ∧ (∀ nodes' x, nodes' ∈ m_buckets s → x ∈ nodes' →
         (∃ nodes, nodes ∈ m_buckets s ∧ x ∈ nodes) ∨ oa = Some x)
    ∧ (∃ evs, m_events s = m_events s ++ evs) ∧ m_locals s = m_locals s).
  { intros s. split; [auto|]. split; [eauto|]. split; [|reflexivity].
    exists []. by rewrite app_nil_r. }
  unfold noteActiveNode.
  destruct (_ || _); [intros [= <-]; apply Hrefl|].
  unfold nodeEntry. rewrite <- Eoa. destruct oa as [a|]; [|intros [= <-]; apply Hrefl].
  destruct (m_heap t !! a) as [e|] eqn:He; cbn [mbind option_bind]; [|discriminate].
  destruct (pending e); [intros [= <-]; apply Hrefl|].
  destruct (bucket_UNSAFE _) as [i|]; cbn [mbind option_bind]; [|discriminate].
  cbn [m_buckets set_heap].
  destruct (m_buckets t !! i) as [nodes|] eqn:Hn; cbn [mbind option_bind]; [|discriminate].
  assert (Hdom : ∀ e' n, is_Some (m_heap t !! n) → is_Some (<[a := e']> (m_heap t) !! n)).
  { intros e' n Hs. destruct (decide (n = a)) as [->|Hna];
      [rewrite lookup_insert_eq; eauto | rewrite lookup_insert_ne by auto; exact Hs]. }
  assert (Hbk : ∀ new nodes' x,
    (∀ y, y ∈ new → y ∈ nodes ∨ y = a) →
    nodes' ∈ <[i := new]> (m_buckets t) → x ∈ nodes' →
    (∃ nodes0, nodes0 ∈ m_buckets t ∧ x ∈ nodes0) ∨ Some a = Some x).
  { intros new nodes' x Hnew Hin Hx. apply list_elem_of_lookup in Hin as [j Hj].
    apply list_lookup_insert_Some in Hj as [(-> & <- & _)|[_ Hj]].
    - destruct (Hnew x Hx) as [Hy| ->]; [left|right; reflexivity].
      exists nodes. split; [eapply list_elem_of_lookup_2; exact Hn | exact Hy].
    - left. exists nodes'. split; [eapply list_elem_of_lookup_2; exact Hj | exact Hx]. }
  assert (Hev : ∀ i0 y s, ∃ evs, m_events (appendEvent i0 y s) = m_events s ++ evs).
  { intros i0 y s. unfold appendEvent. destruct (m_nodeEventHandler s); cbn;
      [eauto | exists []; by rewrite app_nil_r]. }
  destruct (bool_decide (a ∈ nodes)) eqn:Ein.
  - apply bool_decide_eq_true in Ein. intros [= <-]. cbn.
    split; [apply Hdom|]. split; [|split; [exists []; by rewrite app_nil_r | reflexivity]].
    intros nodes' x. apply Hbk. intros y Hy.
    rewrite (remove_first_perm a nodes Ein) in Hy. auto.
  - destruct (_ <? _)%nat.
    + intros [= <-]. unfold appendEvent. cbn [m_nodeEventHandler set_buckets set_heap].
      destruct (m_nodeEventHandler t); cbn;
        (split; [apply Hdom|]; split;
         [|split; [eauto; exists []; by rewrite app_nil_r | reflexivity]]).
      all: intros nodes' x; apply Hbk; intros y Hy;
        apply elem_of_app in Hy as [?|Hy]; [auto|];
        apply list_elem_of_singleton in Hy; auto.
    + destruct nodes as [|front rest]; [discriminate|].
      destruct (weak_lock _ front) as [le|]; intros [= <-].
      * unfold evict. cbn [m_socketOpen set_heap].
        destruct (m_socketOpen t); cbn [negb].
        2:{ cbn. split; [apply Hdom|]. split; [eauto|].
            split; [exists []; by rewrite app_nil_r | reflexivity]. }
        destruct (_ =? 1)%nat; cbn; (split; [apply Hdom|]; split; [eauto|]);
          (split; [exists []; by rewrite app_nil_r | reflexivity]).
      * unfold appendEvent. cbn [m_nodeEventHandler set_buckets set_heap].
        destruct (m_nodeEventHandler t); cbn;
          (split; [apply Hdom|]; split;
           [|split; [eauto; exists []; by rewrite app_nil_r | reflexivity]]).
        all: intros nodes' x; apply Hbk; intros y Hy;
          apply elem_of_app in Hy as [Hy|Hy];
          [left; right; exact Hy | apply list_elem_of_singleton in Hy; auto].
Qed.

Lemma foldl_send_ok {A} (f : A → OutPacket) (l : list A) t :
  table_ok t →
  table_ok (foldl (λ t' b, send (f b) t') t l)
  ∧ m_hostNode (foldl (λ t' b, send (f b) t') t l) = m_hostNode t.
Proof.
  revert t. induction l as [|b l IH]; intros t Hok; [auto|]. cbn [foldl].
  destruct (IH (send (f b) t)) as [Hok' Hh]; [revert Hok; apply table_ok_frame; reflexivity|].
  split; [exact Hok' | rewrite Hh; reflexivity].
Qed.

Lemma foldl_query_ok target now es t :
  table_ok t → table_ok (foldl (query target now) t es)
             ∧ m_hostNode (foldl (query target now) t es) = m_hostNode t.
Proof.
  revert t. induction es as [|e es IH]; intros t Hok; [auto|]. cbn [foldl].
  destruct (IH (query target now t e)) as [Hok' Hh];
    [revert Hok; apply table_ok_frame; reflexivity|].
  split; [exact Hok' | rewrite Hh; reflexivity].
Qed.

Lemma on_Neighbours_ok src ns now t :
  table_ok t → no_collision (id (m_hostNode t)) →
  ∃ t', on_Neighbours src ns now t = Some t' ∧ table_ok t'
      ∧ m_hostNode t' = m_hostNode t.
Proof.
  intros Hok Hc. unfold on_Neighbours.
  destruct (remove_stale src now (m_findNodeTimeout t)) as [expected kept].
  assert (Hok1 : table_ok (set_findNodeTimeout kept t))
    by (revert Hok; apply table_ok_frame; reflexivity).
  destruct expected; cbn [negb]; [|eauto].
  apply (addNodes_ok ns now _ Hok1 Hc).
Qed.

Lemma dispatch_ok from p now t :
  table_ok t → no_collision (id (m_hostNode t)) →
  ∃ t', dispatch from p now t = Some t' ∧ table_ok t'
      ∧ id (m_hostNode t') = id (m_hostNode t).
Proof.
  intros Hok Hc. unfold dispatch. destruct (body p) as [source dest|dest|target|ns].
  - unfold on_PingNode.
    match goal with |- context [addNode ?n Unknown now t] =>
      destruct (addNode_ok n Unknown now t Hok Hc) as (t1 & -> & Hok1 & Hh) end.
    cbn [mbind option_bind]. eexists. split; [reflexivity|].
    split; [revert Hok1; apply table_ok_frame; reflexivity | cbn; by rewrite Hh].
  - apply on_Pong_ok; assumption.
  - unfold on_FindNode. eexists. split; [reflexivity|].
    match goal with |- context [foldl (λ t' b, send (@?f b) t') t ?l] =>
      destruct (foldl_send_ok f l t Hok) as [Hok' Hh] end.
    split; [exact Hok' | by rewrite Hh].
  - destruct (on_Neighbours_ok (sourceid p) ns now t Hok Hc) as (t' & -> & Hok' & Hh).
    exists t'. split; [reflexivity|]. split; [exact Hok' | by rewrite Hh].
Qed.

Lemma onPacketReceived_ok from packet now wall t :
  table_ok t → no_collision (id (m_hostNode t)) →
  ∃ t', onPacketReceived from packet now wall t = Some t' ∧ table_ok t'
      ∧ id (m_hostNode t') = id (m_hostNode t).
Proof.
  intros Hok Hc. unfold onPacketReceived.
  destruct (interpretUDP packet) as [| |p]; [eauto..|].
  destruct (isExpired wall p); [eauto|].
  destruct (dispatch_ok from p now t Hok Hc) as (t1 & -> & Hok1 & Hh).
  cbn [mbind option_bind]. rewrite <- Hh in Hc.
  destruct (noteActiveNode_ok (sourceid p) from now t1 Hok1 Hc) as (t2 & Ht2 & Hok2).
  exists t2. split; [exact Ht2|]. split; [exact Hok2|].
  apply noteActiveNode_frame in Ht2 as (_ & _ & _ & ->). exact Hh.
Qed.

Lemma doDiscover_ok node round _tried now t :
  table_ok t → (_tried = None → round = 0%nat) →
  ∃ t', doDiscover node round _tried now t = Some t' ∧ table_ok t'
      ∧ m_hostNode t' = m_hostNode t.
Proof.
  intros Hok Hnull. unfold doDiscover.
  destruct (negb (m_socketOpen t)); [eauto|].
  destruct (round =? s_maxSteps)%nat.
  { eexists. split; [reflexivity|]. split; [|reflexivity].
    revert Hok; apply table_ok_frame; reflexivity. }
  assert (Hs : ∃ s, match _tried with
                    | Some s => Some s
                    | None => if (round =? 0)%nat then Some ∅ else None
                    end = Some s).
  { destruct _tried as [s|]; [eauto|]. rewrite (Hnull eq_refl). eauto. }
  destruct Hs as [s ->]. cbn [mbind option_bind].
  set (nearest := nearestNodeEntries node (set_locals (elements s) t)).
  assert (Hheap : ∀ r, r ∈ nearest → is_Some (m_heap t !! r))
    by (intros r Hr; apply nearest_in_heap in Hr; exact Hr).
  rewrite (discover_round_spec node now s nearest [] t Hheap).
  cbn [mbind option_bind app].
  match goal with |- context [foldl (query node now) t ?es] =>
    destruct (foldl_query_ok node now es t Hok) as [Hok1 Hh] end.
  destruct (take _ _); eexists; (split; [reflexivity|]); (split; [|exact Hh]);
    revert Hok1; apply table_ok_frame; reflexivity.
Qed.

End Handlers.

(** ** The eviction sweep *)

Section Sweep.
Context `{Externals}.

Lemma expired_probes_spec now t k ev :
  (k, ev) ∈ expired_probes now t
  ↔ m_evictions t !! k = Some ev ∧ c_reqTimeout < now - evictedTimePoint ev.
Proof.
  unfold expired_probes. rewrite list_elem_of_filter, elem_of_map_to_list. simpl. tauto.
Qed.

Lemma elem_of_unique x l : x ∈ unique l ↔ x ∈ l.
Proof.
  induction l as [|a l IH]; [reflexivity|]. cbn [unique].
  destruct l as [|b l']; [reflexivity|].
  destruct (a =? b)%nat eqn:E.
  - apply Nat.eqb_eq in E. subst b. rewrite IH. rewrite !elem_of_cons. tauto.
  - rewrite elem_of_cons, IH. rewrite (elem_of_cons (b :: l')). tauto.
Qed.

Lemma collect_spec probes t :
  (∀ n, n ∈ (collect probes t).1
        ↔ ∃ k ev, (k, ev) ∈ probes ∧ m_allNodes t !! k = Some n)
  ∧ (∀ m, m ∈ (collect probes t).2
        ↔ ∃ k ev, (k, ev) ∈ probes ∧ is_Some (m_allNodes t !! k)
                  ∧ m_allNodes t !! newNodeID ev = Some m).
Proof.
  induction probes as [|[k ev] rest [IH1 IH2]]; cbn [collect].
  - split; intros x; (split; [intros Hx; inversion Hx|]);
      intros (? & ? & Hx & _); inversion Hx.
  - destruct (collect rest t) as [drop active]. cbn [fst snd] in *.
    assert (Hd : ∀ n, n ∈ drop ∨ m_allNodes t !! k = Some n
                      ↔ ∃ k0 ev0, (k0, ev0) ∈ (k, ev) :: rest ∧ m_allNodes t !! k0 = Some n).
    { intros n. rewrite IH1. split.
      - intros [(k0 & ev0 & Hin & Hn)|Hn]; [exists k0, ev0|exists k, ev];
          (split; [|assumption]); [right; exact Hin | left].
      - intros (k0 & ev0 & Hin & Hn). apply elem_of_cons in Hin as [[= -> ->]|Hin];
          [right; exact Hn | left; eauto]. }
    assert (Ha : ∀ m, m ∈ active
                      ∨ (is_Some (m_allNodes t !! k) ∧ m_allNodes t !! newNodeID ev = Some m)
                      ↔ ∃ k0 ev0, (k0, ev0) ∈ (k, ev) :: rest ∧ is_Some (m_allNodes t !! k0)
                                  ∧ m_allNodes t !! newNodeID ev0 = Some m).
    { intros m. rewrite IH2. split.
      - intros [(k0 & ev0 & Hin & Hn)|Hn]; [exists k0, ev0|exists k, ev];
          (split; [|assumption]); [right; exact Hin | left].
      - intros (k0 & ev0 & Hin & Hn). apply elem_of_cons in Hin as [[= -> ->]|Hin];
          [right; exact Hn | left; eauto]. }
    cbn [fst snd]. destruct (m_allNodes t !! k) as [n|] eqn:Ek.
    + destruct (m_allNodes t !! newNodeID ev) as [m|] eqn:Em; cbn [fst snd]; split.
      * intros x. rewrite elem_of_cons, <- Hd. split; [intros [->|?]; auto|].
        intros [?|[= ->]]; auto.
      * intros x. rewrite elem_of_cons, <- Ha. split; [intros [->|?]; eauto|].
        intros [?|[_ [= ->]]]; auto.
      * intros x. rewrite elem_of_cons, <- Hd. split; [intros [->|?]; auto|].
        intros [?|[= ->]]; auto.
      * intros x. rewrite <- Ha. split; [auto|]. intros [?|[_ ?]]; [auto|discriminate].
    + split.
      * intros x. rewrite <- Hd. split; [auto|]. intros [?|?]; [auto|discriminate].
      * intros x. rewrite <- Ha. split; [auto|].
        intros [?|[[? ?] _]]; [auto|discriminate].
Qed.

Lemma dropNode_shrinks n t t' :
  dropNode n t = Some t' →
  m_nodeEventHandler t' = m_nodeEventHandler t
  ∧ ∀ nodes' x, nodes' ∈ m_buckets t' → x ∈ nodes' →
      ∃ nodes, nodes ∈ m_buckets t ∧ x ∈ nodes.
Proof.
  unfold dropNode. destruct (m_heap t !! n) as [e|]; cbn [mbind option_bind]; [|discriminate].
  destruct (bucket_UNSAFE e) as [i|]; cbn [mbind option_bind]; [|discriminate].
  destruct (m_buckets t !! i) as [nodes|] eqn:Hn; cbn [mbind option_bind]; [|discriminate].
  intros [= <-]. unfold appendEvent. cbn [m_nodeEventHandler set_allNodes set_buckets].
  assert (Hb : ∀ nodes' x, nodes' ∈ <[i := filter (λ b, b ≠ n) nodes]> (m_buckets t) →
                x ∈ nodes' → ∃ nodes0, nodes0 ∈ m_buckets t ∧ x ∈ nodes0).
  { intros nodes' x Hin Hx. apply list_elem_of_lookup in Hin as [j Hj].
    apply list_lookup_insert_Some in Hj as [(-> & <- & _)|[_ Hj]].
    - apply list_elem_of_filter in Hx as [_ Hx]. exists nodes.
      split; [eapply list_elem_of_lookup_2; exact Hn | exact Hx].
    - exists nodes'. split; [eapply list_elem_of_lookup_2; exact Hj | exact Hx]. }
  destruct (m_nodeEventHandler t) eqn:Eh; cbn; rewrite ?Eh; (split; [reflexivity | exact Hb]).
Qed.

Lemma noteActiveNode_evictions pubk ep now t t' :
  noteActiveNode pubk ep now t = Some t' →
  m_nodeEventHandler t' = m_nodeEventHandler t
  ∧ ∀ k v, m_evictions t' !! k = Some v →
           m_evictions t !! k = Some v ∨ evictedTimePoint v = now.
Proof.
  unfold noteActiveNode.
  destruct (_ || _); [intros [= <-]; auto|].
  destruct (nodeEntry pubk t) as [a|]; [|intros [= <-]; auto].
  destruct (m_heap t !! a) as [e|]; cbn [mbind option_bind]; [|discriminate].
  destruct (pending e); [intros [= <-]; auto|].
  destruct (bucket_UNSAFE _) as [i|]; cbn [mbind option_bind]; [|discriminate].
  cbn [m_buckets set_heap].
  destruct (m_buckets t !! i) as [nodes|]; cbn [mbind option_bind]; [|discriminate].
  destruct (bool_decide _); [intros [= <-]; cbn; auto|].
  destruct (_ <? _)%nat.
  { intros [= <-]. unfold appendEvent. cbn [m_nodeEventHandler set_buckets set_heap].
    destruct (m_nodeEventHandler t) eqn:Eh; cbn; rewrite ?Eh; auto. }
  destruct nodes as [|front rest]; [discriminate|].
  destruct (weak_lock _ front) as [le|]; intros [= <-].
  - unfold evict. cbn [m_socketOpen set_heap]. destruct (m_socketOpen t); cbn [negb];
      [|cbn; auto].
    assert (Hem : ∀ k v, emplace (e_id le) (mkEvict (e_id e) now) (m_evictions t) !! k = Some v
                         → m_evictions t !! k = Some v ∨ evictedTimePoint v = now).
    { intros k v. unfold emplace. destruct (m_evictions t !! e_id le); [auto|].
      intros Hk. apply lookup_insert_Some in Hk as [[_ <-]|[_ Hk]]; auto. }
    destruct (_ =? 1)%nat; cbn; (split; [reflexivity | exact Hem]).
  - unfold appendEvent. cbn [m_nodeEventHandler set_buckets set_heap].
    destruct (m_nodeEventHandler t) eqn:Eh; cbn; rewrite ?Eh; auto.
Qed.

Lemma erase_probes_ok drop : ∀ t,
  table_ok t → (∀ n, n ∈ drop → is_Some (m_heap t !! n)) →
  ∃ t1, erase_probes drop t = Some t1 ∧ table_ok t1
      ∧ m_heap t1 = m_heap t ∧ m_allNodes t1 = m_allNodes t
      ∧ m_buckets t1 = m_buckets t ∧ m_hostNode t1 = m_hostNode t
      ∧ m_events t1 = m_events t ∧ m_nodeEventHandler t1 = m_nodeEventHandler t
      ∧ m_locals t1 = m_locals t
      ∧ ∀ k v, m_evictions t1 !! k = Some v
               ↔ m_evictions t !! k = Some v
                 ∧ ¬ ∃ n e, n ∈ drop ∧ m_heap t !! n = Some e ∧ e_id e = k.
Proof.
  induction drop as [|n rest IH]; intros t Hok Hheap; cbn [erase_probes].
  - exists t. repeat (split; [reflexivity || assumption|]).
    intros k v. split; [intros Hk; split; [exact Hk|]|tauto].
    intros (n & e & Hn & _). inversion Hn.
  - destruct (Hheap n) as [e He]; [left|]. rewrite He. cbn [mbind option_bind].
    set (t0 := set_evictions (delete (e_id e) (m_evictions t)) t).
    assert (Hok0 : table_ok t0).
    { apply table_ok_set_evictions; [exact Hok|]. intros k v Hk.
      apply lookup_delete_Some in Hk as [_ Hk]. apply (ok_evictions t Hok _ _ Hk). }
    destruct (IH t0 Hok0) as (t1 & -> & Hok1 & Hh & Ha & Hb & Hn & Hev & Hhd & Hl & Hprobes).
    { intros x Hx. apply Hheap. right. exact Hx. }
    exists t1. repeat (split; [reflexivity || assumption|]).
    intros k v. rewrite Hprobes. cbn [t0 m_evictions set_evictions m_heap].
    rewrite lookup_delete_Some. split.
    + intros [[Hne Hk] Hno]. split; [exact Hk|]. intros (x & ex & Hx & Hxe & Hxi).
      apply elem_of_cons in Hx as [->|Hx]; [congruence|]. apply Hno. eauto.
    + intros [Hk Hno]. split; [split; [|exact Hk]|].
      * intros <-. apply Hno. exists n, e. split; [left|auto].
      * intros (x & ex & Hx & Hxe & Hxi). apply Hno. exists x, ex.
        split; [right; exact Hx | auto].
Qed.

Lemma dropNodes_ok drop : ∀ t,
  table_ok t → no_collision (id (m_hostNode t)) →
  (∀ n, n ∈ drop → ∃ e, m_heap t !! n = Some e ∧ e_id e ≠ id (m_hostNode t)) →
  ∃ t2, dropNodes drop t = Some t2 ∧ table_ok t2
      ∧ m_heap t2 = m_heap t ∧ m_hostNode t2 = m_hostNode t
      ∧ m_evictions t2 = m_evictions t
      ∧ m_nodeEventHandler t2 = m_nodeEventHandler t
      ∧ m_locals t2 = m_locals t
      ∧ (∀ k x, m_allNodes t2 !! k = Some x
                ↔ m_allNodes t !! k = Some x
                  ∧ ¬ ∃ n e, n ∈ drop ∧ m_heap t !! n = Some e ∧ e_id e = k)
      ∧ (∀ nodes' x, nodes' ∈ m_buckets t2 → x ∈ nodes' →
           (∃ nodes, nodes ∈ m_buckets t ∧ x ∈ nodes) ∧ x ∉ drop)
      ∧ (∃ evs, m_events t2 = m_events t ++ evs)
      ∧ (m_nodeEventHandler t = true → ∀ n e, n ∈ drop → m_heap t !! n = Some e →
           (e_id e, NodeEntryDropped) ∈ m_events t2).
Proof.
  induction drop as [|n rest IH]; intros t Hok Hc Hdrop; cbn [dropNodes].
  - exists t. repeat (split; [reflexivity || assumption|]).
    split.
    { intros k x. split; [intros Hk; split; [exact Hk|]|tauto].
      intros (n & e & Hn & _). inversion Hn. }
    split; [intros nodes' x Hin Hx; split; [eauto|]; intros Hn; inversion Hn|].
    split; [exists []; by rewrite app_nil_r|].
    intros _ n e Hn. inversion Hn.
  - destruct (Hdrop n) as (e & He & Hid); [left|].
    destruct (dropNode_ok n e t Hok Hc He Hid)
      as (t1 & Ht1 & Hok1 & Ha1 & Hh1 & _ & Hev1 & Hho1 & Hl1 & _ & Hevt1 & Hb1).
    destruct (dropNode_shrinks n t t1 Ht1) as [Hhd1 Hsh1].
    rewrite Ht1. cbn [mbind option_bind].
    destruct (IH t1 Hok1) as (t2 & -> & Hok2 & Hh2 & Hho2 & Hev2 & Hhd2 & Hl2
                              & Ha2 & Hb2 & [evs Hevt2] & Hdr2).
    { rewrite Hho1. exact Hc. }
    { intros x Hx. rewrite Hh1, Hho1. apply Hdrop. right. exact Hx. }
    exists t2. split; [reflexivity|]. split; [exact Hok2|].
    split; [congruence|]. split; [congruence|]. split; [congruence|].
    split; [congruence|]. split; [congruence|].
    split.
    { intros k x. rewrite Ha2, Ha1, Hh1, lookup_delete_Some. split.
      - intros [[Hne Hk] Hno]. split; [exact Hk|]. intros (y & ey & Hy & Hye & Hyi).
        apply elem_of_cons in Hy as [->|Hy]; [congruence|]. apply Hno. eauto.
      - intros [Hk Hno]. split; [split; [|exact Hk]|].
        + intros <-. apply Hno. exists n, e. split; [left|auto].
        + intros (y & ey & Hy & Hye & Hyi). apply Hno. exists y, ey.
          split; [right; exact Hy | auto]. }
    split.
    { intros nodes' x Hin Hx. destruct (Hb2 nodes' x Hin Hx) as [(nodes1 & Hin1 & Hx1) Hnr].
      split; [apply (Hsh1 nodes1 x Hin1 Hx1)|].
      intros Hxd. apply elem_of_cons in Hxd as [->|?]; [|contradiction].
      exact (Hb1 nodes1 Hin1 Hx1). }
    split.
    { rewrite Hevt2, Hevt1. destruct (m_nodeEventHandler t);
        [rewrite <- app_assoc|]; eauto. }
    intros Hhd x ex Hx Hxe. apply elem_of_cons in Hx as [->|Hx].
    + assert (ex = e) by congruence. subst ex. rewrite Hevt2, Hevt1, Hhd.
      apply elem_of_app. left. apply elem_of_app. right. left.
    + apply (Hdr2 ltac:(congruence) x ex Hx). rewrite Hh1. exact Hxe.
Qed.

Lemma activate_ok active now : ∀ t,
  table_ok t → no_collision (id (m_hostNode t)) →
  (∀ n, n ∈ active → is_Some (m_heap t !! n)) →
  ∃ t3, activate active now t = Some t3 ∧ table_ok t3
      ∧ m_allNodes t3 = m_allNodes t ∧ m_hostNode t3 = m_hostNode t
      ∧ m_nodeEventHandler t3 = m_nodeEventHandler t
      ∧ m_locals t3 = m_locals t
      ∧ (∀ nodes' x, nodes' ∈ m_buckets t3 → x ∈ nodes' →
           (∃ nodes, nodes ∈ m_buckets t ∧ x ∈ nodes) ∨ ∃ k, m_allNodes t !! k = Some x)
      ∧ (∃ evs, m_events t3 = m_events t ++ evs)
      ∧ (∀ k v, m_evictions t3 !! k = Some v →
           m_evictions t !! k = Some v ∨ evictedTimePoint v = now).
Proof.
  induction active as [|n rest IH]; intros t Hok Hc Hheap; cbn [activate].
  - exists t. repeat (split; [reflexivity || assumption|]).
    split; [eauto|]. split; [exists []; by rewrite app_nil_r | auto].
  - destruct (Hheap n) as [e He]; [left|]. rewrite He. cbn [mbind option_bind].
    destruct (noteActiveNode_ok (e_id e) (udp_of (e_endpoint e)) now t Hok Hc)
      as (t1 & Ht1 & Hok1).
    destruct (noteActiveNode_frame _ _ _ _ _ Ht1) as (Ha1 & _ & _ & Hho1).
    destruct (noteActiveNode_effect _ _ _ _ _ Ht1) as (Hdom1 & Hb1 & [evs1 Hevt1] & Hl1).
    destruct (noteActiveNode_evictions _ _ _ _ _ Ht1) as [Hhd1 Hev1].
    rewrite Ht1. cbn [mbind option_bind].
    destruct (IH t1 Hok1) as (t3 & -> & Hok3 & Ha3 & Hho3 & Hhd3 & Hl3 & Hb3
                              & [evs3 Hevt3] & Hev3).
    { rewrite Hho1. exact Hc. }
    { intros x Hx. apply Hdom1, Hheap. right. exact Hx. }
    exists t3. split; [reflexivity|]. split; [exact Hok3|].
    split; [congruence|]. split; [congruence|]. split; [congruence|].
    split; [congruence|].
    split.
    { intros nodes' x Hin Hx. destruct (Hb3 nodes' x Hin Hx) as [(nodes1 & Hin1 & Hx1)|[k Hk]].
      - destruct (Hb1 nodes1 x Hin1 Hx1) as [?|?]; [left; assumption | right; eauto].
      - right. exists k. rewrite <- Ha1. exact Hk. }
    split; [exists (evs1 ++ evs3); rewrite Hevt3, Hevt1, app_assoc; reflexivity|].
    intros k v Hk. destruct (Hev3 k v Hk) as [Hk1|?]; [|auto]. apply (Hev1 k v Hk1).
Qed.


Lemma checkEvictions_ok now t :
  table_ok t → no_collision (id (m_hostNode t)) →
  ∃ t', checkEvictions now t = Some t' ∧ table_ok t' ∧ m_hostNode t' = m_hostNode t.
Proof.
  intros Hok Hc. unfold checkEvictions.
  destruct (collect_spec (expired_probes now t) t) as [Hdrop0 Hactive].
  destruct (collect (expired_probes now t) t) as [drop0 active0].
  cbn [fst snd] in Hdrop0, Hactive.
  assert (Hdh : ∀ n, n ∈ unique drop0 →
                ∃ e, m_heap t !! n = Some e ∧ e_id e ≠ id (m_hostNode t)).
  { intros n Hn. apply elem_of_unique, Hdrop0 in Hn as (k & ev & Hin & Hn).
    apply expired_probes_spec in Hin as [Hk _].
    destruct (ok_allNodes t Hok _ _ Hn) as (e & He & Hi). exists e. split; [exact He|].
    rewrite Hi. apply (ok_evictions t Hok _ _ Hk). }
  destruct (erase_probes_ok (unique drop0) t Hok)
    as (t1 & -> & Hok1 & Hh1 & _ & _ & Hho1 & _).
  { intros n Hn. destruct (Hdh n Hn) as (e & -> & _). eauto. }
  cbn [mbind option_bind].
  set (t1' := set_locals (unique drop0 ++ active0) t1).
  assert (Hok1' : table_ok t1') by (revert Hok1; apply table_ok_frame; reflexivity).
  destruct (dropNodes_ok (unique drop0) t1' Hok1') as (t2 & -> & Hok2 & Hh2 & Hho2 & _).
  { cbn. rewrite Hho1. exact Hc. }
  { intros n Hn. cbn. rewrite Hh1, Hho1. auto. }
  cbn [mbind option_bind].
  destruct (activate_ok active0 now t2 Hok2) as (t3 & -> & Hok3 & _ & Hho3 & _).
  { rewrite Hho2. cbn. rewrite Hho1. exact Hc. }
  { intros m Hm. rewrite Hh2. cbn. rewrite Hh1.
    apply Hactive in Hm as (k & ev & _ & _ & Hm).
    destruct (ok_allNodes t Hok _ _ Hm) as (e & -> & _). eauto. }
  cbn [mbind option_bind]. eexists. split; [reflexivity|].
  cbn [t1' m_hostNode set_locals] in Hho2.
  destruct (bool_decide _); (split; [revert Hok3; apply table_ok_frame; reflexivity|]);
    cbn; congruence.
Qed.

End Sweep.

(** ** Reachable tables *)

Section Reachable.
Context `{Externals}.

Lemma new_NodeTable_ok host enabled handler :
  table_ok (new_NodeTable host enabled handler)
  ∧ m_hostNode (new_NodeTable host enabled handler) = host.
Proof.
  assert (Hempty : table_ok (empty_table host handler)).
  { constructor; cbn.
    - intros n e Hn. rewrite lookup_empty in Hn. discriminate.
    - intros i n Hn. rewrite lookup_empty in Hn. discriminate.
    - apply length_replicate.
    - intros i nodes Hb. apply lookup_replicate in Hb as [-> _].
      split; [simpl; lia|]. split; [constructor|]. intros n Hn. inversion Hn.
    - intros k v Hk. rewrite lookup_empty in Hk. discriminate. }
  unfold new_NodeTable. destruct enabled; [|auto].
  split; [|reflexivity]. revert Hempty. apply table_ok_frame; reflexivity.
Qed.

Lemma fire_ok k aborted rand now t :
  table_ok t → no_collision (id (m_hostNode t)) →
  ∃ t', fire k aborted rand now t = Some t' ∧ table_ok t'
      ∧ m_hostNode t' = m_hostNode t.
Proof.
  intros Hok Hc. unfold fire. destruct aborted; [eauto|].
  destruct k as [| |node round tried].
  - apply checkEvictions_ok; assumption.
  - apply doDiscover_ok; auto.
  - apply doDiscover_ok; [assumption | discriminate].
Qed.

Lemma step_ok i t :
  table_ok t → no_collision (id (m_hostNode t)) →
  ∃ t', step i t = Some t' ∧ table_ok t'
      ∧ id (m_hostNode t') = id (m_hostNode t).
Proof.
  intros Hok Hc. destruct i as [node relation now|from packet now wall|i aborted rand now|open];
    cbn [step].
  - destruct (addNode_ok node relation now t Hok Hc) as (t' & -> & Hok' & Hh).
    exists t'. rewrite Hh. auto.
  - apply onPacketReceived_ok; assumption.
  - destruct (m_timers t !! i) as [k|]; [|eauto].
    set (t0 := set_timers (delete i (m_timers t)) t).
    assert (Hok0 : table_ok t0) by (revert Hok; apply table_ok_frame; reflexivity).
    destruct (fire_ok k aborted rand now t0 Hok0 Hc) as (t' & -> & Hok' & Hh).
    exists t'. rewrite Hh. auto.
  - eexists. split; [reflexivity|]. split; [|reflexivity].
    revert Hok. apply table_ok_frame; reflexivity.
Qed.

Lemma run_ok ins : ∀ t,
  table_ok t → no_collision (id (m_hostNode t)) →
  ∃ t', run ins t = Some t' ∧ table_ok t'
      ∧ id (m_hostNode t') = id (m_hostNode t).
Proof.
  induction ins as [|i ins IH]; intros t Hok Hc; cbn [run]; [eauto|].
  destruct (step_ok i t Hok Hc) as (t1 & -> & Hok1 & Hh1). cbn [mbind option_bind].
  rewrite <- Hh1 in Hc. destruct (IH t1 Hok1 Hc) as (t2 & -> & Hok2 & Hh2).
  exists t2. split; [reflexivity|]. split; [exact Hok2 | congruence].
Qed.

Lemma run_app ins1 ins2 t :
  run (ins1 ++ ins2) t = run ins1 t ≫= run ins2.
Proof.
  revert t. induction ins1 as [|i ins1 IH]; intros t; cbn [run app]; [reflexivity|].
  destruct (step i t) as [t1|]; cbn [mbind option_bind]; [apply IH | reflexivity].
Qed.

Lemma reachable_ok host t :
  no_collision (id host) → reachable host t →
  table_ok t ∧ id (m_hostNode t) = id host.
Proof.
  intros Hc (enabled & handler & ins & Hrun).
  destruct (new_NodeTable_ok host enabled handler) as [Hok0 Hh0].
  destruct (run_ok ins _ Hok0) as (t' & Ht' & Hok' & Hh'); [rewrite Hh0; exact Hc|].
  assert (t' = t) by congruence. subst t'. split; [exact Hok' | congruence].
Qed.

(** C10, as the code has it.  On a table reached from the constructor by
    calls of [addNode], datagrams, timers and socket changes, every further
    input is handled without an index outside [m_buckets] (the result is
    never [None]), provided no other id has the hash of the local one:
    [noteActiveNode] and [dropNode] index with entries of another id only,
    and such an entry has a distance from 1 to 256. *)
Theorem bucket_access_in_bounds (host : Node) (t : NodeTable)
    (Hc : no_collision (id host)) (Hreach : reachable host t) :
  (∀ i, ∃ t', step i t = Some t' ∧ reachable host t')
  ∧ (∀ k n e, m_allNodes t !! k = Some n → m_heap t !! n = Some e → k ≠ id host →
       1 ≤ e_distance e ≤ 256
       ∧ bucket_UNSAFE e = Some (Z.to_nat (e_distance e - 1)))
  ∧ (∀ nodes n e, nodes ∈ m_buckets t → n ∈ nodes → m_heap t !! n = Some e →
       e_id e ≠ id host ∧ bucket_UNSAFE e = Some (Z.to_nat (e_distance e - 1)))
  ∧ (∀ k v, m_evictions t !! k = Some v → k ≠ id host ∧ newNodeID v ≠ id host).
Proof.
  destruct (reachable_ok host t Hc Hreach) as [Hok Hh].
  assert (Hd : ∀ e n, m_heap t !! n = Some e → e_id e ≠ id host →
               1 ≤ e_distance e ≤ 256).
  { intros e n He Hid. destruct (ok_heap t Hok _ _ He) as [-> _]. rewrite Hh.
    apply distance_positive; auto. }
  split; [|split; [|split]].
  - intros i. destruct (step_ok i t Hok) as (t' & Ht' & _); [rewrite Hh; exact Hc|].
    exists t'. split; [exact Ht'|]. destruct Hreach as (enabled & handler & ins & Hrun).
    exists enabled, handler, (ins ++ [i]). rewrite run_app, Hrun. cbn [mbind option_bind run].
    rewrite Ht'. reflexivity.
  - intros k n e Hk He Hne. destruct (ok_allNodes t Hok _ _ Hk) as (e' & He' & Hi).
    assert (e' = e) by congruence. subst e'.
    assert (Hr : 1 ≤ e_distance e ≤ 256) by (apply (Hd e n He); congruence).
    split; [exact Hr | apply bucket_UNSAFE_Some, Hr].
  - intros nodes n e Hin Hn He. apply list_elem_of_lookup in Hin as [i Hi].
    destruct (ok_buckets t Hok _ _ Hi) as (_ & _ & Hall).
    destruct (Hall n Hn) as (e' & He' & Hid & _). assert (e' = e) by congruence. subst e'.
    rewrite Hh in Hid. split; [exact Hid|]. apply bucket_UNSAFE_Some, (Hd e n He Hid).
  - intros k v Hk. rewrite <- Hh. apply (ok_evictions t Hok _ _ Hk).
Qed.

End Reachable.

(** ** Runs of the sample table *)

Section SampleRuns.
Local Existing Instance Sample.externals.

Lemma sample_no_collision : no_collision (id Sample.host).
Proof.
  intros x. cbn [id Sample.host sha3 Sample.externals]. unfold Sample.hash.
  destruct (x =? 1) eqn:E; [apply Z.eqb_eq in E; auto|].
  cbn [Z.eqb]. unfold h256.
  pose proof (Z.mod_pos_bound x (2 ^ 256 - 1) ltac:(lia)) as Hb.
  rewrite (Z.mod_small (1 + _)) by lia. rewrite Z.mod_0_l by lia. lia.
Qed.

Lemma table17_reachable : reachable Sample.host Sample.table17.
Proof.
  exists true, true, (Sample.fill ++ [InAddNode (Sample.peer 47) Known 0]).
  vm_compute. reflexivity.
Qed.

Lemma table17_ok : table_ok Sample.table17.
Proof. apply (reachable_ok Sample.host), table17_reachable. exact sample_no_collision. Qed.

(** Peer 31 answers the probe at time 50. *)
Lemma pong_resolves_probe_witness :
  ∃ t', on_Pong 31 (mkEndpoint 5000 30303 30303) 50 Sample.table17 = Some t'
      ∧ m_evictions t' !! 31 = None ∧ m_allNodes t' !! 47 = None
      ∧ (47, NodeEntryDropped) ∈ m_events t'.
Proof.
  destruct (pong_resolves_probe 31 (mkEndpoint 5000 30303 30303) 50 Sample.table17
              (mkEvict 47 0) table17_ok sample_no_collision)
    as (t' & Ht' & Hev & Ha & Hdrop & _).
  { vm_compute. reflexivity. }
  { vm_compute. discriminate. }
  exists t'. split; [exact Ht'|]. rewrite Hev, Ha, !lookup_delete_eq.
  split; [reflexivity|]. split; [reflexivity|].
  destruct (Hdrop 16%nat) as [_ Hevents]; [vm_compute; reflexivity|].
  rewrite Hevents. replace (m_nodeEventHandler Sample.table17) with true by reflexivity.
  apply elem_of_app. right. left.
Defined.



(** A reachable table whose [m_allNodes] holds the local id. *)
Lemma local_id_in_reachable_table :
  ∃ t, reachable Sample.host t ∧ is_Some (m_allNodes t !! id (m_hostNode t)).
Proof.
  exists (default Sample.table0 (run [InAddNode Sample.host Unknown 0] Sample.table0)).
  split; [exists true, true, [InAddNode Sample.host Unknown 0]; vm_compute; reflexivity|].
  exists 0%nat. vm_compute. reflexivity.
Qed.

(** Any further input on the table with seventeen peers, here the sweep
    at 375. *)
Lemma bucket_access_in_bounds_witness :
  ∃ t', step (InTimer 1 false 0 375) Sample.table17 = Some t'
      ∧ reachable Sample.host t'.
Proof.
  exact (proj1 (bucket_access_in_bounds Sample.host Sample.table17
                  sample_no_collision table17_reachable) (InTimer 1 false 0 375)).
Defined.

(** C10, the claim as stated fails for the entry of the local id: the host
    adds its own node as a known one; the entry stored under the local id
    has distance 0, [bucket_UNSAFE] has no bucket for it, and [dropNode] on
    it would index [m_buckets] at -1. *)
Lemma local_entry_has_no_bucket :
  ∃ t n e,
    run [InAddNode Sample.host Known 0] Sample.table0 = Some t
    ∧ m_allNodes t !! id Sample.host = Some n
    ∧ m_heap t !! n = Some e
    ∧ e_distance e = 0
    ∧ bucket_UNSAFE e = None
    ∧ dropNode n t = None.
Proof.
  eexists. eexists. eexists. split; [vm_compute; reflexivity|].
  split; [vm_compute; reflexivity|]. split; [vm_compute; reflexivity|].
  split; [reflexivity|]. split; vm_compute; reflexivity.
Qed.

(** C6.  The claim holds of the design, not of the code: a bucket can hold
    two live entries of one id.  Peer 32 is in bucket 5 (entry 0); a lookup
    round queries it, so the round's tried set, captured by the timer of the
    next round, holds a [shared_ptr] to entry 0; the host adds peer 32 again
    as a known node: [m_allNodes] now owns the new entry 1, entry 0 does not
    expire, and [noteActiveNode], which finds entry 1 absent from the
    bucket, appends it next to entry 0. *)
Theorem bucket_with_two_live_entries_of_one_id :
  ∃ t1 t2 e0 e1,
    run [InAddNode (Sample.peer 32) Known 0; InTimer 0 false 33 7200] Sample.table0
    = Some t1
    ∧ m_buckets t1 !! 5%nat = Some [0%nat]
    ∧ m_timers t1 = [TDiscover 33 1 {[ 0%nat ]}]
    ∧ (let mid := set_allNodes (<[32 := 1%nat]> (m_allNodes t1))
                    (alloc (mkEntry 32 (endpoint (Sample.peer 32)) 6 false 0) t1).2 in
       addNode (Sample.peer 32) Known 7300 t1
       = noteActiveNode 32 (Sample.from_peer 32) 7300 mid
       ∧ m_buckets mid !! 5%nat = Some [0%nat]
       ∧ noteActiveNode 32 (Sample.from_peer 32) 7300 mid = Some t2)
    ∧ m_buckets t2 !! 5%nat = Some [0%nat; 1%nat]
    ∧ weak_lock t2 0%nat = Some e0 ∧ weak_lock t2 1%nat = Some e1
    ∧ e_id e0 = 32 ∧ e_id e1 = 32
    ∧ pending e0 = false ∧ pending e1 = false.
Proof.
  eexists. eexists. eexists. eexists.
  split; [vm_compute; reflexivity|]. split; [vm_compute; reflexivity|].
  split; [vm_compute; reflexivity|].
  split; [cbn zeta; split; [reflexivity|]; split; vm_compute; reflexivity|].
  split; [vm_compute; reflexivity|].
  split; [vm_compute; reflexivity|]. split; [vm_compute; reflexivity|].
  repeat split.
Qed.

End SampleRuns.

(** * Further properties of the table *)

(** ** The queries [nodes], [snapshot] and [node] *)

Section Queries.
Context `{Externals}.

Lemma omap_length_le {A B} (f : A → option B) (l : list A) :
  (length (omap f l) ≤ length l)%nat.
Proof.
  induction l as [|x l IH]; [reflexivity|]. cbn. destruct (f x); simpl; lia.
Qed.

(** X1. On a well-formed table [nodes] lists the keys of [m_allNodes]: every
    id of the registry once, and no other id. *)
Theorem nodes_lists_registry (t : NodeTable) (Hok : table_ok t) :
  ∃ l, nodes t = Some l ∧ NoDup l
     ∧ (∀ i, i ∈ l ↔ is_Some (m_allNodes t !! i))
     ∧ length l = size (m_allNodes t).
Proof.
  exists ((map_to_list (m_allNodes t)).*1).
  split; [|split; [apply NoDup_fst_map_to_list|split]].
  - unfold nodes. apply mapM_Some_2, Forall2_fmap_r, Forall_Forall2_diag, Forall_forall.
    intros [i n] Hin. apply elem_of_map_to_list in Hin.
    destruct (ok_allNodes t Hok _ _ Hin) as (e & He & Hi). simpl. rewrite He. simpl.
    by rewrite Hi.
  - intros i. rewrite list_elem_of_fmap. split.
    + intros ([i' n] & -> & Hin). apply elem_of_map_to_list in Hin. eauto.
    + intros [n Hn]. exists (i, n). split; [reflexivity|]. by apply elem_of_map_to_list.
  - rewrite length_fmap. apply length_map_to_list.
Qed.

(** X2. On a well-formed table every entry that [snapshot] returns is not
    pending, is not the local node, and carries the distance of its id to
    the local id, between 1 and 256 when no other id has the local hash;
    there are at most [s_bucketSize] entries for each bucket. *)
Theorem snapshot_entries_active (t : NodeTable) (Hok : table_ok t) :
  (∀ e, e ∈ snapshot t →
     pending e = false ∧ e_id e ≠ id (m_hostNode t)
     ∧ e_distance e = distance (id (m_hostNode t)) (e_id e)
     ∧ (no_collision (id (m_hostNode t)) → 1 ≤ e_distance e ≤ 256))
  ∧ (length (snapshot t) ≤ s_bucketSize * Z.to_nat s_bins)%nat.
Proof.
  split.
  - intros e He. unfold snapshot in He. apply list_elem_of_In, in_flat_map in He
      as (s & Hs & He). apply list_elem_of_In in Hs, He.
    apply list_elem_of_lookup in Hs as [i Hi].
    destruct (ok_buckets t Hok _ _ Hi) as (_ & _ & Hall).
    apply list_elem_of_omap in He as (n & Hn & Hlock).
    unfold weak_lock in Hlock. destruct (owned t n); [|discriminate].
    destruct (Hall n Hn) as (e' & He' & Hid & Hp & _).
    assert (e' = e) by congruence. subst e'.
    destruct (ok_heap t Hok _ _ Hlock) as [Hd _].
    repeat (split; [assumption|]). intros Hc. rewrite Hd.
    apply distance_positive; assumption.
  - unfold snapshot. rewrite <- (ok_bins t Hok).
    assert (Hb : Forall (λ s, (length s ≤ s_bucketSize)%nat) (m_buckets t)).
    { apply Forall_forall. intros s Hs. apply list_elem_of_lookup in Hs as [i Hi].
      apply (ok_buckets t Hok _ _ Hi). }
    induction Hb as [|s l Hs Hl IH]; [simpl; lia|]. cbn [flat_map length].
    rewrite length_app. pose proof (omap_length_le (weak_lock t) s) as Ho. lia.
Qed.

End Queries.

(** ** More on addNode and noteActiveNode *)

Section Registry.
Context `{Externals}.

(** What [noteActiveNode] does to the entry of the id it is called for. *)
Lemma noteActiveNode_entry pubk ep now t t' a e :
  noteActiveNode pubk ep now t = Some t' →
  m_allNodes t !! pubk = Some a → m_heap t !! a = Some e →
  m_heap t' !! a = Some e
  ∨ m_heap t' !! a
    = Some (mkEntry (e_id e)
              (mkEndpoint (udp_address ep) (udp_port ep) (tcpPort (e_endpoint e)))
              (e_distance e) false (e_peerType e))
      ∧ pending e = false.
Proof.
  intros Hn Ha He. revert Hn. unfold noteActiveNode, nodeEntry.
  destruct (_ || _); [intros [= <-]; auto|]. rewrite Ha, He. cbn [mbind option_bind].
  destruct (pending e) eqn:Ep; [intros [= <-]; auto|].
  destruct (bucket_UNSAFE _) as [i|]; cbn [mbind option_bind]; [|discriminate].
  cbn [m_buckets set_heap].
  destruct (m_buckets t !! i) as [ns|]; cbn [mbind option_bind]; [|discriminate].
  assert (Hupd : ∀ x, <[a := x]> (m_heap t) !! a = Some x) by (intros; apply lookup_insert_eq).
  destruct (bool_decide _); [intros [= <-]; cbn; auto|].
  destruct (_ <? _)%nat.
  { intros [= <-]. unfold appendEvent. cbn [m_nodeEventHandler set_buckets set_heap].
    destruct (m_nodeEventHandler t); cbn; auto. }
  destruct ns as [|front rest]; [discriminate|].
  destruct (weak_lock _ front) as [le|]; intros [= <-].
  - unfold evict. cbn [m_socketOpen set_heap]. destruct (m_socketOpen t); cbn [negb];
      [|cbn; auto]. destruct (_ =? 1)%nat; cbn; auto.
  - unfold appendEvent. cbn [m_nodeEventHandler set_buckets set_heap].
    destruct (m_nodeEventHandler t); cbn; auto.
Qed.

(** X3. Insert, then look up.  After [addNode(n, Known)] the query
    [node(n.id)] answers the id and the endpoint of [n] with the peer type
    of a node constructed without one: the peer type of [n] is not stored,
    and the answer is [n] itself exactly when [n] has that peer type.  After
    [addNode(n, Unknown)] the same holds for a node with an endpoint and an
    id that was not in the registry, and the registry has grown by exactly
    that id. *)
Theorem addNode_then_node (n : Node) (now : Z) (t : NodeTable)
    (Hok : table_ok t) (Hc : no_collision (id (m_hostNode t))) :
  (∃ t', addNode n Known now t = Some t'
       ∧ node (id n) t' = Some (mkNode (id n) (endpoint n) defaultPeerType)
       ∧ (node (id n) t' = Some n ↔ peerType n = defaultPeerType))
  ∧ (endpointSet (endpoint n) = true → id n ≠ 0 → m_allNodes t !! id n = None →
     ∃ t', addNode n Unknown now t = Some t'
         ∧ node (id n) t' = Some (mkNode (id n) (endpoint n) defaultPeerType)
         ∧ (node (id n) t' = Some n ↔ peerType n = defaultPeerType)
         ∧ m_allNodes t' = <[id n := m_next t]> (m_allNodes t)).
Proof.
  assert (Hsame : ∀ r : option Node,
            r = Some (mkNode (id n) (endpoint n) defaultPeerType) →
            (r = Some n ↔ peerType n = defaultPeerType)).
  { intros r ->. destruct n as [i ep pt]. cbn. split; [intros [= ->] | intros ->]; reflexivity. }
  split.
  - destruct (addNode_ok n Known now t Hok Hc) as (t' & Ht' & _).
    exists t'. split; [exact Ht'|].
    assert (Hnode : node (id n) t' = Some (mkNode (id n) (endpoint n) defaultPeerType)).
    { unfold addNode in Ht'. cbn [alloc] in Ht'.
      destruct (noteActiveNode_frame _ _ _ _ _ Ht') as (Ha & _).
      unfold node. rewrite Ha. cbn [m_allNodes set_allNodes]. rewrite lookup_insert_eq.
      match type of Ht' with noteActiveNode _ _ _ ?mid = _ =>
        destruct (noteActiveNode_entry _ _ _ mid t' (m_next t)
                    (mkEntry (id n) (endpoint n)
                       (distance (id (m_hostNode t)) (id n)) false defaultPeerType) Ht')
          as [-> | [-> _]]
      end.
      + cbn. apply lookup_insert_eq.
      + cbn. apply lookup_insert_eq.
      + cbn. reflexivity.
      + cbn. destruct n as [i [a u p] pt]. reflexivity. }
    split; [exact Hnode | exact (Hsame _ Hnode)].
  - intros Hep Hid Hnew. unfold addNode. rewrite Hep. cbn [negb orb].
    destruct (id n =? 0) eqn:E; [apply Z.eqb_eq in E; contradiction|].
    rewrite bool_decide_eq_false_2 by (rewrite Hnew; apply is_Some_None).
    eexists. split; [reflexivity|].
    match goal with |- ?g ∧ _ => assert (Hnode : g) end.
    { unfold node. cbn. rewrite !lookup_insert_eq. cbn. reflexivity. }
    split; [exact Hnode|]. split; [exact (Hsame _ Hnode) | reflexivity].
Qed.

(** X4. [addNode(n, Unknown)] a second time does nothing: whatever the
    first call did, the table after the second call is the table after the
    first; in particular no second Ping is sent. *)
Theorem addNode_unknown_idempotent (n : Node) (now now' : Z) (t : NodeTable) :
  ∃ t1, addNode n Unknown now t = Some t1 ∧ addNode n Unknown now' t1 = Some t1.
Proof.
  unfold addNode. destruct (negb (endpointSet (endpoint n)) || (id n =? 0)) eqn:Eg.
  { exists t. auto. }
  destruct (bool_decide (is_Some (m_allNodes t !! id n))) eqn:Ep.
  { exists t. rewrite Ep. auto. }
  eexists. split; [reflexivity|]. cbn.
  rewrite lookup_insert_eq. rewrite bool_decide_eq_true_2 by eauto. reflexivity.
Qed.

(** X5. A newcomer to a full bucket.  [noteActiveNode] for a registered,
    non-pending node that is not in its bucket, when the bucket is full and
    its front entry still locks, on an open socket: the bucket and the
    events stay as they are, one Ping goes to the front entry, and a probe
    keyed by the front entry's id is in [m_evictions], naming the newcomer
    and [now] unless a probe for that id was there already, which is kept. *)
Theorem full_bucket_starts_probe (pubk : Public) (ep : UdpEndpoint) (now : Z)
    (t : NodeTable) (a : nat) (e : NodeEntry) (front : nat) (rest : list nat)
    (Hok : table_ok t) (Hc : no_collision (id (m_hostNode t)))
    (Hhost : pubk ≠ id (m_hostNode t))
    (Hallowed : isAllowed (mkEndpoint (udp_address ep) (udp_port ep) (udp_port ep)) = true)
    (Ha : m_allNodes t !! pubk = Some a) (He : m_heap t !! a = Some e)
    (Hp : pending e = false)
    (Hb : m_buckets t !! Z.to_nat (e_distance e - 1) = Some (front :: rest))
    (Hfull : (s_bucketSize ≤ length (front :: rest))%nat)
    (Hnew : a ∉ front :: rest)
    (Hlive : owned t front = true)
    (Hopen : m_socketOpen t = true) :
  ∃ t' le, noteActiveNode pubk ep now t = Some t'
    ∧ m_heap t !! front = Some le
    ∧ m_buckets t' = m_buckets t
    ∧ m_allNodes t' = m_allNodes t
    ∧ m_events t' = m_events t
    ∧ m_sent t' = m_sent t ++ [OutPing (endpoint (m_hostNode t)) (e_endpoint le)]
    ∧ (m_evictions t !! e_id le = None →
         m_evictions t' = <[e_id le := mkEvict pubk now]> (m_evictions t))
    ∧ (is_Some (m_evictions t !! e_id le) → m_evictions t' = m_evictions t).
Proof.
  destruct (ok_buckets t Hok _ _ Hb) as (_ & _ & Hall).
  destruct (Hall front) as (le & Hle & _); [left|].
  destruct (ok_allNodes t Hok _ _ Ha) as (e0 & He0 & Hid).
  assert (e0 = e) by congruence. subst e0.
  assert (Hfa : front ≠ a) by (intros ->; apply Hnew; left).
  assert (Hd : 1 ≤ e_distance e ≤ 256).
  { destruct (ok_heap t Hok _ _ He) as [-> _]. apply distance_positive; [exact Hc | congruence]. }
  unfold noteActiveNode, nodeEntry.
  destruct (pubk =? id (m_hostNode t)) eqn:E; [apply Z.eqb_eq in E; contradiction|].
  rewrite Hallowed, Ha, He. cbn [negb orb mbind option_bind]. rewrite Hp.
  set (e' := mkEntry (e_id e) _ (e_distance e) false (e_peerType e)).
  rewrite (bucket_UNSAFE_Some e' Hd). cbn [mbind option_bind m_buckets set_heap e' e_distance].
  rewrite Hb. cbn [mbind option_bind].
  rewrite bool_decide_eq_false_2 by exact Hnew.
  destruct (length (front :: rest) <? s_bucketSize)%nat eqn:El;
    [apply Nat.ltb_lt in El; lia|].
  assert (Hlock : weak_lock (set_heap (<[a := e']> (m_heap t)) t) front = Some le).
  { unfold weak_lock. change (owned (set_heap (<[a := e']> (m_heap t)) t) front)
      with (owned t front). rewrite Hlive. cbn. rewrite lookup_insert_ne by auto. exact Hle. }
  rewrite Hlock. exists (evict le e' now (set_heap (<[a := e']> (m_heap t)) t)), le.
  split; [reflexivity|]. split; [exact Hle|].
  unfold evict. cbn [m_socketOpen set_heap]. rewrite Hopen. cbn [negb].
  assert (Hfields : ∀ s : NodeTable,
    m_buckets (ping (e_endpoint le) s) = m_buckets s
    ∧ m_allNodes (ping (e_endpoint le) s) = m_allNodes s
    ∧ m_events (ping (e_endpoint le) s) = m_events s
    ∧ m_sent (ping (e_endpoint le) s)
      = m_sent s ++ [OutPing (endpoint (m_hostNode s)) (e_endpoint le)]
    ∧ m_evictions (ping (e_endpoint le) s) = m_evictions s) by (intros; cbn; auto).
  match goal with |- context [ping (e_endpoint le) ?s] =>
    destruct (Hfields s) as (-> & -> & -> & -> & ->) end.
  destruct (_ =? 1)%nat; cbn; (repeat (split; [reflexivity|])); unfold emplace;
    (split; [intros ->; rewrite Hid; reflexivity | intros [old ->]; reflexivity]).
Qed.

Lemma remove_first_last a l : a ∉ l → remove_first a (l ++ [a]) = l.
Proof.
  induction l as [|b l IH]; intros Ha; cbn [app remove_first].
  - by rewrite Nat.eqb_refl.
  - destruct (a =? b)%nat eqn:E.
    + apply Nat.eqb_eq in E. subst b. exfalso. apply Ha. left.
    + f_equal. apply IH. intros Hin. apply Ha. right. exact Hin.
Qed.

Lemma remove_first_gone a l : NoDup l → a ∉ remove_first a l.
Proof.
  induction 1 as [|b l Hb Hnd IH]; cbn [remove_first]; [apply not_elem_of_nil|].
  destruct (a =? b)%nat eqn:E.
  - apply Nat.eqb_eq in E. subst b. exact Hb.
  - apply Nat.eqb_neq in E. apply not_elem_of_cons. auto.
Qed.

(** X6. [noteActiveNode] is idempotent once the entry is placed: when a
    call did not start an eviction (it sent nothing), a second call for the
    same id and endpoint, at any later time, leaves the table exactly as the
    first call left it: the entry stays once, at the tail of its bucket,
    and no further event is appended. *)
Theorem noteActiveNode_idempotent (pubk : Public) (ep : UdpEndpoint) (now now' : Z)
    (t t1 : NodeTable)
    (Hok : table_ok t)
    (Hn : noteActiveNode pubk ep now t = Some t1)
    (Hsent : m_sent t1 = m_sent t) :
  noteActiveNode pubk ep now' t1 = Some t1.
Proof.
  revert Hn Hsent. unfold noteActiveNode, nodeEntry.
  destruct (_ || _) eqn:Eg; [intros [= <-] _; rewrite Eg; reflexivity|].
  destruct (m_allNodes t !! pubk) as [a|] eqn:Ea;
    [|intros [= <-] _; rewrite Eg, Ea; reflexivity].
  destruct (m_heap t !! a) as [e|] eqn:He; cbn [mbind option_bind]; [|discriminate].
  destruct (pending e) eqn:Ep.
  { intros [= <-] _. rewrite Eg, Ea, He. cbn [mbind option_bind]. rewrite Ep. reflexivity. }
  set (e' := mkEntry (e_id e) _ (e_distance e) false (e_peerType e)).
  destruct (bucket_UNSAFE e') as [i|] eqn:Ei; cbn [mbind option_bind]; [|discriminate].
  cbn [m_buckets set_heap].
  destruct (m_buckets t !! i) as [nodes|] eqn:Hb; cbn [mbind option_bind]; [|discriminate].
  destruct (ok_buckets t Hok _ _ Hb) as (_ & Hnd & _).
  assert (Hi : (i < length (m_buckets t))%nat) by (eapply lookup_lt_Some; exact Hb).
  assert (Hhd : ∀ b s, m_nodeEventHandler s = b →
            appendEvent (e_id e') NodeEntryAdded s
            = if b then set_events (m_events s ++ [(e_id e', NodeEntryAdded)]) s else s).
  { intros b s <-. reflexivity. }
  (* the second call on a table whose bucket [i] is [l], with the entry in it *)
  assert (Hagain : ∀ l s,
    id (m_hostNode s) = id (m_hostNode t) → m_allNodes s = m_allNodes t →
    m_heap s = <[a := e']> (m_heap t) →
    m_buckets s = <[i := l ++ [a]]> (m_buckets t) → a ∉ l →
    noteActiveNode pubk ep now' s = Some s).
  { intros l s Hh Hal Hhp Hbk Hl. unfold noteActiveNode, nodeEntry.
    rewrite Hh, Eg, Hal, Ea, Hhp, lookup_insert_eq. cbn [mbind option_bind pending].
    change (mkEntry (e_id e') _ (e_distance e') (pending e') (e_peerType e')) with e'.
    rewrite Ei. cbn [mbind option_bind m_buckets set_heap].
    rewrite Hbk, list_lookup_insert_eq by exact Hi. cbn [mbind option_bind].
    rewrite bool_decide_eq_true_2 by (apply elem_of_app; right; left).
    rewrite remove_first_last by exact Hl.
    rewrite insert_insert_eq, list_insert_insert_eq, <- Hhp, <- Hbk.
    destruct s. reflexivity. }
  destruct (bool_decide (a ∈ nodes)) eqn:Ein.
  - apply bool_decide_eq_true in Ein. intros [= <-] _.
    apply (Hagain (remove_first a nodes)); try reflexivity.
    apply remove_first_gone, Hnd.
  - apply bool_decide_eq_false in Ein.
    destruct (length nodes <? s_bucketSize)%nat eqn:El.
    + intros [= <-] _. rewrite (Hhd (m_nodeEventHandler t)) by reflexivity.
      destruct (m_nodeEventHandler t);
        apply (Hagain nodes); try reflexivity; exact Ein.
    + destruct nodes as [|front rest]; [discriminate|].
      destruct (weak_lock _ front) as [le|] eqn:Elock.
      * intros [= <-]. unfold evict. cbn [m_socketOpen set_heap].
        destruct (m_socketOpen t) eqn:Eo; cbn [negb].
        { intros Hs. exfalso. revert Hs. destruct (_ =? 1)%nat; cbn; intros Hs;
            apply (f_equal length) in Hs; rewrite length_app in Hs; simpl in Hs; lia. }
        intros _. unfold noteActiveNode, nodeEntry.
        cbn [m_hostNode m_allNodes m_heap set_heap]. rewrite Eg, Ea, lookup_insert_eq.
        cbn [mbind option_bind pending].
        change (mkEntry (e_id e') _ (e_distance e') (pending e') (e_peerType e')) with e'.
        rewrite Ei. cbn [mbind option_bind m_buckets set_heap]. rewrite Hb.
        cbn [mbind option_bind]. rewrite bool_decide_eq_false_2 by exact Ein.
        rewrite El, insert_insert_eq.
        change (set_heap (<[a := e']> (m_heap t)) (set_heap (<[a := e']> (m_heap t)) t))
          with (set_heap (<[a := e']> (m_heap t)) t).
        rewrite Elock. unfold evict. cbn [m_socketOpen set_heap]. rewrite Eo. reflexivity.
      * intros [= <-] _. rewrite (Hhd (m_nodeEventHandler t)) by reflexivity.
        apply not_elem_of_cons in Ein as [_ Ein].
        destruct (m_nodeEventHandler t);
          apply (Hagain rest); try reflexivity; exact Ein.
Qed.

End Registry.

(** ** Nearest entries and the answer to FindNode *)

Section Nearest.
Context `{Externals}.

Lemma scan_collected target i t : Forall (collected target t) (scan target i t).
Proof.
  apply Forall_forall. intros [d n] Hin. unfold scan in Hin.
  apply list_elem_of_omap in Hin as (x & Hx & Hf).
  destruct (m_buckets t !! Z.to_nat i) as [s|] eqn:Hs; [|inversion Hx].
  cbn [default] in Hx. destruct (weak_lock t x) as [p|] eqn:Hp; [|discriminate].
  injection Hf as <- <-. exists p. split; [exact Hp|]. split; [reflexivity|].
  exists s. split; [eapply list_elem_of_lookup_2; exact Hs | exact Hx].
Qed.

Lemma spread_collected target t : ∀ fuel head tail found,
  Forall (collected target t) found →
  Forall (collected target t) (spread fuel target head tail found t).
Proof.
  induction fuel as [|fuel IH]; intros head tail found Hf; cbn [spread]; [exact Hf|].
  destruct (_ && _); [|exact Hf]. apply IH.
  destruct (tail =? 0); rewrite ?Forall_app; auto using scan_collected.
Qed.

Lemma forward_collected target t : ∀ fuel head found,
  Forall (collected target t) found →
  Forall (collected target t) (forward fuel target head found t).
Proof.
  induction fuel as [|fuel IH]; intros head found Hf; cbn [forward]; [exact Hf|].
  destruct (_ <? _); [|exact Hf]. apply IH. rewrite Forall_app. auto using scan_collected.
Qed.

Lemma reverse_walk_collected target t : ∀ fuel tail found,
  Forall (collected target t) found →
  Forall (collected target t) (reverse_walk fuel target tail found t).
Proof.
  induction fuel as [|fuel IH]; intros tail found Hf; cbn [reverse_walk]; [exact Hf|].
  destruct (_ <? _); [|exact Hf]. apply IH. rewrite Forall_app. auto using scan_collected.
Qed.

Lemma StronglySorted_sublist {A} (R : relation A) (l1 l2 : list A) :
  l1 `sublist_of` l2 → StronglySorted R l2 → StronglySorted R l1.
Proof.
  induction 1 as [|x l1 l2 Hs IH|x l1 l2 Hs IH]; intros Hl2; [constructor| |].
  - apply StronglySorted_cons in Hl2 as [Hx Hl2]. apply StronglySorted_cons.
    split; [|auto]. apply Forall_forall. intros y Hy.
    eapply Forall_forall; [exact Hx|]. eapply elem_of_sublist; eassumption.
  - apply StronglySorted_cons in Hl2 as [_ Hl2]. auto.
Qed.

(** Chunks taken in the order of ascending keys are sorted by key. *)
Lemma flat_map_seqZ_sorted (g : Z → list nat) (k : nat → Z) :
  (∀ d n, n ∈ g d → k n = d) →
  ∀ len m,
    StronglySorted (λ x y, k x ≤ k y) (flat_map g (seqZ m (Z.of_nat len)))
    ∧ ∀ n, n ∈ flat_map g (seqZ m (Z.of_nat len)) → m ≤ k n.
Proof.
  intros Hg. induction len as [|len IH]; intros m.
  - simpl. split; [constructor|]. intros n Hn. inversion Hn.
  - rewrite seqZ_cons by lia. replace (Z.pred (Z.of_nat (S len))) with (Z.of_nat len) by lia.
    cbn [flat_map]. destruct (IH (Z.succ m)) as [Hs Hge]. split.
    + apply StronglySorted_app_2; [| |exact Hs].
      * intros x y Hx Hy. rewrite (Hg m x Hx). specialize (Hge y Hy). lia.
      * assert (Hall : Forall (λ x, k x = m) (g m))
          by (apply Forall_forall; intros x Hx; apply (Hg m x Hx)).
        induction Hall as [|x l Hx Hl IHl]; [constructor|].
        apply StronglySorted_cons. split; [|exact IHl].
        apply Forall_forall. intros y Hy. eapply Forall_forall in Hl; [|exact Hy]. lia.
    + intros n Hn. apply elem_of_app in Hn as [Hn|Hn].
      * rewrite (Hg m n Hn). lia.
      * specialize (Hge n Hn). lia.
Qed.

(** X7. [nearestNodeEntries] returns at most [s_bucketSize] entries; each
    is an entry of some bucket that still locks, with a set and allowed
    endpoint; and the entries come in order of ascending distance of their
    id to the target. *)
Theorem nearestNodeEntries_sorted_live (target : NodeID) (t : NodeTable) :
  let r := nearestNodeEntries target t in
  (length r ≤ s_bucketSize)%nat
  ∧ (∀ n, n ∈ r →
       ∃ e, weak_lock t n = Some e ∧ endpointSet (e_endpoint e) = true
          ∧ isAllowed (e_endpoint e) = true ∧ ∃ s, s ∈ m_buckets t ∧ n ∈ s)
  ∧ StronglySorted (λ n m, key_of target t n ≤ key_of target t m) r.
Proof.
  cbn zeta. unfold nearestNodeEntries. cbn zeta.
  set (head := distance (id (m_hostNode t)) target).
  set (tail := if head =? 0 then s_bins - 1 else (head - 1) `mod` s_bins).
  set (found := if (1 <? head) && negb (tail =? s_bins - 1)
                then spread (Z.to_nat (s_bins - head)) target head tail [] t
                else if head <? 2
                     then forward (Z.to_nat (s_bins - head)) target head [] t
                     else reverse_walk (Z.to_nat tail) target tail [] t).
  assert (Hfound : Forall (collected target t) found).
  { unfold found. destruct (_ && _); [|destruct (head <? 2)];
      auto using spread_collected, forward_collected, reverse_walk_collected. }
  assert (Hin : ∀ d n, n ∈ (filter (λ kv, kv.1 = d) found).*2 →
                       ∃ kv, kv ∈ found ∧ kv.1 = d ∧ kv.2 = n).
  { intros d n Hn. apply list_elem_of_fmap in Hn as (kv & -> & Hkv).
    apply list_elem_of_filter in Hkv as [Hd Hkv]. eauto. }
  assert (Hko : ∀ n, n ∈ in_key_order found → ∃ kv, kv ∈ found ∧ kv.2 = n).
  { intros n Hn. unfold in_key_order in Hn.
    apply list_elem_of_In, in_flat_map in Hn as (d & _ & Hn). apply list_elem_of_In in Hn.
    destruct (Hin d n Hn) as (kv & ? & _ & ?). eauto. }
  split; [rewrite length_take; lia|]. split.
  - intros n Hn. apply elem_of_take in Hn as (j & Hn & _).
    apply list_elem_of_lookup_2, list_elem_of_filter in Hn as [Hs Hn].
    destruct (Hko n Hn) as (kv & Hkv & <-).
    eapply Forall_forall in Hfound; [|exact Hkv].
    destruct Hfound as (p & Hlock & _ & Hb). exists p. split; [exact Hlock|].
    unfold sendable in Hs. unfold weak_lock in Hlock.
    destruct (owned t kv.2); [|discriminate]. rewrite Hlock in Hs.
    apply andb_true_iff in Hs as [? ?]. auto.
  - eapply StronglySorted_sublist; [apply sublist_take|].
    eapply StronglySorted_sublist; [apply sublist_filter|].
    unfold in_key_order. change (s_bins + 1) with (Z.of_nat 257).
    apply flat_map_seqZ_sorted. intros d n Hn.
    destruct (Hin d n Hn) as (kv & Hkv & <- & <-).
    eapply Forall_forall in Hfound; [|exact Hkv].
    destruct Hfound as (p & Hlock & -> & _). unfold key_of, weak_lock in *.
    destruct (owned t kv.2); [|discriminate]. by rewrite Hlock.
Qed.

End Nearest.

Section FindNodeAnswer.
Context `{Externals}.

Lemma foldl_send_eq {A} (f : A → OutPacket) (l : list A) : ∀ t,
  foldl (λ t' b, send (f b) t') t l = set_sent (m_sent t ++ map f l) t.
Proof.
  induction l as [|b l IH]; intros t; cbn [foldl map].
  - destruct t. cbn. by rewrite app_nil_r.
  - rewrite IH. destruct t. cbn. by rewrite <- app_assoc.
Qed.

Lemma batches_concat {A} : ∀ fuel (l : list A),
  (length l ≤ fuel)%nat → concat (batches fuel l) = l.
Proof.
  induction fuel as [|fuel IH]; intros l Hl; cbn [batches].
  - destruct l; [reflexivity | simpl in Hl; lia].
  - destruct l as [|x l]; [reflexivity|]. cbn [concat]. rewrite IH.
    + apply take_drop.
    + rewrite length_drop. assert (nlimit = 13%nat) as -> by reflexivity. simpl in *. lia.
Qed.

Lemma batches_sizes {A} : ∀ fuel (l : list A),
  Forall (λ b, (0 < length b ≤ nlimit)%nat) (batches fuel l).
Proof.
  induction fuel as [|fuel IH]; intros l; cbn [batches]; [constructor|].
  destruct l as [|x l]; constructor; [|apply IH].
  rewrite length_take. assert (nlimit = 13%nat) as -> by reflexivity. cbn [length]. lia.
Qed.

Lemma batches_count {A} (fuel : nat) (l : list A) :
  (length l ≤ 2 * nlimit)%nat → (length (batches fuel l) ≤ 2)%nat.
Proof.
  assert (Hn : nlimit = 13%nat) by reflexivity. intros Hl.
  destruct fuel as [|fuel]; cbn [batches]; [simpl; lia|].
  destruct l as [|x l]; [simpl; lia|]. cbn [length].
  destruct fuel as [|fuel]; cbn [batches]; [simpl; lia|].
  destruct (drop nlimit (x :: l)) as [|y l'] eqn:Ed; [simpl; lia|]. cbn [length].
  assert (Hd : (length (y :: l') ≤ nlimit)%nat).
  { rewrite <- Ed, length_drop. lia. }
  replace (drop nlimit (y :: l')) with (@nil A).
  - destruct fuel; simpl; lia.
  - symmetry. apply drop_ge. exact Hd.
Qed.

Lemma omap_concat {A B} (f : A → option B) (ls : list (list A)) :
  concat (map (omap f) ls) = omap f (concat ls).
Proof.
  induction ls as [|l ls IH]; [reflexivity|]. cbn [map concat].
  rewrite IH. symmetry. apply omap_app.
Qed.

Lemma omap_total_length {A B} (f : A → option B) (l : list A) :
  (∀ x, x ∈ l → is_Some (f x)) → length (omap f l) = length l.
Proof.
  induction l as [|x l IH]; intros Hl; [reflexivity|].
  destruct (Hl x) as [y Hy]; [left|]. rewrite (omap_cons_Some f x y l Hy).
  cbn [length]. f_equal. apply IH. intros z Hz. apply Hl. right. exact Hz.
Qed.

(** X8. The answer to a FindNode.  The handler sends only Neighbours
    datagrams to the asker and changes nothing else in the table; read one
    after the other, the datagrams carry the endpoint and id of every entry
    of [nearestNodeEntries(target)], in its order; each datagram carries
    between 1 and 13 entries, and there are at most two datagrams. *)
Theorem on_FindNode_answers (from : UdpEndpoint) (target : NodeID) (t : NodeTable) :
  let nearest := nearestNodeEntries target t in
  ∃ bs, on_FindNode from target t
        = Some (set_sent (m_sent t ++ map (OutNeighbours from) bs) t)
      ∧ Forall2 (λ n x, ∃ e, m_heap t !! n = Some e ∧ x = (e_endpoint e, e_id e))
          nearest (concat bs)
      ∧ Forall (λ b, (0 < length b ≤ 13)%nat) bs
      ∧ (length bs ≤ 2)%nat.
Proof.
  intros nearest.
  assert (Hheap : ∀ n, n ∈ nearest → is_Some (neighbour_of t n)).
  { intros n Hn. destruct (nearest_in_heap target t n Hn) as [e He].
    unfold neighbour_of. rewrite He. eauto. }
  exists (map (omap (neighbour_of t)) (batches (length nearest) nearest)).
  split; [|split; [|split]].
  - unfold on_FindNode. fold nearest. rewrite foldl_send_eq, map_map. reflexivity.
  - rewrite omap_concat, batches_concat by lia. clear -Hheap.
    induction nearest as [|n l IH]; [constructor|].
    destruct (Hheap n) as [x Hx]; [left|]. rewrite (omap_cons_Some _ n x l Hx).
    constructor.
    + unfold neighbour_of in Hx. destruct (m_heap t !! n) as [e|]; [|discriminate].
      injection Hx as <-. eauto.
    + apply IH. intros z Hz. apply Hheap. right. exact Hz.
  - pose proof (batches_sizes (length nearest) nearest) as Hs.
    pose proof (batches_concat (length nearest) nearest ltac:(lia)) as Hc.
    assert (Hsub : ∀ b, b ∈ batches (length nearest) nearest → ∀ n, n ∈ b → n ∈ nearest).
    { intros b Hb n Hn. rewrite <- Hc. apply list_elem_of_In, in_concat.
      exists b. split; apply list_elem_of_In; assumption. }
    apply Forall_fmap, Forall_forall. intros b Hb. cbn.
    rewrite omap_total_length by (intros n Hn; apply Hheap, (Hsub b Hb n Hn)).
    eapply Forall_forall in Hs; [|exact Hb]. assert (nlimit = 13%nat) as Hn by reflexivity.
    rewrite Hn in Hs. exact Hs.
  - rewrite length_map. apply batches_count.
    assert (Hl : (length nearest ≤ s_bucketSize)%nat)
      by (unfold nearest, nearestNodeEntries; rewrite length_take; lia).
    assert (nlimit = 13%nat) as -> by reflexivity. unfold s_bucketSize in Hl. lia.
Qed.

End FindNodeAnswer.

(** ** Decoded datagrams *)

Section Decoded.
Context `{Externals}.

(** The class of a packet body, as its type byte. *)
Lemma decoded_or_thrown_Decoded {A} (r : option (A * Z)) k p :
  decoded_or_thrown r k = Decoded p → ∃ a stamp, r = Some (a, stamp) ∧ p = k a stamp.
Proof. destruct r as [[a s]|]; [intros [= <-]; eauto | discriminate]. Qed.

(** X9. A datagram that [interpretUDP] decodes has at least 101 bytes; its
    source id is the recovered signer and is not the zero key; its echo is
    the leading 32 bytes, which are the hash of the rest; and its class and
    fields are those the RLP decoder of the class named by the type byte
    reads from the bytes after it. *)
Theorem interpretUDP_decoded (packet : list Z) (p : DiscoveryDatagram)
    (Hdec : interpretUDP packet = Decoded p) :
  (101 ≤ length packet)%nat
  ∧ sourceid p = recover (take 65 (drop 32 packet)) (sha3_bytes (drop 97 packet))
  ∧ sourceid p ≠ 0
  ∧ echo p = take 32 packet
  ∧ echo p = sha3_bytes (drop 32 packet)
  ∧ match body p with
    | PingNode s d => drop 97 packet !!! 0%nat = 1
                      ∧ rlp_PingNode (drop 98 packet) = Some (s, d, ts p)
    | Pong d => drop 97 packet !!! 0%nat = 2
                ∧ rlp_Pong (drop 98 packet) = Some (d, ts p)
    | FindNode g => drop 97 packet !!! 0%nat = 3
                    ∧ rlp_FindNode (drop 98 packet) = Some (g, ts p)
    | Neighbours ns => drop 97 packet !!! 0%nat = 4
                       ∧ rlp_Neighbours (drop 98 packet) = Some (ns, ts p)
    end.
Proof.
  rewrite interpretUDP_unfold in Hdec.
  destruct (length packet <? 101)%nat eqn:El; [discriminate|]. apply Nat.ltb_ge in El.
  destruct (bool_decide (take 32 packet = sha3_bytes (drop 32 packet))) eqn:Eh;
    [|discriminate]. apply bool_decide_eq_true in Eh. cbn [negb] in Hdec. cbn zeta in Hdec.
  destruct (recover _ _ =? 0) eqn:Er; [discriminate|]. apply Z.eqb_neq in Er.
  set (ty := drop 97 packet !!! 0%nat) in *.
  destruct (ty =? 1) eqn:E1; [|destruct (ty =? 2) eqn:E2;
    [|destruct (ty =? 3) eqn:E3; [|destruct (ty =? 4) eqn:E4; [|discriminate]]]].
  - apply Z.eqb_eq in E1. apply decoded_or_thrown_Decoded in Hdec as ([s d] & stamp & Hr & ->).
    cbn. repeat (split; [assumption || reflexivity || congruence|]). auto.
  - apply Z.eqb_eq in E2. apply decoded_or_thrown_Decoded in Hdec as (d & stamp & Hr & ->).
    cbn. repeat (split; [assumption || reflexivity || congruence|]). auto.
  - apply Z.eqb_eq in E3. apply decoded_or_thrown_Decoded in Hdec as (g & stamp & Hr & ->).
    cbn. repeat (split; [assumption || reflexivity || congruence|]). auto.
  - apply Z.eqb_eq in E4. apply decoded_or_thrown_Decoded in Hdec as (ns & stamp & Hr & ->).
    cbn. repeat (split; [assumption || reflexivity || congruence|]). auto.
Qed.

End Decoded.

(** ** Ping, Pong and Neighbours, end to end *)

Section EndToEnd.
Context `{Externals}.

Lemma addNode_unknown_grows n now t t' :
  addNode n Unknown now t = Some t' →
  m_buckets t' = m_buckets t
  ∧ (∀ i a, m_allNodes t !! i = Some a → m_allNodes t' !! i = Some a)
  ∧ (endpointSet (endpoint n) = true → id n ≠ 0 → is_Some (m_allNodes t' !! id n))
  ∧ (m_sent t' = m_sent t
     ∨ m_sent t' = m_sent t ++ [OutPing (endpoint (m_hostNode t)) (endpoint n)]).
Proof.
  unfold addNode. destruct (negb (endpointSet (endpoint n))) eqn:Es; cbn [orb].
  { intros [= <-]. split; [reflexivity|]. split; [auto|]. split; [|auto].
    intros Hs. rewrite Hs in Es. discriminate. }
  destruct (id n =? 0) eqn:Ez.
  { intros [= <-]. split; [reflexivity|]. split; [auto|]. split; [|auto].
    intros _ Hz. apply Z.eqb_eq in Ez. contradiction. }
  destruct (bool_decide (is_Some (m_allNodes t !! id n))) eqn:Ep.
  { intros [= <-]. apply bool_decide_eq_true in Ep. auto. }
  apply bool_decide_eq_false in Ep. intros [= <-]. cbn.
  split; [reflexivity|]. split; [|split; [|auto]].
  - intros i a Hi. rewrite lookup_insert_ne; [exact Hi|]. intros <-. apply Ep. eauto.
  - intros _ _. rewrite lookup_insert_eq. eauto.
Qed.

Lemma addNodes_grows ns now : ∀ t t',
  addNodes ns now t = Some t' →
  m_buckets t' = m_buckets t
  ∧ (∀ i a, m_allNodes t !! i = Some a → m_allNodes t' !! i = Some a)
  ∧ (∀ x, x ∈ ns → endpointSet x.1 = true → x.2 ≠ 0 → is_Some (m_allNodes t' !! x.2)).
Proof.
  induction ns as [|n ns IH]; intros t t'; cbn [addNodes].
  - intros [= <-]. split; [reflexivity|]. split; [auto|]. intros x Hx. inversion Hx.
  - destruct (addNode (mkNode n.2 n.1 defaultPeerType) Unknown now t) as [t1|] eqn:E1;
      cbn [mbind option_bind]; [|discriminate].
    intros E2. destruct (addNode_unknown_grows _ _ _ _ E1) as (Hb1 & Ha1 & Hn1 & _).
    destruct (IH t1 t' E2) as (Hb2 & Ha2 & Hn2).
    split; [congruence|]. split; [auto|].
    intros x Hx Hs Hz. apply elem_of_cons in Hx as [->|Hx]; [|auto].
    destruct (Hn1 Hs Hz) as [a Ha]. exists a. apply Ha2. exact Ha.
Qed.

(** X10. A Neighbours packet that answers a query younger than
    [c_reqTimeout]: every listed neighbour with a set endpoint and a
    non-zero id is in the registry afterwards; the entries that were there
    stay as they are, and no bucket changes (the new ones wait for their
    Pong). *)
Theorem solicited_neighbours_registered (src : NodeID)
    (ns : list (NodeIPEndpoint * NodeID)) (now : Z) (t : NodeTable)
    (Hfresh : ∃ q, q ∈ m_findNodeTimeout t ∧ q.1 = src ∧ now - q.2 < c_reqTimeout) :
  ∃ t', on_Neighbours src ns now t = Some t'
      ∧ m_buckets t' = m_buckets t
      ∧ (∀ i a, m_allNodes t !! i = Some a → m_allNodes t' !! i = Some a)
      ∧ (∀ x, x ∈ ns → endpointSet x.1 = true → x.2 ≠ 0 → is_Some (m_allNodes t' !! x.2)).
Proof.
  unfold on_Neighbours.
  pose proof (remove_stale_expected src now (m_findNodeTimeout t)) as He.
  destruct (remove_stale src now (m_findNodeTimeout t)) as [expected kept].
  cbn [fst] in He. apply He in Hfresh. subst expected. cbn [negb].
  destruct (addNodes_total ns now (set_findNodeTimeout kept t)) as (t' & Ht' & _).
  exists t'. split; [exact Ht'|]. apply (addNodes_grows ns now _ _ Ht').
Qed.

Lemma interpretUDP_echo (packet : list Z) (p : DiscoveryDatagram) :
  interpretUDP packet = Decoded p → echo p = take 32 packet.
Proof.
  rewrite interpretUDP_unfold.
  destruct (length packet <? 101)%nat; [discriminate|].
  destruct (bool_decide (take 32 packet = sha3_bytes (drop 32 packet))) eqn:Eh;
    [|discriminate]. apply bool_decide_eq_true in Eh. cbn [negb]. cbn zeta.
  destruct (recover _ _ =? 0); [discriminate|].
  set (ty := drop 97 packet !!! 0%nat).
  destruct (ty =? 1); [|destruct (ty =? 2); [|destruct (ty =? 3);
    [|destruct (ty =? 4); [|discriminate]]]];
    intros Hd; apply decoded_or_thrown_Decoded in Hd as (a & stamp & _ & ->);
    [destruct a|..]; cbn; congruence.
Qed.

Lemma noteActiveNode_sent pubk ep now t t' :
  noteActiveNode pubk ep now t = Some t' →
  m_sent t' = m_sent t ∨ ∃ x y, m_sent t' = m_sent t ++ [OutPing x y].
Proof.
  unfold noteActiveNode.
  destruct (_ || _); [intros [= <-]; auto|].
  destruct (nodeEntry pubk t) as [a|]; [|intros [= <-]; auto].
  destruct (m_heap t !! a) as [e|]; cbn [mbind option_bind]; [|discriminate].
  destruct (pending e); [intros [= <-]; auto|].
  destruct (bucket_UNSAFE _) as [i|]; cbn [mbind option_bind]; [|discriminate].
  cbn [m_buckets set_heap].
  destruct (m_buckets t !! i) as [nodes|]; cbn [mbind option_bind]; [|discriminate].
  destruct (bool_decide _); [intros [= <-]; cbn; auto|].
  destruct (_ <? _)%nat.
  { intros [= <-]. unfold appendEvent. cbn [m_nodeEventHandler set_buckets set_heap].
    destruct (m_nodeEventHandler t); cbn; auto. }
  destruct nodes as [|front rest]; [discriminate|].
  destruct (weak_lock _ front) as [le|]; intros [= <-].
  - unfold evict. cbn [m_socketOpen set_heap]. destruct (m_socketOpen t); cbn [negb];
      [|cbn; auto]. destruct (_ =? 1)%nat; cbn; eauto.
  - unfold appendEvent. cbn [m_nodeEventHandler set_buckets set_heap].
    destruct (m_nodeEventHandler t); cbn; auto.
Qed.

(** X11. Every Ping is answered once.  For a decoded Ping that has not
    expired, on a well-formed table, [onPacketReceived] hands exactly one
    Pong to the socket: to the address and UDP port the datagram came from,
    with the TCP port the Ping names, echoing the leading 32 bytes of the
    datagram.  Beside it at most one Ping goes out before (to the sender,
    when it is new) and at most one after (to the incumbent of a full
    bucket). *)
Theorem ping_answered_once (from : UdpEndpoint) (packet : list Z) (now wall : Z)
    (t : NodeTable) (p : DiscoveryDatagram) (source destination : NodeIPEndpoint)
    (Hok : table_ok t) (Hc : no_collision (id (m_hostNode t)))
    (Hdec : interpretUDP packet = Decoded p)
    (Hbody : body p = PingNode source destination)
    (Hlive : wall ≤ ts p) :
  ∃ t' pre post,
    onPacketReceived from packet now wall t = Some t'
    ∧ m_sent t' = m_sent t ++ pre
        ++ [OutPong (mkEndpoint (udp_address from) (udp_port from) (tcpPort source))
              (take 32 packet)] ++ post
    ∧ (pre = [] ∨ ∃ x y, pre = [OutPing x y])
    ∧ (post = [] ∨ ∃ x y, post = [OutPing x y]).
Proof.
  destruct (onPacketReceived_ok from packet now wall t Hok Hc) as (t' & Ht' & _).
  exists t'. pose proof Ht' as Hrun. unfold onPacketReceived in Hrun. rewrite Hdec in Hrun.
  unfold isExpired in Hrun. destruct (ts p <? wall) eqn:E; [apply Z.ltb_lt in E; lia|].
  unfold dispatch in Hrun. rewrite Hbody in Hrun. unfold on_PingNode in Hrun.
  match type of Hrun with context [addNode ?n Unknown now t] =>
    destruct (addNode n Unknown now t) as [t1|] eqn:E1 end;
    cbn [mbind option_bind] in Hrun; [|discriminate].
  destruct (addNode_unknown_grows _ _ _ _ E1) as (_ & _ & _ & Hs1).
  destruct (noteActiveNode_sent _ _ _ _ _ Hrun) as [Hs2|(x2 & y2 & Hs2)];
    cbn [m_sent send set_sent] in Hs2.
  - rewrite (interpretUDP_echo packet p Hdec) in Hs2. destruct Hs1 as [Hs1|Hs1]; rewrite Hs1 in Hs2.
    + exists [], []. split; [exact Ht'|]. rewrite Hs2. cbn.
      split; [reflexivity|split; auto].
    + eexists [_], []. split; [exact Ht'|]. rewrite Hs2, <- !app_assoc. cbn.
      split; [reflexivity|split; eauto].
  - rewrite (interpretUDP_echo packet p Hdec) in Hs2. destruct Hs1 as [Hs1|Hs1]; rewrite Hs1 in Hs2.
    + exists [], [OutPing x2 y2]. split; [exact Ht'|]. rewrite Hs2, <- !app_assoc. cbn.
      split; [reflexivity|split; eauto].
    + eexists [_], [OutPing x2 y2]. split; [exact Ht'|]. rewrite Hs2, <- !app_assoc.
      cbn. split; [reflexivity|split; eauto].
Qed.

(** X12. The Pong that completes the round trip.  A registered node is
    pending, no probe is keyed by it, and its bucket has room; its Pong
    arrives, decoded and not expired, from an allowed endpoint.  After
    [onPacketReceived] the entry is not pending, carries the observed
    address and UDP port, stands at the tail of its bucket, and an added
    event is appended for the installed handler; nothing is sent and the
    registry is the same. *)
Theorem pong_activates_pending_node (from : UdpEndpoint) (packet : list Z) (now wall : Z)
    (t : NodeTable) (p : DiscoveryDatagram) (destination : NodeIPEndpoint)
    (a : nat) (e : NodeEntry) (nodes : list nat)
    (Hok : table_ok t) (Hc : no_collision (id (m_hostNode t)))
    (Hdec : interpretUDP packet = Decoded p) (Hbody : body p = Pong destination)
    (Hlive : wall ≤ ts p)
    (Hhost : sourceid p ≠ id (m_hostNode t))
    (Hallowed : isAllowed (mkEndpoint (udp_address from) (udp_port from) (udp_port from))
                = true)
    (Ha : m_allNodes t !! sourceid p = Some a) (He : m_heap t !! a = Some e)
    (Hpend : pending e = true)
    (Hnoprobe : m_evictions t !! sourceid p = None)
    (Hb : m_buckets t !! Z.to_nat (e_distance e - 1) = Some nodes)
    (Hroom : (length nodes < s_bucketSize)%nat) :
  ∃ t', onPacketReceived from packet now wall t = Some t'
      ∧ m_buckets t' = <[Z.to_nat (e_distance e - 1) := nodes ++ [a]]> (m_buckets t)
      ∧ m_heap t'
        = <[a := mkEntry (e_id e)
                   (mkEndpoint (udp_address from) (udp_port from) (tcpPort (e_endpoint e)))
                   (e_distance e) false (e_peerType e)]> (m_heap t)
      ∧ m_allNodes t' = m_allNodes t
      ∧ m_events t' = (if m_nodeEventHandler t
                       then m_events t ++ [(sourceid p, NodeEntryAdded)] else m_events t)
      ∧ m_sent t' = m_sent t.
Proof.
  destruct (ok_allNodes t Hok _ _ Ha) as (e0 & He0 & Hid).
  assert (e0 = e) by congruence. subst e0.
  assert (Hd : 1 ≤ e_distance e ≤ 256).
  { destruct (ok_heap t Hok _ _ He) as [-> _]. apply distance_positive; [exact Hc | congruence]. }
  assert (Hnew : a ∉ nodes).
  { intros Hin. destruct (ok_buckets t Hok _ _ Hb) as (_ & _ & Hall).
    destruct (Hall a Hin) as (x & Hx & _ & Hp & _). congruence. }
  unfold onPacketReceived. rewrite Hdec. unfold isExpired.
  destruct (ts p <? wall) eqn:E; [apply Z.ltb_lt in E; lia|].
  unfold dispatch. rewrite Hbody. unfold on_Pong, live_probe, nodeEntry.
  rewrite Hnoprobe, Ha. unfold clear_pending. rewrite He. cbn [mbind option_bind].
  unfold noteActiveNode, nodeEntry.
  cbn [learn_endpoint set_hostNode set_heap m_hostNode id m_allNodes m_heap m_buckets].
  destruct (sourceid p =? id (m_hostNode t)) eqn:Eh; [apply Z.eqb_eq in Eh; contradiction|].
  rewrite Hallowed, Ha, lookup_insert_eq.
  cbn [negb orb mbind option_bind pending e_id e_distance e_endpoint e_peerType tcpPort].
  set (e' := mkEntry (e_id e) _ (e_distance e) false (e_peerType e)).
  rewrite (bucket_UNSAFE_Some e' Hd). cbn [mbind option_bind e' e_distance].
  rewrite Hb. cbn [mbind option_bind].
  rewrite bool_decide_eq_false_2 by exact Hnew.
  destruct (length nodes <? s_bucketSize)%nat eqn:El; [|apply Nat.ltb_ge in El; lia].
  eexists. split; [reflexivity|]. unfold appendEvent.
  cbn [m_nodeEventHandler set_buckets set_heap set_hostNode learn_endpoint e_id].
  rewrite insert_insert_eq, Hid.
  destruct (m_nodeEventHandler t) eqn:Ehd; cbn; rewrite ?Ehd; repeat split.
Qed.

End EndToEnd.

(** ** Invariants of reachable tables *)

Section Invariants.
Context `{Externals}.

(** X13. On every table reached from the constructor, when no other id has
    the local hash: the local id is the constructor's; an id of the registry
    maps to an entry of that id, with the distance of the id to the local
    id; there are 256 buckets; and a bucket holds at most [s_bucketSize]
    references, none twice, each to an entry that is not the local node's,
    is not pending, and whose distance to the local id is the bucket index
    plus one. *)
Theorem reachable_table_wellformed (host : Node) (t : NodeTable)
    (Hc : no_collision (id host)) (Hreach : reachable host t) :
  id (m_hostNode t) = id host
  ∧ (∀ i a, m_allNodes t !! i = Some a →
       ∃ e, m_heap t !! a = Some e ∧ e_id e = i ∧ e_distance e = distance (id host) i)
  ∧ length (m_buckets t) = 256%nat
  ∧ (∀ i nodes, m_buckets t !! i = Some nodes →
       (length nodes ≤ s_bucketSize)%nat ∧ NoDup nodes
       ∧ ∀ n, n ∈ nodes →
           ∃ e, m_heap t !! n = Some e ∧ e_id e ≠ id host ∧ pending e = false
              ∧ e_distance e = Z.of_nat i + 1
              ∧ distance (id host) (e_id e) = Z.of_nat i + 1).
Proof.
  destruct (reachable_ok host t Hc Hreach) as [Hok Hh].
  split; [exact Hh|]. split; [|split].
  - intros i a Ha. destruct (ok_allNodes t Hok _ _ Ha) as (e & He & Hi).
    exists e. split; [exact He|]. split; [exact Hi|].
    destruct (ok_heap t Hok _ _ He) as [-> _]. congruence.
  - apply (ok_bins t Hok).
  - intros i nodes Hb. destruct (ok_buckets t Hok _ _ Hb) as (Hl & Hnd & Hall).
    split; [exact Hl|]. split; [exact Hnd|]. intros n Hn.
    destruct (Hall n Hn) as (e & He & Hid & Hp & Hd). exists e.
    rewrite Hh in Hid. repeat (split; [assumption|]).
    destruct (ok_heap t Hok _ _ He) as [Hde _]. congruence.
Qed.

Lemma empty_of_no_elem {A} (l : list A) : (∀ x, x ∉ l) → l = [].
Proof. destruct l as [|x l]; [reflexivity|]. intros Hl. exfalso. apply (Hl x). left. Qed.

(** X14. A sweep with nothing to do.  When no probe is older than
    [c_reqTimeout] with its incumbent in the registry, the sweep leaves the
    table as it is and only schedules itself again while a probe remains;
    a probe whose incumbent has left the registry keeps it running. *)
Theorem idle_sweep_changes_nothing (now : Z) (t : NodeTable)
    (Hnone : ∀ k ev, ¬ due now t k ev) :
  checkEvictions now t
  = Some (if bool_decide (m_evictions t = ∅) then t else doCheckEvictions t).
Proof.
  unfold checkEvictions.
  destruct (collect_spec (expired_probes now t) t) as [Hdrop Hactive].
  destruct (collect (expired_probes now t) t) as [drop0 active0]. cbn [fst snd] in *.
  assert (drop0 = []) as ->.
  { apply empty_of_no_elem. intros n Hn. apply Hdrop in Hn as (k & ev & Hin & Hk).
    apply expired_probes_spec in Hin as [? ?]. apply (Hnone k ev). unfold due.
    rewrite Hk. eauto. }
  assert (active0 = []) as ->.
  { apply empty_of_no_elem. intros n Hn. apply Hactive in Hn as (k & ev & Hin & Hk & _).
    apply expired_probes_spec in Hin as [? ?]. apply (Hnone k ev). unfold due. auto. }
  cbn [unique erase_probes dropNodes activate mbind option_bind app].
  assert (Ht : set_locals (m_locals t) (set_locals [] t) = t) by (destruct t; reflexivity).
  rewrite Ht. reflexivity.
Qed.

End Invariants.

(** ** The timers of the discovery *)

Section Timers.
Context `{Externals}.

Lemma sweeps_added_refl t t' : m_timers t' = m_timers t → sweeps_added t t'.
Proof. intros E. exists []. rewrite E, app_nil_r. auto. Qed.

Lemma sweeps_added_trans t1 t2 t3 :
  sweeps_added t1 t2 → sweeps_added t2 t3 → sweeps_added t1 t3.
Proof.
  intros (k1 & E1 & F1) (k2 & E2 & F2). exists (k1 ++ k2).
  rewrite E2, E1, app_assoc. split; [reflexivity|]. apply Forall_app. auto.
Qed.

Lemma sweeps_added_one t t' :
  m_timers t' = m_timers t ++ [TCheckEvictions] → sweeps_added t t'.
Proof. intros E. exists [TCheckEvictions]. split; [exact E|]. repeat constructor. Qed.

Lemma evict_sweeps l n now t : sweeps_added t (evict l n now t).
Proof.
  unfold evict. destruct (m_socketOpen t); cbn [negb]; [|by apply sweeps_added_refl].
  destruct (_ =? 1)%nat; [apply sweeps_added_one | apply sweeps_added_refl]; reflexivity.
Qed.

Lemma appendEvent_timers i ty t : m_timers (appendEvent i ty t) = m_timers t.
Proof. unfold appendEvent. destruct (m_nodeEventHandler t); reflexivity. Qed.

Lemma noteActiveNode_sweeps pubk ep now t t' :
  noteActiveNode pubk ep now t = Some t' → sweeps_added t t'.
Proof.
  unfold noteActiveNode.
  destruct (_ || _); [intros [= <-]; by apply sweeps_added_refl|].
  destruct (nodeEntry pubk t) as [a|]; [|intros [= <-]; by apply sweeps_added_refl].
  destruct (m_heap t !! a) as [e|]; cbn [mbind option_bind]; [|discriminate].
  destruct (pending e); [intros [= <-]; by apply sweeps_added_refl|].
  destruct (bucket_UNSAFE _) as [i|]; cbn [mbind option_bind]; [|discriminate].
  cbn [m_buckets set_heap].
  destruct (m_buckets t !! i) as [nodes|]; cbn [mbind option_bind]; [|discriminate].
  destruct (bool_decide _); [intros [= <-]; by apply sweeps_added_refl|].
  destruct (_ <? _)%nat.
  { intros [= <-]. apply sweeps_added_refl. by rewrite appendEvent_timers. }
  destruct nodes as [|front rest]; [discriminate|].
  destruct (weak_lock _ front) as [le|]; intros [= <-].
  - match goal with |- sweeps_added _ (evict ?l ?n ?w ?s) =>
      apply (sweeps_added_trans t s); [by apply sweeps_added_refl | apply evict_sweeps] end.
  - apply sweeps_added_refl. by rewrite appendEvent_timers.
Qed.

Lemma dropNode_timers n t t' : dropNode n t = Some t' → m_timers t' = m_timers t.
Proof.
  unfold dropNode. destruct (m_heap t !! n) as [e|]; cbn [mbind option_bind]; [|discriminate].
  destruct (bucket_UNSAFE e) as [i|]; cbn [mbind option_bind]; [|discriminate].
  destruct (m_buckets t !! i) as [nodes|]; cbn [mbind option_bind]; [|discriminate].
  intros [= <-]. by rewrite appendEvent_timers.
Qed.

Lemma addNode_sweeps n r now t t' : addNode n r now t = Some t' → sweeps_added t t'.
Proof.
  destruct r; unfold addNode.
  - destruct (_ || _); [intros [= <-]; by apply sweeps_added_refl|].
    destruct (bool_decide _); intros [= <-]; by apply sweeps_added_refl.
  - cbn [alloc]. intros Hn. apply noteActiveNode_sweeps in Hn.
    eapply sweeps_added_trans; [|exact Hn]. by apply sweeps_added_refl.
Qed.

Lemma addNodes_sweeps ns now : ∀ t t', addNodes ns now t = Some t' → sweeps_added t t'.
Proof.
  induction ns as [|n ns IH]; intros t t'; cbn [addNodes].
  - intros [= <-]. by apply sweeps_added_refl.
  - destruct (addNode _ Unknown now t) as [t1|] eqn:E1; cbn [mbind option_bind];
      [|discriminate]. intros E2.
    eapply sweeps_added_trans; [eapply addNode_sweeps; exact E1 | apply IH, E2].
Qed.

Lemma clear_pending_timers n t t' : clear_pending n t = Some t' → m_timers t' = m_timers t.
Proof.
  unfold clear_pending. destruct (m_heap t !! n); cbn [mbind option_bind]; [|discriminate].
  by intros [= <-].
Qed.

Lemma dispatch_sweeps from p now t t' : dispatch from p now t = Some t' → sweeps_added t t'.
Proof.
  unfold dispatch. destruct (body p) as [source dest|dest|target|ns].
  - unfold on_PingNode. destruct (addNode _ Unknown now t) as [t1|] eqn:E1;
      cbn [mbind option_bind]; [|discriminate]. intros [= <-].
    eapply sweeps_added_trans; [eapply addNode_sweeps; exact E1|]. by apply sweeps_added_refl.
  - unfold on_Pong. intros Hp. apply sweeps_added_refl.
    destruct (live_probe (sourceid p) now t) as [ev|].
    + cbn [mbind option_bind] in Hp.
      destruct (nodeEntry (newNodeID ev) _) as [n|].
      * destruct (dropNode n _) as [t2|] eqn:E2; cbn [mbind option_bind] in Hp; [|discriminate].
        apply dropNode_timers in E2. cbn in E2.
        destruct (nodeEntry (sourceid p) t2) as [m|].
        -- destruct (clear_pending m t2) as [t3|] eqn:E3; cbn [mbind option_bind] in Hp;
             [|discriminate]. apply clear_pending_timers in E3. injection Hp as <-. cbn.
           congruence.
        -- cbn [mbind option_bind] in Hp. injection Hp as <-. cbn. congruence.
      * cbn [mbind option_bind] in Hp.
        destruct (nodeEntry (sourceid p) _) as [m|].
        -- destruct (clear_pending m _) as [t3|] eqn:E3; cbn [mbind option_bind] in Hp;
             [|discriminate]. apply clear_pending_timers in E3. injection Hp as <-. cbn.
           exact E3.
        -- cbn [mbind option_bind] in Hp. injection Hp as <-. reflexivity.
    + destruct (nodeEntry (sourceid p) t) as [m|].
      * destruct (clear_pending m t) as [t3|] eqn:E3; cbn [mbind option_bind] in Hp;
          [|discriminate]. apply clear_pending_timers in E3. injection Hp as <-. exact E3.
      * cbn [mbind option_bind] in Hp. injection Hp as <-. reflexivity.
  - unfold on_FindNode. intros [= <-]. apply sweeps_added_refl.
    rewrite foldl_send_eq. reflexivity.
  - unfold on_Neighbours. destruct (remove_stale _ _ _) as [expected kept].
    destruct (negb expected); [intros [= <-]; by apply sweeps_added_refl|].
    intros Hn. apply addNodes_sweeps in Hn.
    eapply sweeps_added_trans; [|exact Hn]. by apply sweeps_added_refl.
Qed.

Lemma onPacketReceived_sweeps from packet now wall t t' :
  onPacketReceived from packet now wall t = Some t' → sweeps_added t t'.
Proof.
  unfold onPacketReceived. destruct (interpretUDP packet) as [| |p];
    [intros [= <-]; by apply sweeps_added_refl..|].
  destruct (isExpired wall p); [intros [= <-]; by apply sweeps_added_refl|].
  destruct (dispatch from p now t) as [t1|] eqn:E1; cbn [mbind option_bind]; [|discriminate].
  intros E2. eapply sweeps_added_trans;
    [eapply dispatch_sweeps; exact E1 | eapply noteActiveNode_sweeps; exact E2].
Qed.

Lemma erase_probes_timers drop : ∀ t t',
  erase_probes drop t = Some t' → m_timers t' = m_timers t.
Proof.
  induction drop as [|n rest IH]; intros t t'; cbn [erase_probes]; [by intros [= <-]|].
  destruct (m_heap t !! n) as [e|]; cbn [mbind option_bind]; [|discriminate].
  intros Hr. apply IH in Hr. exact Hr.
Qed.

Lemma dropNodes_timers drop : ∀ t t',
  dropNodes drop t = Some t' → m_timers t' = m_timers t.
Proof.
  induction drop as [|n rest IH]; intros t t'; cbn [dropNodes]; [by intros [= <-]|].
  destruct (dropNode n t) as [t1|] eqn:E1; cbn [mbind option_bind]; [|discriminate].
  intros Hr. apply IH in Hr. apply dropNode_timers in E1. congruence.
Qed.

Lemma activate_sweeps active now : ∀ t t',
  activate active now t = Some t' → sweeps_added t t'.
Proof.
  induction active as [|n rest IH]; intros t t'; cbn [activate].
  - intros [= <-]. by apply sweeps_added_refl.
  - destruct (m_heap t !! n) as [e|]; cbn [mbind option_bind]; [|discriminate].
    destruct (noteActiveNode _ _ now t) as [t1|] eqn:E1; cbn [mbind option_bind];
      [|discriminate]. intros E2.
    eapply sweeps_added_trans; [eapply noteActiveNode_sweeps; exact E1 | apply IH, E2].
Qed.

Lemma checkEvictions_sweeps now t t' : checkEvictions now t = Some t' → sweeps_added t t'.
Proof.
  unfold checkEvictions. destruct (collect _ t) as [drop0 active].
  destruct (erase_probes (unique drop0) t) as [t1|] eqn:E1; cbn [mbind option_bind];
    [|discriminate].
  destruct (dropNodes (unique drop0) _) as [t2|] eqn:E2; cbn [mbind option_bind];
    [|discriminate].
  destruct (activate active now t2) as [t3|] eqn:E3; cbn [mbind option_bind];
    [|discriminate].
  apply erase_probes_timers in E1. apply dropNodes_timers in E2. cbn in E2.
  apply activate_sweeps in E3. intros [= <-].
  apply (sweeps_added_trans t t2); [apply sweeps_added_refl; congruence|].
  apply (sweeps_added_trans t2 t3 _ E3).
  destruct (bool_decide _); [apply sweeps_added_refl | apply sweeps_added_one]; reflexivity.
Qed.

Lemma discover_round_timers target now _tried nearest : ∀ tried t tried' t',
  discover_round target now _tried nearest tried t = Some (tried', t') →
  m_timers t' = m_timers t.
Proof.
  induction nearest as [|r rest IH]; intros tried t tried' t'; cbn [discover_round].
  - by intros [= _ <-].
  - destruct (_ <? _)%nat; [|by intros [= _ <-]].
    destruct (bool_decide _); [apply IH|].
    destruct (m_heap t !! r) as [e|]; cbn [mbind option_bind]; [|discriminate].
    intros Hr. apply IH in Hr. exact Hr.
Qed.

(** What [doDiscover] schedules: nothing, the next random discovery, or
    the next round. *)
Lemma doDiscover_timers node round _tried now t t' :
  doDiscover node round _tried now t = Some t' →
  m_timers t' = m_timers t
  ∨ m_timers t' = m_timers t ++ [TDiscovery]
  ∨ ∃ tried, m_timers t' = m_timers t ++ [TDiscover node (S round) tried]
             ∧ round ≠ s_maxSteps.
Proof.
  unfold doDiscover. destruct (negb (m_socketOpen t)); [intros [= <-]; auto|].
  destruct (round =? s_maxSteps)%nat eqn:Er; [intros [= <-]; auto|].
  apply Nat.eqb_neq in Er.
  destruct (match _tried with Some s => Some s | None => _ end) as [s|];
    cbn [mbind option_bind]; [|discriminate].
  destruct (discover_round _ _ _ _ _ _) as [[tried t1]|] eqn:E1; cbn [mbind option_bind];
    [|discriminate].
  apply discover_round_timers in E1.
  destruct tried; intros [= <-]; cbn; rewrite E1; eauto.
Qed.

Lemma lookup_ok_sweeps t t' : sweeps_added t t' → lookup_ok t → lookup_ok t'.
Proof.
  intros (ks & E & Hks) [Hr Hc]. unfold lookup_ok. rewrite E. split.
  - apply Forall_app. split; [exact Hr|]. eapply Forall_impl; [exact Hks|].
    intros k ->. exact I.
  - rewrite filter_app, length_app.
    replace (filter (λ k, is_discovery k = true) ks) with (@nil Task); [simpl; lia|].
    symmetry. clear -Hks. induction Hks as [|k ks -> _ IH]; [reflexivity|].
    rewrite filter_cons_False by discriminate. exact IH.
Qed.

Lemma filter_delete_count (P : Task → Prop) `{!∀ k, Decision (P k)} :
  ∀ (l : list Task) i k, l !! i = Some k → P k →
  S (length (filter P (delete i l))) = length (filter P l).
Proof.
  induction l as [|x l IH]; intros i k Hi Hk; [discriminate|].
  destruct i as [|i].
  - injection Hi as ->. change (delete 0%nat (k :: l)) with l.
    rewrite filter_cons_True by exact Hk. reflexivity.
  - change (delete (S i) (x :: l)) with (x :: delete i l).
    change ((x :: l) !! S i) with (l !! i) in Hi.
    destruct (decide (P x)).
    + rewrite !filter_cons_True by assumption. cbn [length]. f_equal. eapply IH; eassumption.
    + rewrite !filter_cons_False by assumption. eapply IH; eassumption.
Qed.

Lemma filter_delete_le (P : Task → Prop) `{!∀ k, Decision (P k)} :
  ∀ (l : list Task) i, (length (filter P (delete i l)) ≤ length (filter P l))%nat.
Proof.
  induction l as [|x l IH]; intros i; [destruct i; reflexivity|].
  destruct i as [|i].
  - change (delete 0%nat (x :: l)) with l. destruct (decide (P x)).
    + rewrite filter_cons_True by assumption. cbn [length]. lia.
    + rewrite filter_cons_False by assumption. lia.
  - change (delete (S i) (x :: l)) with (x :: delete i l). specialize (IH i).
    destruct (decide (P x)).
    + rewrite !filter_cons_True by assumption. cbn [length]. lia.
    + rewrite !filter_cons_False by assumption. exact IH.
Qed.

Lemma lookup_ok_delete i t :
  lookup_ok t → lookup_ok (set_timers (delete i (m_timers t)) t).
Proof.
  intros [Hr Hc]. split; cbn [m_timers set_timers].
  - apply Forall_forall. intros k Hk. eapply Forall_forall; [exact Hr|].
    eapply elem_of_sublist; [exact Hk | apply sublist_delete].
  - pose proof (filter_delete_le (λ k, is_discovery k = true) (m_timers t) i). lia.
Qed.

Lemma lookup_ok_scheduled k t t' :
  m_timers t' = m_timers t ++ [k] → round_ok k →
  length (filter (λ k, is_discovery k = true) (m_timers t)) = 0%nat →
  Forall round_ok (m_timers t) → lookup_ok t'.
Proof.
  intros E Hk Hz Hr. unfold lookup_ok. rewrite E. split.
  - apply Forall_app. split; [exact Hr|]. constructor; [exact Hk | constructor].
  - rewrite filter_app, length_app, Hz.
    pose proof (length_filter (λ k, is_discovery k = true) [k]). simpl in *. lia.
Qed.

Lemma step_lookup_ok i t t' : step i t = Some t' → lookup_ok t → lookup_ok t'.
Proof.
  destruct i as [node relation now|from packet now wall|i aborted rand now|open];
    cbn [step]; intros Hs Hl.
  - eapply lookup_ok_sweeps; [eapply addNode_sweeps; exact Hs | exact Hl].
  - eapply lookup_ok_sweeps; [eapply onPacketReceived_sweeps; exact Hs | exact Hl].
  - destruct (m_timers t !! i) as [k|] eqn:Ek; [|injection Hs as <-; exact Hl].
    pose proof (lookup_ok_delete i t Hl) as Hl0.
    set (t0 := set_timers (delete i (m_timers t)) t) in *.
    unfold fire in Hs. destruct aborted; [injection Hs as <-; exact Hl0|].
    assert (Hzero : is_discovery k = true →
              length (filter (λ k, is_discovery k = true) (m_timers t0)) = 0%nat).
    { intros Hk. destruct Hl as [_ Hc].
      pose proof (filter_delete_count (λ k, is_discovery k = true) (m_timers t) i k Ek Hk).
      cbn [t0 m_timers set_timers]. lia. }
    assert (Hk : round_ok k).
    { destruct Hl as [Hr _]. eapply Forall_forall; [exact Hr|].
      eapply list_elem_of_lookup_2; exact Ek. }
    destruct k as [| |node round tried].
    + eapply lookup_ok_sweeps; [eapply checkEvictions_sweeps; exact Hs | exact Hl0].
    + destruct (doDiscover_timers _ _ _ _ _ _ Hs) as [E|[E|(tr & E & _)]].
      * eapply lookup_ok_sweeps; [apply sweeps_added_refl; exact E | exact Hl0].
      * eapply lookup_ok_scheduled; [exact E | exact I | auto | apply Hl0].
      * eapply lookup_ok_scheduled; [exact E | | auto | apply Hl0].
        cbn. unfold s_maxSteps. lia.
    + destruct (doDiscover_timers _ _ _ _ _ _ Hs) as [E|[E|(tr & E & Hne)]].
      * eapply lookup_ok_sweeps; [apply sweeps_added_refl; exact E | exact Hl0].
      * eapply lookup_ok_scheduled; [exact E | exact I | auto | apply Hl0].
      * eapply lookup_ok_scheduled; [exact E | | auto | apply Hl0].
        cbn in Hk |- *. lia.
  - injection Hs as <-. exact Hl.
Qed.

Lemma run_lookup_ok ins : ∀ t t', run ins t = Some t' → lookup_ok t → lookup_ok t'.
Proof.
  induction ins as [|i ins IH]; intros t t'; cbn [run]; [by intros [= <-]|].
  destruct (step i t) as [t1|] eqn:E1; cbn [mbind option_bind]; [|discriminate].
  intros E2 Hl. eapply IH; [exact E2|]. eapply step_lookup_ok; eassumption.
Qed.

(** X15. Lookups are bounded and never overlap.  On every table reached
    from the constructor, each scheduled round of a lookup has a number
    from 1 to [s_maxSteps], and at most one timer of the discovery (the
    random discovery or a round of a lookup) is scheduled. *)
Theorem reachable_lookup_bounded (host : Node) (t : NodeTable)
    (Hreach : reachable host t) :
  (∀ node r tried, TDiscover node r tried ∈ m_timers t → (1 ≤ r ≤ s_maxSteps)%nat)
  ∧ (length (filter (λ k, is_discovery k = true) (m_timers t)) ≤ 1)%nat.
Proof.
  destruct Hreach as (enabled & handler & ins & Hrun).
  assert (Hl : lookup_ok t).
  { eapply run_lookup_ok; [exact Hrun|]. unfold new_NodeTable.
    destruct enabled; split; cbn; repeat constructor. }
  destruct Hl as [Hr Hc]. split; [|exact Hc].
  intros node r tried Hin. eapply Forall_forall in Hr; [|exact Hin]. exact Hr.
Qed.

End Timers.

(** ** Dropping a node *)

Section Dropping.
Context `{Externals}.

Lemma dropNode_sent n t t' : dropNode n t = Some t' → m_sent t' = m_sent t.
Proof.
  unfold dropNode. destruct (m_heap t !! n) as [e|]; cbn [mbind option_bind]; [|discriminate].
  destruct (bucket_UNSAFE e) as [i|]; cbn [mbind option_bind]; [|discriminate].
  destruct (m_buckets t !! i) as [nodes|]; cbn [mbind option_bind]; [|discriminate].
  intros [= <-]. unfold appendEvent. cbn [m_nodeEventHandler set_allNodes set_buckets].
  destruct (m_nodeEventHandler t); reflexivity.
Qed.

(** What is owned after an id left the registry was owned before. *)
Lemma owned_delete t t' k a :
  m_allNodes t' = delete k (m_allNodes t) → m_timers t' = m_timers t →
  m_locals t' = m_locals t → owned t' a = true → owned t a = true.
Proof.
  intros Ha Ht Hl. unfold owned. rewrite Ha, Ht, Hl, !orb_true_iff.
  intros [[H1|H2]|H3]; auto. left. left.
  apply bool_decide_eq_true in H1. apply bool_decide_eq_true.
  apply list_elem_of_fmap in H1 as [[i a'] [-> Hin]].
  apply elem_of_map_to_list, lookup_delete_Some in Hin as [_ Hin].
  apply list_elem_of_fmap. exists (i, a'). split; [reflexivity|].
  by apply elem_of_map_to_list.
Qed.

(** X16. Drop, then look up.  On a well-formed table [dropNode] of an entry
    that is not the local node's returns; afterwards [node] answers the
    unspecified node for the entry's id and what it answered before for
    every other id, no bucket holds the entry, the handler gets one dropped
    event, and nothing is sent. *)
Theorem dropNode_then_node (n : nat) (e : NodeEntry) (t : NodeTable)
    (Hok : table_ok t) (Hc : no_collision (id (m_hostNode t)))
    (He : m_heap t !! n = Some e) (Hid : e_id e ≠ id (m_hostNode t)) :
  ∃ t', dropNode n t = Some t'
      ∧ node (e_id e) t' = Some UnspecifiedNode
      ∧ (∀ i, i ≠ e_id e → node i t' = node i t)
      ∧ (∀ nodes, nodes ∈ m_buckets t' → n ∉ nodes)
      ∧ (∀ x, x ∈ snapshot t' → x ∈ snapshot t)
      ∧ m_events t' = (if m_nodeEventHandler t
                       then m_events t ++ [(e_id e, NodeEntryDropped)] else m_events t)
      ∧ m_sent t' = m_sent t.
Proof.
  destruct (dropNode_ok n e t Hok Hc He Hid)
    as (t' & Ht' & _ & Ha & Hh & _ & _ & _ & Hl & Ht & Hev & Hb).
  exists t'. split; [exact Ht'|].
  split; [unfold node; rewrite Ha, lookup_delete_eq; reflexivity|].
  split; [intros i Hi; unfold node; rewrite Ha, Hh, lookup_delete_ne by auto; reflexivity|].
  split; [exact Hb|]. split; [|split; [exact Hev | exact (dropNode_sent _ _ _ Ht')]].
  intros x Hx. unfold snapshot in *.
  apply list_elem_of_In, in_flat_map in Hx as (s & Hs & Hx).
  apply list_elem_of_In in Hs, Hx. apply list_elem_of_omap in Hx as (a & Has & Hlock).
  destruct (dropNode_shrinks _ _ _ Ht') as [_ Hsh].
  destruct (Hsh s a Hs Has) as (s0 & Hs0 & Has0).
  apply list_elem_of_In, in_flat_map. exists s0. split; [by apply list_elem_of_In|].
  apply list_elem_of_In, list_elem_of_omap. exists a. split; [exact Has0|].
  unfold weak_lock in *. destruct (owned t' a) eqn:Eo; [|discriminate].
  rewrite (owned_delete _ _ _ _ Ha Ht Hl Eo), <- Hh. exact Hlock.
Qed.
End Dropping.

(** ** The local endpoint *)

Section HostEndpoint.
Context `{Externals}.

Lemma dropNode_host n t t' : dropNode n t = Some t' → m_hostNode t' = m_hostNode t.
Proof.
  unfold dropNode. destruct (m_heap t !! n) as [e|]; cbn [mbind option_bind]; [|discriminate].
  destruct (bucket_UNSAFE e) as [i|]; cbn [mbind option_bind]; [|discriminate].
  destruct (m_buckets t !! i) as [nodes|]; cbn [mbind option_bind]; [|discriminate].
  intros [= <-]. unfold appendEvent. cbn [m_nodeEventHandler set_allNodes set_buckets].
  destruct (m_nodeEventHandler t); reflexivity.
Qed.

Lemma clear_pending_host n t t' : clear_pending n t = Some t' → m_hostNode t' = m_hostNode t.
Proof.
  unfold clear_pending. destruct (m_heap t !! n); cbn [mbind option_bind]; [|discriminate].
  by intros [= <-].
Qed.

Lemma on_Pong_host src destination now t t' :
  on_Pong src destination now t = Some t' →
  m_hostNode t' = m_hostNode (learn_endpoint destination t).
Proof.
  unfold on_Pong.
  match goal with |- (?m ≫= _) = _ → _ => destruct m as [t3|] eqn:E3 end;
    cbn [mbind option_bind]; [|discriminate].
  intros [= <-].
  assert (Hh : m_hostNode t3 = m_hostNode t).
  { destruct (live_probe src now t) as [ev|].
    - destruct (nodeEntry (newNodeID ev) _) as [n|] eqn:En.
      + destruct (dropNode n _) as [t2|] eqn:Ed; cbn [mbind option_bind] in E3;
          [|discriminate]. apply dropNode_host in Ed. cbn [m_hostNode set_evictions] in Ed.
        destruct (nodeEntry src t2) as [m|]; [|injection E3 as <-; exact Ed].
        apply clear_pending_host in E3. congruence.
      + cbn [mbind option_bind] in E3.
        destruct (nodeEntry src _) as [m|]; [|by injection E3 as <-].
        apply clear_pending_host in E3. exact E3.
    - destruct (nodeEntry src t) as [m|]; [|by injection E3 as <-].
      apply clear_pending_host in E3. exact E3. }
  unfold learn_endpoint. cbn [m_hostNode set_hostNode]. rewrite Hh. reflexivity.
Qed.

(** X17. Any Pong rewrites the local endpoint.  For a decoded Pong that has
    not expired, whoever signed it and whether or not a Ping was sent to the
    signer, [onPacketReceived] sets the UDP port of the local endpoint to the
    port the Pong names; the address becomes the named one when that is
    public and the local endpoint is unset or not allowed, and stays
    otherwise; the local id and TCP port stay. *)
Theorem pong_rewrites_local_endpoint (from : UdpEndpoint) (packet : list Z) (now wall : Z)
    (t : NodeTable) (p : DiscoveryDatagram) (destination : NodeIPEndpoint)
    (Hok : table_ok t) (Hc : no_collision (id (m_hostNode t)))
    (Hdec : interpretUDP packet = Decoded p) (Hbody : body p = Pong destination)
    (Hlive : wall ≤ ts p) :
  ∃ t', onPacketReceived from packet now wall t = Some t'
      ∧ id (m_hostNode t') = id (m_hostNode t)
      ∧ udpPort (endpoint (m_hostNode t')) = udpPort destination
      ∧ tcpPort (endpoint (m_hostNode t')) = tcpPort (endpoint (m_hostNode t))
      ∧ address (endpoint (m_hostNode t'))
        = (if (negb (endpointSet (endpoint (m_hostNode t)))
               || negb (isAllowed (endpoint (m_hostNode t))))
              && isPublicAddress (address destination)
           then address destination else address (endpoint (m_hostNode t))).
Proof.
  destruct (onPacketReceived_ok from packet now wall t Hok Hc) as (t' & Ht' & _).
  exists t'. split; [exact Ht'|]. unfold onPacketReceived in Ht'. rewrite Hdec in Ht'.
  unfold isExpired in Ht'. destruct (ts p <? wall) eqn:E; [apply Z.ltb_lt in E; lia|].
  unfold dispatch in Ht'. rewrite Hbody in Ht'.
  destruct (on_Pong (sourceid p) destination now t) as [t1|] eqn:E1;
    cbn [mbind option_bind] in Ht'; [|discriminate].
  apply noteActiveNode_frame in Ht' as (_ & _ & _ & ->).
  rewrite (on_Pong_host _ _ _ _ _ E1). unfold learn_endpoint.
  cbn [m_hostNode set_hostNode id endpoint udpPort tcpPort address].
  repeat split.
Qed.

End HostEndpoint.

(** ** A full bucket behind a closed socket *)

Section ClosedSocket.
Context `{Externals}.

(** X18. A newcomer to a full bucket while the socket is closed.  For a
    registered, non-pending node outside its full bucket, whose front entry
    is alive, [noteActiveNode] only stores the observed address and UDP port
    in the entry: no probe is started, nothing is sent or scheduled, and the
    node stays outside the bucket. *)
Theorem full_bucket_closed_socket (pubk : Public) (ep : UdpEndpoint) (now : Z)
    (t : NodeTable) (a : nat) (e : NodeEntry) (front : nat) (rest : list nat)
    (Hok : table_ok t) (Hc : no_collision (id (m_hostNode t)))
    (Hhost : pubk ≠ id (m_hostNode t))
    (Hallowed : isAllowed (mkEndpoint (udp_address ep) (udp_port ep) (udp_port ep)) = true)
    (Ha : m_allNodes t !! pubk = Some a) (He : m_heap t !! a = Some e)
    (Hp : pending e = false)
    (Hb : m_buckets t !! Z.to_nat (e_distance e - 1) = Some (front :: rest))
    (Hfull : (s_bucketSize ≤ length (front :: rest))%nat)
    (Hnew : a ∉ front :: rest)
    (Hlive : owned t front = true)
    (Hclosed : m_socketOpen t = false) :
  noteActiveNode pubk ep now t
  = Some (set_heap (<[a := mkEntry (e_id e)
                            (mkEndpoint (udp_address ep) (udp_port ep)
                               (tcpPort (e_endpoint e)))
                            (e_distance e) false (e_peerType e)]> (m_heap t)) t).
Proof.
  destruct (ok_buckets t Hok _ _ Hb) as (_ & _ & Hall).
  destruct (Hall front) as (le & Hle & _); [left|].
  assert (Hfa : front ≠ a) by (intros ->; apply Hnew; left).
  assert (Hd : 1 ≤ e_distance e ≤ 256).
  { destruct (ok_heap t Hok _ _ He) as [-> _].
    destruct (ok_allNodes t Hok _ _ Ha) as (e0 & He0 & Hid).
    apply distance_positive; [exact Hc | congruence]. }
  unfold noteActiveNode, nodeEntry.
  destruct (pubk =? id (m_hostNode t)) eqn:E; [apply Z.eqb_eq in E; contradiction|].
  rewrite Hallowed, Ha, He. cbn [negb orb mbind option_bind]. rewrite Hp.
  set (e' := mkEntry (e_id e) _ (e_distance e) false (e_peerType e)).
  rewrite (bucket_UNSAFE_Some e' Hd). cbn [mbind option_bind m_buckets set_heap e' e_distance].
  rewrite Hb. cbn [mbind option_bind].
  rewrite bool_decide_eq_false_2 by exact Hnew.
  destruct (length (front :: rest) <? s_bucketSize)%nat eqn:El;
    [apply Nat.ltb_lt in El; lia|].
  assert (Hlock : weak_lock (set_heap (<[a := e']> (m_heap t)) t) front = Some le).
  { unfold weak_lock. change (owned (set_heap (<[a := e']> (m_heap t)) t) front)
      with (owned t front). rewrite Hlive. cbn. rewrite lookup_insert_ne by auto. exact Hle. }
  rewrite Hlock. unfold evict. cbn [m_socketOpen set_heap]. rewrite Hclosed. reflexivity.
Qed.

End ClosedSocket.

(** ** Runs of the sample table for the further properties *)

Section MoreSampleRuns.
Local Existing Instance Sample.externals.

Lemma table_pending_reachable : reachable Sample.host Sample.table_pending.
Proof. exists true, true, [InAddNode (Sample.peer 32) Unknown 0]. vm_compute. reflexivity. Qed.

Lemma table_pending_ok : table_ok Sample.table_pending.
Proof.
  apply (reachable_ok Sample.host), table_pending_reachable. exact sample_no_collision.
Qed.

Lemma table0_ok : table_ok Sample.table0.
Proof. apply new_NodeTable_ok. Qed.

Lemma table1_ok : table_ok Sample.table1.
Proof.
  apply (reachable_ok Sample.host); [exact sample_no_collision|].
  exists true, true, [InAddNode (Sample.peer 32) Known 0]. vm_compute. reflexivity.
Qed.

(** The registry of the table with seventeen peers. *)
Lemma nodes_lists_registry_witness :
  ∃ l, nodes Sample.table17 = Some l ∧ length l = 17%nat ∧ 47 ∈ l.
Proof.
  destruct (nodes_lists_registry Sample.table17 table17_ok) as (l & Hl & _ & Hin & Hlen).
  exists l. split; [exact Hl|]. split; [rewrite Hlen; vm_compute; reflexivity|].
  apply Hin. exists 16%nat. vm_compute. reflexivity.
Defined.

(** The snapshot of the table with seventeen peers: the sixteen bucketed. *)
Lemma snapshot_entries_active_witness :
  (length (snapshot Sample.table17) ≤ s_bucketSize * Z.to_nat s_bins)%nat
  ∧ ∀ e, e ∈ snapshot Sample.table17 → pending e = false ∧ e_id e ≠ 1.
Proof.
  destruct (snapshot_entries_active Sample.table17 table17_ok) as [Hall Hlen].
  split; [exact Hlen|]. intros e He. destruct (Hall e He) as (Hp & Hid & _). auto.
Defined.

(** Peer 50, with the peer type 1, is added to the table with seventeen
    peers, either way: [node] answers it with the peer type 0. *)
Lemma addNode_then_node_witness :
  (∃ t', addNode (mkNode 50 (mkEndpoint 150 30303 30303) 1) Known 0 Sample.table17 = Some t'
       ∧ node 50 t' = Some (mkNode 50 (mkEndpoint 150 30303 30303) 0))
  ∧ (∃ t', addNode (mkNode 50 (mkEndpoint 150 30303 30303) 1) Unknown 0 Sample.table17
           = Some t'
         ∧ node 50 t' = Some (mkNode 50 (mkEndpoint 150 30303 30303) 0)).
Proof.
  pose (n := mkNode 50 (mkEndpoint 150 30303 30303) 1).
  pose proof (addNode_then_node n 0 Sample.table17 table17_ok sample_no_collision) as HH.
  destruct HH as [(t' & Ht' & Hn & _) Hu].
  split; [exists t'; split; [exact Ht' | exact Hn]|].
  assert (H1 : endpointSet (endpoint n) = true) by (vm_compute; reflexivity).
  assert (H2 : id n ≠ 0) by (vm_compute; discriminate).
  assert (H3 : m_allNodes Sample.table17 !! id n = None) by (vm_compute; reflexivity).
  destruct (Hu H1 H2 H3) as (t2 & Ht2 & Hn2 & _).
  exists t2. split; [exact Ht2 | exact Hn2].
Defined.

(** Peer 32, in its bucket, is seen again at times 5 and 9. *)
Lemma noteActiveNode_idempotent_witness :
  ∃ t1, noteActiveNode 32 (Sample.from_peer 32) 5 Sample.table1 = Some t1
      ∧ noteActiveNode 32 (Sample.from_peer 32) 9 t1 = Some t1.
Proof.
  exists (default Sample.table1 (noteActiveNode 32 (Sample.from_peer 32) 5 Sample.table1)).
  assert (Hn : noteActiveNode 32 (Sample.from_peer 32) 5 Sample.table1
               = Some (default Sample.table1
                         (noteActiveNode 32 (Sample.from_peer 32) 5 Sample.table1)))
    by (vm_compute; reflexivity).
  split; [exact Hn|].
  refine (noteActiveNode_idempotent 32 (Sample.from_peer 32) 5 9 Sample.table1 _
            table1_ok Hn _).
  vm_compute. reflexivity.
Defined.

(** Peer 47 is seen again while peer 31, at the front of the full bucket,
    is being probed: the probe stays and peer 31 gets another Ping. *)
Lemma full_bucket_starts_probe_witness :
  ∃ t', noteActiveNode 47 (Sample.from_peer 47) 40 Sample.table17 = Some t'
      ∧ m_buckets t' = m_buckets Sample.table17
      ∧ m_evictions t' = m_evictions Sample.table17.
Proof.
  pose (e := mkEntry 47 (endpoint (Sample.peer 47)) 6 false 0).
  assert (Hhost : 47 ≠ id (m_hostNode Sample.table17)) by (vm_compute; discriminate).
  assert (Hallowed : isAllowed (mkEndpoint (udp_address (Sample.from_peer 47))
                               (udp_port (Sample.from_peer 47))
                               (udp_port (Sample.from_peer 47))) = true)
    by (vm_compute; reflexivity).
  assert (Ha : m_allNodes Sample.table17 !! 47 = Some 16%nat) by (vm_compute; reflexivity).
  assert (He : m_heap Sample.table17 !! 16%nat = Some e) by (vm_compute; reflexivity).
  assert (Hp : pending e = false) by reflexivity.
  assert (Hb : m_buckets Sample.table17 !! Z.to_nat (e_distance e - 1)
               = Some (0%nat :: seq 1 15)) by (vm_compute; reflexivity).
  assert (Hfull : (s_bucketSize ≤ length (0%nat :: seq 1 15))%nat) by (vm_compute; lia).
  assert (Hnew : 16%nat ∉ 0%nat :: seq 1 15)
    by (apply (bool_decide_unpack _); vm_compute; exact I).
  assert (Hlive : owned Sample.table17 0%nat = true) by (vm_compute; reflexivity).
  assert (Hopen : m_socketOpen Sample.table17 = true) by (vm_compute; reflexivity).
  assert (Hprobe : is_Some (m_evictions Sample.table17 !! 31))
    by (exists (mkEvict 47 0); vm_compute; reflexivity).
  assert (Hle : m_heap Sample.table17 !! 0%nat
                     = Some (mkEntry 31 (endpoint (Sample.peer 31)) 6 false 0))
    by (vm_compute; reflexivity).
  destruct (full_bucket_starts_probe 47 (Sample.from_peer 47) 40 Sample.table17 16%nat
              e 0%nat (seq 1 15) table17_ok sample_no_collision Hhost Hallowed Ha He Hp
              Hb Hfull Hnew Hlive Hopen)
    as (t' & le & Ht' & Hle' & Hbk & _ & _ & _ & _ & Hkeep).
  exists t'. split; [exact Ht'|]. split; [exact Hbk|]. apply Hkeep.
  assert (Heq : le = mkEntry 31 (endpoint (Sample.peer 31)) 6 false 0) by congruence.
  rewrite Heq. exact Hprobe.
Defined.

(** A Ping signed by peer 32, stamped 7. *)
Lemma interpretUDP_decoded_witness :
  Nat.le 101 (length (Sample.datagram 32 1 [5; 6; 7]))
  ∧ sourceid (mkDatagram 32 (Sample.checksum ((32 :: replicate 64 0) ++ [1; 5; 6; 7])) 7
                (PingNode (mkEndpoint 5 30303 30303) (mkEndpoint 6 30303 30303))) ≠ 0
  ∧ drop 97 (Sample.datagram 32 1 [5; 6; 7]) !!! 0%nat = 1.
Proof.
  assert (Hdec : interpretUDP (Sample.datagram 32 1 [5; 6; 7])
                 = Decoded (mkDatagram 32
                              (Sample.checksum ((32 :: replicate 64 0) ++ [1; 5; 6; 7])) 7
                              (PingNode (mkEndpoint 5 30303 30303)
                                 (mkEndpoint 6 30303 30303))))
    by (vm_compute; reflexivity).
  destruct (interpretUDP_decoded _ _ Hdec) as (Hlen & _ & Hid & _ & _ & Hty & _).
  split; [exact Hlen|]. split; [exact Hid|exact Hty].
Defined.

(** Two neighbours named by peer 32, asked at time 0 and answering at 100. *)
Lemma solicited_neighbours_registered_witness :
  ∃ t', on_Neighbours 32 [(mkEndpoint 140 30303 30303, 40); (mkEndpoint 141 30303 30303, 41)]
          100 (set_findNodeTimeout [(32, 0)] Sample.table0) = Some t'
      ∧ is_Some (m_allNodes t' !! 40) ∧ is_Some (m_allNodes t' !! 41).
Proof.
  destruct (solicited_neighbours_registered 32
              [(mkEndpoint 140 30303 30303, 40); (mkEndpoint 141 30303 30303, 41)]
              100 (set_findNodeTimeout [(32, 0)] Sample.table0))
    as (t' & Ht' & _ & _ & Hin).
  { exists (32, 0). split; [left|]. split; [reflexivity | vm_compute; reflexivity]. }
  exists t'. split; [exact Ht'|]. split.
  - apply (Hin (mkEndpoint 140 30303 30303, 40));
      [left | vm_compute; reflexivity | vm_compute; discriminate].
  - apply (Hin (mkEndpoint 141 30303 30303, 41));
      [right; left | vm_compute; reflexivity | vm_compute; discriminate].
Defined.

(** Peer 32, unknown to the fresh table, pings it: a Ping to peer 32 goes
    out first, then the Pong. *)
Lemma ping_answered_once_witness :
  ∃ t' pre post,
    onPacketReceived (Sample.from_peer 32) (Sample.datagram 32 1 [5; 6; 100]) 0 8
      Sample.table0 = Some t'
    ∧ m_sent t' = m_sent Sample.table0 ++ pre
        ++ [OutPong (mkEndpoint 132 30303 30303)
              (take 32 (Sample.datagram 32 1 [5; 6; 100]))] ++ post
    ∧ (pre = [] ∨ ∃ x y, pre = [OutPing x y])
    ∧ (post = [] ∨ ∃ x y, post = [OutPing x y]).
Proof.
  assert (Hdec : interpretUDP (Sample.datagram 32 1 [5; 6; 100])
                 = Decoded (mkDatagram 32
                              (Sample.checksum ((32 :: replicate 64 0) ++ [1; 5; 6; 100])) 100
                              (PingNode (mkEndpoint 5 30303 30303)
                                 (mkEndpoint 6 30303 30303))))
    by (vm_compute; reflexivity).
  refine (ping_answered_once (Sample.from_peer 32) _ 0 8 Sample.table0 _
            (mkEndpoint 5 30303 30303) (mkEndpoint 6 30303 30303)
            table0_ok sample_no_collision Hdec eq_refl _).
  simpl; lia.
Defined.

(** The Pong of peer 32, pending in the table, stamped 1000. *)
Lemma pong_activates_pending_node_witness :
  ∃ t', onPacketReceived (Sample.from_peer 32) (Sample.datagram 32 2 [10; 1000; 0]) 20 8
          Sample.table_pending = Some t'
      ∧ m_buckets t' = <[5%nat := [0%nat]]> (m_buckets Sample.table_pending)
      ∧ m_events t' = [(32, NodeEntryAdded)]
      ∧ m_sent t' = m_sent Sample.table_pending.
Proof.
  pose (e := mkEntry 32 (endpoint (Sample.peer 32)) 6 true 0).
  pose (p := mkDatagram 32 (Sample.checksum ((32 :: replicate 64 0) ++ [2; 10; 1000; 0])) 1000
               (Pong (mkEndpoint 10 30303 30303))).
  assert (Hdec : interpretUDP (Sample.datagram 32 2 [10; 1000; 0]) = Decoded p)
    by (vm_compute; reflexivity).
  assert (Hlive : 8 ≤ ts p) by (simpl; lia).
  assert (Hhost : sourceid p ≠ id (m_hostNode Sample.table_pending))
    by (vm_compute; discriminate).
  assert (Hallowed : isAllowed (mkEndpoint (udp_address (Sample.from_peer 32))
                                  (udp_port (Sample.from_peer 32))
                                  (udp_port (Sample.from_peer 32))) = true)
    by (vm_compute; reflexivity).
  assert (Ha : m_allNodes Sample.table_pending !! sourceid p = Some 0%nat)
    by (vm_compute; reflexivity).
  assert (He : m_heap Sample.table_pending !! 0%nat = Some e) by (vm_compute; reflexivity).
  assert (Hnoprobe : m_evictions Sample.table_pending !! sourceid p = None)
    by (vm_compute; reflexivity).
  assert (Hb : m_buckets Sample.table_pending !! Z.to_nat (e_distance e - 1) = Some [])
    by (vm_compute; reflexivity).
  assert (Hroom : (length (@nil nat) < s_bucketSize)%nat) by (vm_compute; lia).
  destruct (pong_activates_pending_node (Sample.from_peer 32) _ 20 8 Sample.table_pending
              p (mkEndpoint 10 30303 30303) 0%nat e [] table_pending_ok sample_no_collision
              Hdec eq_refl Hlive Hhost Hallowed Ha He eq_refl Hnoprobe Hb Hroom)
    as (t' & Ht' & Hbk & _ & _ & Hev & Hs).
  exists t'. split; [exact Ht'|]. split; [exact Hbk|]. split; [|exact Hs].
  rewrite Hev. vm_compute. reflexivity.
Defined.

(** The table with seventeen peers. *)
Lemma reachable_table_wellformed_witness :
  id (m_hostNode Sample.table17) = 1 ∧ length (m_buckets Sample.table17) = 256%nat.
Proof.
  destruct (reachable_table_wellformed Sample.host Sample.table17 sample_no_collision
              table17_reachable) as (Hh & _ & Hlen & _).
  split; [exact Hh | exact Hlen].
Defined.

(** The probe of peer 31, started at 0, is 100 old: the sweep only
    schedules the next one. *)
Lemma idle_sweep_changes_nothing_witness :
  checkEvictions 100 Sample.table17 = Some (doCheckEvictions Sample.table17).
Proof.
  rewrite (idle_sweep_changes_nothing 100 Sample.table17).
  - vm_compute. reflexivity.
  - intros k ev (Hk & Hlt & _).
    assert (Hev : m_evictions Sample.table17 = {[31 := mkEvict 47 0]})
      by (vm_compute; reflexivity).
    rewrite Hev in Hk. apply lookup_singleton_Some in Hk as [_ <-].
    simpl in Hlt. unfold c_reqTimeout in Hlt. lia.
Defined.

(** The timers of the table with seventeen peers. *)
Lemma reachable_lookup_bounded_witness :
  (length (filter (λ k, is_discovery k = true) (m_timers Sample.table17)) ≤ 1)%nat.
Proof.
  destruct (reachable_lookup_bounded Sample.host Sample.table17 table17_reachable)
    as [_ Hc].
  exact Hc.
Defined.
(** Peer 32, the one node of the table, is dropped. *)
Lemma dropNode_then_node_witness :
  ∃ t', dropNode 0 Sample.table1 = Some t'
      ∧ node 32 t' = Some UnspecifiedNode
      ∧ snapshot t' = []
      ∧ m_events t' = m_events Sample.table1 ++ [(32, NodeEntryDropped)].
Proof.
  pose (e := mkEntry 32 (endpoint (Sample.peer 32)) 6 false 0).
  assert (He : m_heap Sample.table1 !! 0%nat = Some e) by (vm_compute; reflexivity).
  assert (Hid : e_id e ≠ id (m_hostNode Sample.table1)) by (vm_compute; discriminate).
  destruct (dropNode_then_node 0 e Sample.table1 table1_ok sample_no_collision He Hid)
    as (t' & Ht' & Hn & _ & Hb & Hs & Hev & _).
  exists t'. split; [exact Ht'|]. split; [exact Hn|]. split; [|exact Hev].
  assert (Hsnap : snapshot Sample.table1 = [e]) by (vm_compute; reflexivity).
  rewrite Hsnap in Hs. destruct (snapshot t') as [|x l] eqn:Ex; [reflexivity|]. exfalso.
  assert (Hx : x = e) by (apply list_elem_of_singleton, Hs; left). subst x.
  unfold snapshot in Ex.
  assert (Hin : e ∈ flat_map (λ s, omap (weak_lock t') s) (m_buckets t'))
    by (rewrite Ex; left).
  apply list_elem_of_In, in_flat_map in Hin as (s & Hs1 & Hin).
  apply list_elem_of_In in Hs1, Hin. apply list_elem_of_omap in Hin as (a & Ha & Hlock).
  assert (Ht1 : Some t' = Some (default Sample.table1 (dropNode 0 Sample.table1)))
    by (rewrite <- Ht'; vm_compute; reflexivity).
  injection Ht1 as ->. revert Hs1 Ha. vm_compute. intros Hs1 Ha.
  apply list_elem_of_In in Hs1. apply list_elem_of_In in Ha. 
  repeat (destruct Hs1 as [<-|Hs1]; [destruct Ha|]). destruct Hs1.
Defined.

(** Peer 99, unknown to the fresh table, sends a Pong that names the public
    address 5000: the local endpoint is set and allowed, and keeps its
    address. *)
Lemma pong_rewrites_local_endpoint_witness :
  ∃ t', onPacketReceived (Sample.from_peer 99) (Sample.datagram 99 2 [5000; 1000; 0]) 0 8
          Sample.table0 = Some t'
      ∧ udpPort (endpoint (m_hostNode t')) = 30303
      ∧ address (endpoint (m_hostNode t')) = 10.
Proof.
  pose (p := mkDatagram 99 (Sample.checksum ((99 :: replicate 64 0) ++ [2; 5000; 1000; 0]))
               1000 (Pong (mkEndpoint 5000 30303 30303))).
  assert (Hdec : interpretUDP (Sample.datagram 99 2 [5000; 1000; 0]) = Decoded p)
    by (vm_compute; reflexivity).
  assert (Hlive : 8 ≤ ts p) by (simpl; lia).
  destruct (pong_rewrites_local_endpoint (Sample.from_peer 99) _ 0 8 Sample.table0 p
              (mkEndpoint 5000 30303 30303) table0_ok sample_no_collision Hdec eq_refl
              Hlive)
    as (t' & Ht' & _ & Hu & _ & Ha).
  exists t'. split; [exact Ht'|]. split; [exact Hu|]. rewrite Ha. vm_compute. reflexivity.
Defined.

Lemma table_closed_ok : table_ok Sample.table_closed.
Proof.
  apply (reachable_ok Sample.host); [exact sample_no_collision|].
  exists true, true, (Sample.fill ++ [InSocket false; InAddNode (Sample.peer 47) Known 0]).
  vm_compute. reflexivity.
Qed.

(** Peer 47 is seen again behind the closed socket. *)
Lemma full_bucket_closed_socket_witness :
  noteActiveNode 47 (Sample.from_peer 47) 40 Sample.table_closed
  = Some (set_heap (<[16%nat := mkEntry 47 (endpoint (Sample.peer 47)) 6 false 0]>
                      (m_heap Sample.table_closed)) Sample.table_closed)
  ∧ m_evictions Sample.table_closed = ∅.
Proof.
  pose (e := mkEntry 47 (endpoint (Sample.peer 47)) 6 false 0).
  assert (Hhost : 47 ≠ id (m_hostNode Sample.table_closed)) by (vm_compute; discriminate).
  assert (Hallowed : isAllowed (mkEndpoint (udp_address (Sample.from_peer 47))
                               (udp_port (Sample.from_peer 47))
                               (udp_port (Sample.from_peer 47))) = true)
    by (vm_compute; reflexivity).
  assert (Ha : m_allNodes Sample.table_closed !! 47 = Some 16%nat)
    by (vm_compute; reflexivity).
  assert (He : m_heap Sample.table_closed !! 16%nat = Some e) by (vm_compute; reflexivity).
  assert (Hp : pending e = false) by reflexivity.
  assert (Hb : m_buckets Sample.table_closed !! Z.to_nat (e_distance e - 1)
               = Some (0%nat :: seq 1 15)) by (vm_compute; reflexivity).
  assert (Hfull : (s_bucketSize ≤ length (0%nat :: seq 1 15))%nat) by (vm_compute; lia).
  assert (Hnew : 16%nat ∉ 0%nat :: seq 1 15)
    by (apply (bool_decide_unpack _); vm_compute; exact I).
  assert (Hlive : owned Sample.table_closed 0%nat = true) by (vm_compute; reflexivity).
  assert (Hclosed : m_socketOpen Sample.table_closed = false) by (vm_compute; reflexivity).
  split; [|vm_compute; reflexivity].
  exact (full_bucket_closed_socket 47 (Sample.from_peer 47) 40 Sample.table_closed 16%nat
           e 0%nat (seq 1 15) table_closed_ok sample_no_collision Hhost Hallowed Ha He Hp
           Hb Hfull Hnew Hlive Hclosed).
Defined.

End MoreSampleRuns.
